(** * http-mcp: the curl-command parser and the /mcp session handlers

    A shallow embedding of [parseCurlCommand], of [makeHttpRequest] up to
    its call of [fetch], and of the POST, GET and DELETE handlers of the
    four server variants of the repository ([src/index.ts],
    [src/unnamed/part_000], [part_001], [part_002]).

    Strings are sequences of 8-bit code units and stand for JavaScript
    strings within ASCII, where [split] at white space, [trim] and
    [toUpperCase] are the functions of module [JS]; beyond ASCII
    JavaScript knows more white space and more letters, so the facts
    about the parser are stated for commands within ASCII
    ([JS.ascii_only]). [JSON.parse], the transport of the protocol
    library and the checks of the [Response] constructor are
    parameters. *)

From stdpp Require Import gmap strings list.
From Stdlib Require Import Ascii String ZArith.

Local Open Scope string_scope.
Local Open Scope list_scope.

(** ** JavaScript built-ins used by the program *)

Module JS.

(** The double-quote and single-quote code units. *)
Definition dquote : ascii := "034"%char.
Definition squote : ascii := "039"%char.

(** A string within ASCII: every code unit is below 128. *)
Definition is_ascii (c : ascii) : bool := (N_of_ascii c <? 128)%N.

Fixpoint ascii_only (s : string) : bool :=
  match s with
  | EmptyString => true
  | String c s' => is_ascii c && ascii_only s'
  end.

(** The white space of [\s] and of [trim] within ASCII: TAB, LF, VT, FF,
    CR and space. *)
Definition is_space (c : ascii) : bool :=
  let n := N_of_ascii c in
  ((9 <=? n) && (n <=? 13))%N || (n =? 32)%N.

(** The character class of the three quote-stripping regexes: the single
    and the double quote. *)
Definition is_quote (c : ascii) : bool :=
  Ascii.eqb c squote || Ascii.eqb c dquote.

Definition truthy (s : string) : bool :=
  match s with EmptyString => false | String _ _ => true end.

(** [s.split(/\s+/)]: [cur] is the piece being read, [in_run] tells that
    the previous code unit was white space. *)
Fixpoint split_ws_from (cur : string) (in_run : bool) (s : string) : list string :=
  match s with
  | EmptyString => [cur]
  | String c s' =>
      if is_space c then
        if in_run then split_ws_from cur true s'
        else cur :: split_ws_from EmptyString true s'
      else split_ws_from (cur +:+ String c EmptyString) false s'
  end.

Definition split_ws (s : string) : list string :=
  split_ws_from EmptyString false s.

(** [s.split(sep)] for a one-character separator. *)
Fixpoint split_on_from (sep : ascii) (cur : string) (s : string) : list string :=
  match s with
  | EmptyString => [cur]
  | String c s' =>
      if Ascii.eqb c sep then cur :: split_on_from sep EmptyString s'
      else split_on_from sep (cur +:+ String c EmptyString) s'
  end.

Definition split_on (sep : ascii) (s : string) : list string :=
  split_on_from sep EmptyString s.

(** [parts.join(sep)]. *)
Fixpoint join (sep : string) (parts : list string) : string :=
  match parts with
  | [] => EmptyString
  | [p] => p
  | p :: rest => p +:+ sep +:+ join sep rest
  end.

(** [s.toUpperCase()] within ASCII: the letters a-z change, nothing
    else does. *)
Definition upper_char (c : ascii) : ascii :=
  let n := N_of_ascii c in
  if ((97 <=? n) && (n <=? 122))%N then ascii_of_N (n - 32) else c.

Fixpoint toUpperCase (s : string) : string :=
  match s with
  | EmptyString => EmptyString
  | String c s' => String (upper_char c) (toUpperCase s')
  end.

(** [s.trim()]. *)
Fixpoint trimStart (s : string) : string :=
  match s with
  | EmptyString => EmptyString
  | String c s' => if is_space c then trimStart s' else s
  end.

Fixpoint trimEnd (s : string) : string :=
  match s with
  | EmptyString => EmptyString
  | String c s' =>
      let r := trimEnd s' in
      if is_space c && negb (truthy r) then EmptyString else String c r
  end.

Definition trim (s : string) : string := trimEnd (trimStart s).

(** [s.startsWith] with a dash. *)
Definition startsWith_dash (s : string) : bool :=
  match s with
  | String c _ => Ascii.eqb c "-"%char
  | EmptyString => false
  end.

(** [replace] with the global quote-class regex and an empty replacement
    (lines 248 and 265): every quote goes. *)
Fixpoint remove_quotes (s : string) : string :=
  match s with
  | EmptyString => EmptyString
  | String c s' => if is_quote c then remove_quotes s' else String c (remove_quotes s')
  end.

(** [replace] with the anchored regex of line 256 (a quote at the start
    of the string, or a quote at its end): one quote at the start and one
    at the end go, each on its own. *)
Definition strip_leading_quote (s : string) : string :=
  match s with
  | String c s' => if is_quote c then s' else s
  | EmptyString => EmptyString
  end.

Fixpoint strip_trailing_quote (s : string) : string :=
  match s with
  | EmptyString => EmptyString
  | String c EmptyString => if is_quote c then EmptyString else s
  | String c s' => String c (strip_trailing_quote s')
  end.

Definition strip_wrapping_quotes (s : string) : string :=
  strip_trailing_quote (strip_leading_quote s).

(** [o[k] = v] on an object created by [{}], [v] a string: the inherited
    [__proto__] setter ignores a primitive and adds no property. *)
Definition obj_set (k v : string) (o : gmap string string) : gmap string string :=
  if decide (k = "__proto__") then o else <[k := v]> o.

End JS.

(** ** parseCurlCommand (part_000, lines 234-272; the same text in
    part_001 and part_002) *)

Module Curl.
Import JS.

Section Parser.

(** [JSON.parse] is a built-in: the parser is taken as a parameter, [None]
    standing for a [SyntaxError]. *)
Context {json : Type} (JSON_parse : string -> option json).

Inductive body_t :=
  | BodyUndefined
  | BodyJson (v : json)
  | BodyRaw (s : string).

Record descriptor := Descriptor {
  url : string;
  method : string;
  headers : gmap string string;
  body : body_t
}.

Definition init : descriptor :=
  {| url := EmptyString; method := "GET"; headers := ∅; body := BodyUndefined |}.

Definition is_method_flag (p : string) : bool :=
  String.eqb p "-X" || String.eqb p "--request".
Definition is_header_flag (p : string) : bool :=
  String.eqb p "-H" || String.eqb p "--header".
Definition is_data_flag (p : string) : bool :=
  String.eqb p "-d" || String.eqb p "--data".

(** [parts[++i]?.toUpperCase() || GET], line 246. *)
Definition method_of (next : option string) : string :=
  match next with
  | Some t => if truthy (toUpperCase t) then toUpperCase t else "GET"
  | None => "GET"
  end.

(** The header branch, lines 248-254. *)
Definition add_header (next : option string) (hs : gmap string string) : gmap string string :=
  match next with
  | None => hs
  | Some t =>
      let header := remove_quotes t in
      if truthy header then
        match split_on ":" header with
        | key :: valueParts =>
            if truthy key && (0 <? List.length valueParts)%nat
            then obj_set (trim key) (trim (join ":" valueParts)) hs
            else hs
        | [] => hs
        end
      else hs
  end.

(** The data branch, lines 256-263. *)
Definition set_body (next : option string) (b : body_t) : body_t :=
  match next with
  | None => b
  | Some t =>
      let data := strip_wrapping_quotes t in
      if truthy data then
        match JSON_parse data with
        | Some v => BodyJson v
        | None => BodyRaw data
        end
      else b
  end.

(** The URL branch, lines 264-266. *)
Definition set_url (part : string) (st : descriptor) : descriptor :=
  if negb (startsWith_dash part) && negb (truthy (url st))
  then {| url := remove_quotes part; method := method st;
          headers := headers st; body := body st |}
  else st.

Definition with_method (m : string) (st : descriptor) : descriptor :=
  {| url := url st; method := m; headers := headers st; body := body st |}.
Definition with_headers (h : gmap string string) (st : descriptor) : descriptor :=
  {| url := url st; method := method st; headers := h; body := body st |}.
Definition with_body (b : body_t) (st : descriptor) : descriptor :=
  {| url := url st; method := method st; headers := headers st; body := b |}.

(** The [for] loop, lines 240-267: [parts] is what is left from the
    cursor on; a flag at the end of the list reads [parts[++i]] as
    [undefined]. *)
Fixpoint walk (st : descriptor) (parts : list string) : descriptor :=
  match parts with
  | [] => st
  | part :: rest =>
      if String.eqb part "curl" then walk st rest
      else if is_method_flag part then
        match rest with
        | [] => with_method (method_of None) st
        | t :: rest' => walk (with_method (method_of (Some t)) st) rest'
        end
      else if is_header_flag part then
        match rest with
        | [] => with_headers (add_header None (headers st)) st
        | t :: rest' => walk (with_headers (add_header (Some t) (headers st)) st) rest'
        end
      else if is_data_flag part then
        match rest with
        | [] => with_body (set_body None (body st)) st
        | t :: rest' => walk (with_body (set_body (Some t) (body st)) st) rest'
        end
      else walk (set_url part st) rest
  end.

Definition no_url_error : string := "No URL found in CURL command".

(** [inl msg] is [throw new Error(msg)]. *)
Definition parseCurlCommand (curlCommand : string) : string + descriptor :=
  let st := walk init (split_ws curlCommand) in
  if negb (truthy (url st)) then inl no_url_error else inr st.

(** *** Notions used to state the properties of the walk *)

(** A flag that reads [parts[++i]]. *)
Definition consumes_next (p : string) : bool :=
  is_method_flag p || is_header_flag p || is_data_flag p.

(** [aligned l]: a walk started on the first token of [l] puts its cursor
    exactly behind the last one, no flag of [l] is left without the token
    it reads. *)
Fixpoint aligned (l : list string) : bool :=
  match l with
  | [] => true
  | p :: rest =>
      if String.eqb p "curl" then aligned rest
      else if consumes_next p then
        match rest with
        | [] => false
        | _ :: rest' => aligned rest'
        end
      else aligned rest
  end.

(** The tokens the cursor visits that are neither the command name nor a
    flag: the candidates for the URL slot, in order. *)
Fixpoint url_candidates (parts : list string) : list string :=
  match parts with
  | [] => []
  | p :: rest =>
      if String.eqb p "curl" then url_candidates rest
      else if consumes_next p then
        match rest with
        | [] => []
        | _ :: rest' => url_candidates rest'
        end
      else if startsWith_dash p then url_candidates rest
      else p :: url_candidates rest
  end.

Fixpoint first_truthy (l : list string) : string :=
  match l with
  | [] => EmptyString
  | s :: rest => if truthy s then s else first_truthy rest
  end.

Fixpoint has_quote (s : string) : bool :=
  match s with
  | EmptyString => false
  | String c s' => is_quote c || has_quote s'
  end.

Fixpoint has_colon (s : string) : bool :=
  match s with
  | EmptyString => false
  | String c s' => Ascii.eqb c ":" || has_colon s'
  end.

Fixpoint has_space (s : string) : bool :=
  match s with
  | EmptyString => false
  | String c s' => is_space c || has_space s'
  end.

(** No quote in the URL, in a header name or in a header value. *)
Definition quote_free (d : descriptor) : Prop :=
  has_quote (url d) = false /\
  forall k v, headers d !! k = Some v -> has_quote k = false /\ has_quote v = false.

End Parser.

Arguments body_t : clear implicits.
Arguments descriptor : clear implicits.

(** *** The command of the round-trip sentence

    It is the command of the [curl_command] description (part_000, line
    132) and of the [api-docs] resource (line 224) with another host and
    payload; the data token has two double quotes inside. *)
Definition example_data : string :=
  "{" +:+ String dquote "a" +:+ String dquote ":1}".

Definition example_command : string :=
  "curl -X POST https://example.test/x -H 'Content-Type: application/json' -d '"
  +:+ example_data +:+ "'".

(** The descriptor the round-trip sentence promises, [v] being the parsed
    payload. *)
Definition promised_descriptor {json : Type} (v : json) : descriptor json :=
  {| url := "https://example.test/x"; method := "POST";
     headers := {["Content-Type" := "application/json"]};
     body := BodyJson v |}.

(** The data-flag sentence as the specification words it: the token behind
    the last data flag, its wrapping quotes stripped, is the body whenever
    [JSON.parse] rejects it. *)
Definition data_kept_as_stated : Prop :=
  forall (json : Type) (JSON_parse : string -> option json)
         (cmd : string) (pre post : list string) (f t : string),
    split_ws cmd = pre ++ f :: t :: post ->
    aligned pre = true ->
    is_data_flag f = true ->
    Forall (fun p => is_data_flag p = false) post ->
    JSON_parse (strip_wrapping_quotes t) = None ->
    body (walk JSON_parse init (split_ws cmd)) = BodyRaw (strip_wrapping_quotes t).

End Curl.

(** *** The arguments the walk hands to each kind of flag *)

Module CurlArgs.
Import JS Curl.

(** The tokens read by the flags of one kind, in the order of the walk;
    [None] for a flag that is the last token. *)
Fixpoint flag_args (is_flag : string -> bool) (parts : list string) : list (option string) :=
  match parts with
  | [] => []
  | p :: rest =>
      if String.eqb p "curl" then flag_args is_flag rest
      else if consumes_next p then
        match rest with
        | [] => if is_flag p then [None] else []
        | t :: rest' =>
            if is_flag p then Some t :: flag_args is_flag rest'
            else flag_args is_flag rest'
        end
      else flag_args is_flag rest
  end.

(** No lower-case ASCII letter. *)
Fixpoint has_lower (s : string) : bool :=
  match s with
  | EmptyString => false
  | String c s' =>
      let n := N_of_ascii c in
      ((97 <=? n) && (n <=? 122))%N || has_lower s'
  end.

(** The pieces between the single spaces of a command: none holds white
    space and only the first and the last may be empty. *)
Fixpoint inner_pieces_ok (l : list string) : bool :=
  match l with
  | [] => true
  | [_] => true
  | p :: rest => truthy p && inner_pieces_ok rest
  end.

Definition pieces_ok (l : list string) : bool :=
  forallb (fun p => negb (has_space p)) l &&
  match l with
  | [] => false
  | [_] => true
  | _ :: rest => inner_pieces_ok rest
  end.

(** No white space in the URL, the method, a header name, a header value
    or a body kept as a string. *)
Definition space_free {json : Type} (d : descriptor json) : Prop :=
  has_space (url d) = false /\
  has_space (method d) = false /\
  (forall k v, headers d !! k = Some v -> has_space k = false /\ has_space v = false) /\
  (forall s, body d = BodyRaw s -> has_space s = false).

(** The URL, the method, the header names and values and a body kept as
    a string are within ASCII. *)
Definition within_ascii {json : Type} (d : descriptor json) : Prop :=
  ascii_only (url d) = true /\
  ascii_only (method d) = true /\
  (forall k v, headers d !! k = Some v -> ascii_only k = true /\ ascii_only v = true) /\
  (forall s, body d = BodyRaw s -> ascii_only s = true).

(** A header token the header branch passes over: no colon in it, nothing
    before its first colon, or the name [__proto__] (quotes removed). *)
Definition ignored_header (h : string) : Prop :=
  has_colon (remove_quotes h) = false
  \/ (exists v, remove_quotes h = String ":" v)
  \/ (exists k v, remove_quotes h = k +:+ String ":" v /\ has_colon k = false
                   /\ trim k = "__proto__").

End CurlArgs.

(** ** makeHttpRequest up to the call of fetch, and the curl_request tool
    up to there

    [index.ts] lines 17-35 (the same text in part_001) and part_000 lines
    24-44 (the same text in part_002); the tool is part_000 lines
    135-145 and 170-178. What [fetch] answers is not embedded. *)

Module Executor.
Import JS Curl.

Definition userAgent : string := "MCP-HTTP-Client/1.0.0".

(** [['POST', 'PUT', 'PATCH'].includes(method.toUpperCase())] *)
Definition sends_body (method : string) : bool :=
  existsb (String.eqb (toUpperCase method)) ["POST"; "PUT"; "PATCH"].

(** [headers[k]] read as a condition. *)
Definition header_truthy (hs : gmap string string) (k : string) : bool :=
  match hs !! k with
  | Some v => truthy v
  | None => false
  end.

Section Exec.

(** The values of the runtime: which JSON values are truthy, which are
    strings, what [JSON.stringify] returns; [signal_accepts]: whether
    [AbortSignal.timeout] takes the number. *)
Context {json : Type}.
Context (json_truthy : json -> bool).
Context (json_string : json -> option string).
Context (JSON_stringify : json -> string).
Context (signal_accepts : Z -> bool).

(** The argument of [makeHttpRequest]; [None] is a field left out. *)
Record config := Config {
  c_url : string;
  c_method : option string;
  c_headers : option (gmap string string);
  c_body : body_t json;
  c_timeout : option Z
}.

(** The second argument of [fetch]; [ri_timeout] stands for the signal. *)
Record requestInit := RequestInit {
  ri_method : string;
  ri_headers : gmap string string;
  ri_body : option string;
  ri_timeout : Z
}.

Definition body_truthy (b : body_t json) : bool :=
  match b with
  | BodyUndefined => false
  | BodyJson v => json_truthy v
  | BodyRaw s => truthy s
  end.

(** [typeof body === 'string'] with the string. *)
Definition body_string (b : body_t json) : option string :=
  match b with
  | BodyUndefined => None
  | BodyJson v => json_string v
  | BodyRaw s => Some s
  end.

(** The test before the default content type: index.ts line 30 looks for
    [Content-Type], part_000 line 39 also for [content-type]. *)
Definition has_content_type (also_lower : bool) (hs : gmap string string) : bool :=
  header_truthy hs "Content-Type" || (also_lower && header_truthy hs "content-type").

(** Lines 20-34 of index.ts; [None]: the signal could not be made, which
    the [catch] of line 59 turns into an error result without a call of
    [fetch]. *)
Definition make_requestInit (also_lower : bool) (cfg : config) : option requestInit :=
  let method := default "GET" (c_method cfg) in
  let headers := default ∅ (c_headers cfg) in
  let timeout := default 30000%Z (c_timeout cfg) in
  if signal_accepts timeout then
    let base_headers := headers ∪ {["User-Agent" := userAgent]} in
    if body_truthy (c_body cfg) && sends_body method then
      match body_string (c_body cfg) with
      | Some text =>
          Some {| ri_method := toUpperCase method; ri_headers := base_headers;
                  ri_body := Some text; ri_timeout := timeout |}
      | None =>
          Some {| ri_method := toUpperCase method;
                  ri_headers := if has_content_type also_lower headers
                                then base_headers
                                else <["Content-Type" := "application/json"]> base_headers;
                  ri_body := match c_body cfg with
                             | BodyJson v => Some (JSON_stringify v)
                             | _ => None
                             end;
                  ri_timeout := timeout |}
      end
    else
      Some {| ri_method := toUpperCase method; ri_headers := base_headers;
              ri_body := None; ri_timeout := timeout |}
  else None.

(** What the [curl_request] tool does up to [fetch]: [inl msg] when the
    parser throws (the outer [catch], no request is made), otherwise the
    URL and the argument handed to [fetch], if the signal could be
    made. *)
Definition curl_request (JSON_parse : string -> option json) (also_lower : bool)
    (curl_command : string) (timeout : Z) : string + option (string * requestInit) :=
  match parseCurlCommand JSON_parse curl_command with
  | inl msg => inl msg
  | inr parsed =>
      inr (match make_requestInit also_lower
                   {| c_url := url parsed; c_method := Some (method parsed);
                      c_headers := Some (headers parsed); c_body := body parsed;
                      c_timeout := Some timeout |} with
           | Some init => Some (url parsed, init)
           | None => None
           end)
  end.

End Exec.

Arguments config : clear implicits.

End Executor.

(** ** The /mcp handlers

    The protocol transport is a collaborator: what it does during one
    [handleRequest] call is given as a [behaviour], the calls it makes on
    the response sink and on the two callbacks of the handler, the
    moment its promise settles, and the moments at which the reactions
    to a settled promise run. *)

Module Http.
Import JS.

(** A JavaScript promise: settled at most once, a later [resolve] or
    [reject] does nothing. *)
Inductive promise (A : Type) : Type :=
  | Pending
  | Fulfilled (a : A)
  | Rejected (e : string).
Arguments Pending {A}.
Arguments Fulfilled {A} a.
Arguments Rejected {A} e.

Definition settled {A : Type} (p : promise A) : bool :=
  match p with Pending => false | _ => true end.

Definition resolve {A : Type} (a : A) (p : promise A) : promise A :=
  match p with Pending => Fulfilled a | _ => p end.

Definition reject {A : Type} (e : string) (p : promise A) : promise A :=
  match p with Pending => Rejected e | _ => p end.

(** What the transport does with the sink [res] and with the callbacks
    [onsessioninitialized] and [onclose]. *)
Inductive action :=
  | SetHeader (k v : string)
  | WriteHead (status : Z) (hs : option (gmap string string))
  | Write (chunk : string)
  | End (data : option string)
  | Initialized (id : string)
  | Closed.

(** What takes place during one call, in order.

    [Do a]: the transport performs [a]. [Fulfil], [Reject e]: the
    transport settles the promise that [handleRequest] returned.

    [Resume]: the reaction that the handler attached to that promise
    runs, the continuation behind [await] or the [then] or [catch]
    callback. A reaction never runs inside the job that settled the
    promise: what the transport still does in that job stands between
    the settling and [Resume]. Before the promise has settled, and once
    the reaction has run, [Resume] does nothing.

    [Respond]: the framework, which awaits the promise of the handler,
    resumes and builds the reply from the value of that promise and from
    its context [set]. Before the promise of the handler has settled, and
    once the reply is built, [Respond] does nothing. *)
Inductive event :=
  | Do (a : action)
  | Fulfil
  | Reject (e : string)
  | Resume
  | Respond.

(** [sync]: what [handleRequest] does before it returns its promise;
    [later]: what happens afterwards, in order. *)
Record behaviour := Behaviour {
  sync : list action;
  later : list event
}.

Definition events (b : behaviour) : list event := List.map Do (sync b) ++ later b.

(** When the transport has done all it does, the reactions that are still
    due run. *)
Definition finally : list event := [Resume; Respond].

Definition trace (b : behaviour) : list event := events b ++ finally.

(** How an event settles the promise of [handleRequest]. *)
Definition settle_call (e : event) (call : promise unit) : promise unit :=
  match e with
  | Fulfil => resolve tt call
  | Reject err => reject err call
  | _ => call
  end.

(** The error of a method call on [undefined]. *)
Definition TypeError : string := "TypeError".

(** [Object.assign(target, source)] on string-valued objects. *)
Definition obj_assign (target source : gmap string string) : gmap string string :=
  delete "__proto__" source ∪ target.

(** The names every object created by [{}] inherits from
    [Object.prototype]. *)
Definition object_prototype_keys : list string :=
  ["constructor"; "__proto__"; "hasOwnProperty"; "isPrototypeOf";
   "propertyIsEnumerable"; "toLocaleString"; "toString"; "valueOf";
   "__defineGetter__"; "__defineSetter__"; "__lookupGetter__";
   "__lookupSetter__"].

Section Handlers.

(** [transport]: the transport objects; [JSON.parse] and the checks that
    the [Response] constructor makes on the status and on the headers it
    is given (it throws on those it does not accept) are built-ins of the
    runtime. *)
Context {transport json : Type}.
Context (JSON_parse : string -> option json).
Context (response_accepts : Z -> gmap string string -> bool).

(** [sessions[k]] on the registry [const sessions = {}]. *)
Inductive property :=
  | Own (t : transport)
  | Inherited
  | Missing.

Definition get (sessions : gmap string transport) (k : string) : property :=
  match sessions !! k with
  | Some t => Own t
  | None => if bool_decide (k ∈ object_prototype_keys) then Inherited else Missing
  end.

Definition property_truthy (p : property) : bool :=
  match p with Missing => false | _ => true end.

(** [sessions[k].transport] *)
Definition transport_of (p : property) : option transport :=
  match p with Own t => Some t | _ => None end.

(** [sessionId && sessions[sessionId]] *)
Definition known (sessions : gmap string transport) (sessionId : option string) : bool :=
  match sessionId with
  | Some k => truthy k && property_truthy (get sessions k)
  | None => false
  end.

(** [!sessionId] *)
Definition absent (sessionId : option string) : bool :=
  match sessionId with
  | Some k => negb (truthy k)
  | None => true
  end.

(** The JSON-RPC error object [{jsonrpc: 2.0, error: {code, message}, id: null}],
    values handed to the framework, and replies. *)
Inductive value :=
  | Undefined
  | Str (s : string)
  | Parsed (j : json)
  | ErrorObject (code : Z) (message : string)
  | ErrorText (code : Z) (message : string).

Record reply := Reply {
  status : Z;
  headers : gmap string string;
  body : value
}.

(** What a handler leaves behind: the registry, the [handleRequest] calls
    it made (receiver and [req.method]) and the promise it returned. *)
Record outcome := Outcome {
  registry : gmap string transport;
  invoked : list (transport * string);
  result : promise reply
}.

(** An inbound call: the [mcp-session-id] header and
    [isInitializeRequest(body)]. *)
Record request := Request {
  sessionId : option string;
  is_initialize : bool
}.

(** What the collaborators do during a POST: the transport made by [new],
    whether [server.connect] rejects, and the behaviour of the
    transport. *)
Record world := World {
  fresh : transport;
  connect_error : option string;
  conduct : behaviour
}.

(** The two callbacks, lines 113-119 of index.ts; [sid] is
    [transport.sessionId] and [id] the identifier that the transport drew
    from [sessionIdGenerator], which is [randomUUID]. The assignment is
    that of an ordinary key; for the name [__proto__], which no UUID is,
    JavaScript would replace the prototype of the registry instead. *)
Definition on_initialized (t : transport) (id : string)
    (sessions : gmap string transport) : gmap string transport :=
  <[id := t]> sessions.

Definition on_close (sid : option string)
    (sessions : gmap string transport) : gmap string transport :=
  match sid with
  | Some k => if truthy k then delete k sessions else sessions
  | None => sessions
  end.

(** [data || ''] *)
Definition or_empty (data : option string) : string :=
  match data with Some d => d | None => EmptyString end.

(** [if (data) try JSON.parse(data) catch data], else [undefined]. *)
Definition parse_or_raw (data : option string) : value :=
  match data with
  | Some d =>
      if truthy d then
        match JSON_parse d with Some j => Parsed j | None => Str d end
      else Undefined
  | None => Undefined
  end.

(** The three ways a POST is classified, lines 110-132 of index.ts. *)
Inductive route :=
  | Reuse (t : option transport)
  | Create
  | BadRequest.

Definition classify (sessions : gmap string transport) (rq : request) : route :=
  if known sessions (sessionId rq) then
    Reuse (match sessionId rq with
           | Some k => transport_of (get sessions k)
           | None => None
           end)
  else if absent (sessionId rq) && is_initialize rq then Create
  else BadRequest.

End Handlers.

Arguments property : clear implicits.
Arguments value : clear implicits.
Arguments reply : clear implicits.
Arguments outcome : clear implicits.
Arguments world : clear implicits.
Arguments route : clear implicits.

End Http.

(** *** src/index.ts *)

Module IndexTs.
Import JS Http.

Definition corsHeaders : gmap string string :=
  {[ "Access-Control-Allow-Origin" := "*";
     "Access-Control-Allow-Methods" := "GET, POST, PUT, DELETE, OPTIONS";
     "Access-Control-Allow-Headers" := "Content-Type, mcp-session-id" ]}.

Section Variant.
Context {transport json : Type}.
Context (response_accepts : Z -> gmap string string -> bool).

Local Abbreviation reply := (reply json).
Local Abbreviation outcome := (outcome transport json).

(** The object [res] of lines 135-153 with the promise its [end]
    resolves, the registry and [transport.sessionId]. *)
Record driving := Driving {
  sessions : gmap string transport;
  sid : option string;
  statusCode : Z;
  _headers : gmap string string;
  future : promise reply
}.

(** [new Response(data || '', {status, headers})] of line 143; [None] when
    the constructor throws, which leaves the promise as it is. *)
Definition end_response (data : option string) (st : driving) : option reply :=
  if response_accepts (statusCode st)
       (_headers st ∪ corsHeaders ∪ {["Content-Type" := "application/json"]}) then
    Some {| status := statusCode st;
            headers := _headers st ∪ corsHeaders ∪ {["Content-Type" := "application/json"]};
            body := Str (or_empty data) |}
  else None.

(** Nothing is attached to the promise of [handleRequest] (line 155). *)
Definition step (t : transport) (st : driving) (e : event) : driving :=
  match e with
  | Do (SetHeader k v) =>
      {| sessions := sessions st; sid := sid st; statusCode := statusCode st;
         _headers := obj_set k v (_headers st); future := future st |}
  | Do (WriteHead s _) =>
      {| sessions := sessions st; sid := sid st; statusCode := s;
         _headers := _headers st; future := future st |}
  | Do (Write _) => st
  | Do (End data) =>
      match end_response data st with
      | Some r =>
          {| sessions := sessions st; sid := sid st; statusCode := statusCode st;
             _headers := _headers st; future := resolve r (future st) |}
      | None => st
      end
  | Do (Initialized id) =>
      {| sessions := on_initialized t id (sessions st); sid := Some id;
         statusCode := statusCode st; _headers := _headers st; future := future st |}
  | Do Closed =>
      {| sessions := on_close (sid st) (sessions st); sid := sid st;
         statusCode := statusCode st; _headers := _headers st; future := future st |}
  | Fulfil => st
  | Reject _ => st
  | Resume => st
  | Respond => st
  end.

Definition run (t : transport) (st : driving) (es : list event) : driving :=
  fold_left (step t) es st.

Definition start (sessions : gmap string transport) (sid : option string) : driving :=
  {| sessions := sessions; sid := sid; statusCode := 200; _headers := ∅;
     future := Pending |}.

(** Lines 133-156. *)
Definition drive (t : transport) (reg : gmap string transport)
    (sid : option string) (b : behaviour) : outcome :=
  let st := run t (start reg sid) (events b) in
  {| registry := sessions st; invoked := [(t, "POST")]; result := future st |}.

Definition bad_request : reply :=
  {| status := 400;
     headers := corsHeaders ∪ {["Content-Type" := "application/json"]};
     body := ErrorText (-32000) "Bad Request" |}.

Definition internal_error : reply :=
  {| status := 500;
     headers := corsHeaders ∪ {["Content-Type" := "application/json"]};
     body := ErrorText (-32603) "Internal Error" |}.

(** [app.post('/mcp')], lines 104-168. A method call on an [undefined]
    transport throws inside the executor of the promise, which rejects
    it. *)
Definition post (sessions : gmap string transport) (rq : request)
    (w : world transport) : outcome :=
  match classify sessions rq with
  | Reuse (Some t) => drive t sessions (sessionId rq) (conduct w)
  | Reuse None =>
      {| registry := sessions; invoked := []; result := Rejected TypeError |}
  | Create =>
      match connect_error w with
      | Some _ =>
          {| registry := sessions; invoked := []; result := Fulfilled internal_error |}
      | None => drive (fresh w) sessions None (conduct w)
      end
  | BadRequest =>
      {| registry := sessions; invoked := []; result := Fulfilled bad_request |}
  end.

(** [app.delete('/mcp')], lines 203-211. *)
Definition delete_ (sessions : gmap string transport) (sessionId : option string) : outcome :=
  {| registry :=
       if known sessions sessionId then
         match sessionId with
         | Some k => delete k sessions
         | None => sessions
         end
       else sessions;
     invoked := [];
     result := Fulfilled {| status := 200; headers := corsHeaders;
                            body := Str EmptyString |} |}.

(** [app.get('/mcp')], lines 170-201: the sink of the POST handler
    without the default content type. *)
Definition invalid_session : reply :=
  {| status := 400; headers := corsHeaders; body := Str "Invalid session" |}.

Definition end_response_get (data : option string) (st : driving) : option reply :=
  if response_accepts (statusCode st) (_headers st ∪ corsHeaders) then
    Some {| status := statusCode st;
            headers := _headers st ∪ corsHeaders;
            body := Str (or_empty data) |}
  else None.

Definition step_get (t : transport) (st : driving) (e : event) : driving :=
  match e with
  | Do (End data) =>
      match end_response_get data st with
      | Some r =>
          {| sessions := sessions st; sid := sid st; statusCode := statusCode st;
             _headers := _headers st; future := resolve r (future st) |}
      | None => st
      end
  | _ => step t st e
  end.

Definition get_mcp (reg : gmap string transport) (sessionId : option string)
    (b : behaviour) : outcome :=
  match sessionId with
  | Some k =>
      if truthy k && property_truthy (get reg k) then
        match transport_of (get reg k) with
        | Some t =>
            let st := fold_left (step_get t) (events b) (start reg (Some k)) in
            {| registry := sessions st; invoked := [(t, "GET")]; result := future st |}
        | None =>
            {| registry := reg; invoked := []; result := Rejected TypeError |}
        end
      else {| registry := reg; invoked := []; result := Fulfilled invalid_session |}
  | None => {| registry := reg; invoked := []; result := Fulfilled invalid_session |}
  end.

(** [sessions: Object.keys(sessions).length] of the health check, line
    216. *)
Definition health_sessions (reg : gmap string transport) : nat := size reg.

End Variant.
End IndexTs.

(** *** src/unnamed/part_001 *)

Module Part001.
Import JS Http.

Definition corsHeaders : gmap string string := IndexTs.corsHeaders.

Section Variant.
Context {transport json : Type}.
Context (response_accepts : Z -> gmap string string -> bool).

Local Abbreviation reply := (reply json).
Local Abbreviation outcome := (outcome transport json).

(** A [MockResponse] (lines 175-197) with the promise its [finish]
    listener resolves; [call] is the promise of [handleRequest]. *)
Record driving := Driving {
  sessions : gmap string transport;
  sid : option string;
  statusCode : Z;
  _headers : gmap string string;
  _data : option string;
  call : promise unit;
  future : promise reply
}.

Definition with_call (c : promise unit) (st : driving) : driving :=
  {| sessions := sessions st; sid := sid st; statusCode := statusCode st;
     _headers := _headers st; _data := _data st; call := c; future := future st |}.

Definition with_future (f : promise reply) (st : driving) : driving :=
  {| sessions := sessions st; sid := sid st; statusCode := statusCode st;
     _headers := _headers st; _data := _data st; call := call st; future := f |}.

Definition internal_error : reply :=
  {| status := 500;
     headers := corsHeaders ∪ {["Content-Type" := "application/json"]};
     body := ErrorText (-32603) "Internal Error" |}.

Definition bad_request : reply :=
  {| status := 400;
     headers := corsHeaders ∪ {["Content-Type" := "application/json"]};
     body := ErrorText (-32000) "Bad Request" |}.

(** The [finish] listener, lines 247-257. *)
Definition finish_response (st : driving) : option reply :=
  if response_accepts (statusCode st)
       (_headers st ∪ corsHeaders ∪ {["Content-Type" := "application/json"]}) then
    Some {| status := statusCode st;
            headers := _headers st ∪ corsHeaders ∪ {["Content-Type" := "application/json"]};
            body := Str (or_empty (_data st)) |}
  else None.

(** [on_error] is the reply of the [catch] callback, which is the only
    reaction attached to the promise of [handleRequest] (lines 259-269
    and 307-313); [finish] is the listener. *)
Definition step_with (finish : driving -> option reply) (on_error : reply)
    (t : transport) (st : driving) (e : event) : driving :=
  match e with
  | Do (SetHeader k v) =>
      {| sessions := sessions st; sid := sid st; statusCode := statusCode st;
         _headers := obj_set k v (_headers st); _data := _data st;
         call := call st; future := future st |}
  | Do (WriteHead s hs) =>
      {| sessions := sessions st; sid := sid st; statusCode := s;
         _headers := match hs with
                     | Some h => obj_assign (_headers st) h
                     | None => _headers st
                     end;
         _data := _data st; call := call st; future := future st |}
  | Do (Write _) => st
  | Do (End data) =>
      let st' :=
        {| sessions := sessions st; sid := sid st; statusCode := statusCode st;
           _headers := _headers st; _data := data;
           call := call st; future := future st |} in
      match finish st' with
      | Some r => with_future (resolve r (future st)) st'
      | None => st'
      end
  | Do (Initialized id) =>
      {| sessions := on_initialized t id (sessions st); sid := Some id;
         statusCode := statusCode st; _headers := _headers st; _data := _data st;
         call := call st; future := future st |}
  | Do Closed =>
      {| sessions := on_close (sid st) (sessions st); sid := sid st;
         statusCode := statusCode st; _headers := _headers st; _data := _data st;
         call := call st; future := future st |}
  | Fulfil | Reject _ => with_call (settle_call e (call st)) st
  | Resume =>
      match call st with
      | Rejected _ => with_future (resolve on_error (future st)) st
      | _ => st
      end
  | Respond => st
  end.

Definition step : transport -> driving -> event -> driving :=
  step_with finish_response internal_error.

Definition run (t : transport) (st : driving) (es : list event) : driving :=
  fold_left (step t) es st.

Definition start (reg : gmap string transport) (sid : option string) : driving :=
  {| sessions := reg; sid := sid; statusCode := 200; _headers := ∅;
     _data := None; call := Pending; future := Pending |}.

Definition drive (t : transport) (reg : gmap string transport)
    (sid : option string) (b : behaviour) : outcome :=
  let st := run t (start reg sid) (trace b) in
  {| registry := sessions st; invoked := [(t, "POST")]; result := future st |}.

(** [app.post('/mcp')], lines 204-282. *)
Definition post (reg : gmap string transport) (rq : request)
    (w : world transport) : outcome :=
  match classify reg rq with
  | Reuse (Some t) => drive t reg (sessionId rq) (conduct w)
  | Reuse None =>
      {| registry := reg; invoked := []; result := Rejected TypeError |}
  | Create =>
      match connect_error w with
      | Some _ =>
          {| registry := reg; invoked := []; result := Fulfilled internal_error |}
      | None => drive (fresh w) reg None (conduct w)
      end
  | BadRequest =>
      {| registry := reg; invoked := []; result := Fulfilled bad_request |}
  end.

(** [app.delete('/mcp')], lines 317-325: the text of index.ts. *)
Definition delete_ (reg : gmap string transport) (sessionId : option string) : outcome :=
  IndexTs.delete_ reg sessionId.

(** [app.get('/mcp')], lines 284-315. *)
Definition invalid_session : reply :=
  {| status := 400; headers := corsHeaders; body := Str "Invalid session" |}.

Definition internal_error_get : reply :=
  {| status := 500; headers := corsHeaders; body := Str "Internal Error" |}.

Definition finish_response_get (st : driving) : option reply :=
  if response_accepts (statusCode st) (_headers st ∪ corsHeaders) then
    Some {| status := statusCode st;
            headers := _headers st ∪ corsHeaders;
            body := Str (or_empty (_data st)) |}
  else None.

Definition step_get : transport -> driving -> event -> driving :=
  step_with finish_response_get internal_error_get.

Definition get_mcp (reg : gmap string transport) (sessionId : option string)
    (b : behaviour) : outcome :=
  match sessionId with
  | Some k =>
      if truthy k && property_truthy (get reg k) then
        match transport_of (get reg k) with
        | Some t =>
            let st := fold_left (step_get t) (trace b) (start reg (Some k)) in
            {| registry := sessions st; invoked := [(t, "GET")]; result := future st |}
        | None =>
            {| registry := reg; invoked := []; result := Rejected TypeError |}
        end
      else {| registry := reg; invoked := []; result := Fulfilled invalid_session |}
  | None => {| registry := reg; invoked := []; result := Fulfilled invalid_session |}
  end.

End Variant.
End Part001.

(** *** src/unnamed/part_000

    The function handed to [app.use] at lines 274-278 is called with the
    application when the server is set up, not with the context of a
    request: no reply gets a header from it, and [set.headers] of a
    request starts empty. *)

Module Part000.
Import JS Http.

Section Variant.
Context {transport json : Type}.
Context (JSON_parse : string -> option json).

Local Abbreviation reply := (reply json).
Local Abbreviation outcome := (outcome transport json).

(** The variables [responseData], [responseStatus] and [responseHeaders]
    the sink writes (lines 338-364), the promise of [handleRequest] that
    the handler awaits, and the promise of the handler. *)
Record driving := Driving {
  sessions : gmap string transport;
  sid : option string;
  responseData : option string;
  responseStatus : Z;
  responseHeaders : gmap string string;
  call : promise unit;
  handler : promise reply
}.

Definition with_call (c : promise unit) (st : driving) : driving :=
  {| sessions := sessions st; sid := sid st; responseData := responseData st;
     responseStatus := responseStatus st; responseHeaders := responseHeaders st;
     call := c; handler := handler st |}.

Definition with_handler (h : promise reply) (st : driving) : driving :=
  {| sessions := sessions st; sid := sid st; responseData := responseData st;
     responseStatus := responseStatus st; responseHeaders := responseHeaders st;
     call := call st; handler := h |}.

(** Lines 369-383: what the handler hands to the framework when it
    resumes behind the [await]; every entry of [responseHeaders] goes
    into the empty [set.headers]. *)
Definition relay (st : driving) : reply :=
  {| status := responseStatus st;
     headers := responseHeaders st;
     body := parse_or_raw JSON_parse (responseData st) |}.

Definition internal_error : reply :=
  {| status := 500;
     headers := {["Content-Type" := "application/json"]};
     body := ErrorText (-32603) "Internal server error" |}.

Definition bad_request : reply :=
  {| status := 400;
     headers := {["Content-Type" := "application/json"]};
     body := ErrorText (-32000) "Bad Request: No valid session ID provided" |}.

Definition invalid_session : reply :=
  {| status := 400; headers := ∅;
     body := Str "Invalid or missing session ID" |}.

(** [caught]: the [await] stands inside [try] (POST) or not (GET and
    DELETE). *)
Definition step (caught : bool) (t : transport) (st : driving) (e : event) : driving :=
  match e with
  | Do (SetHeader k v) =>
      {| sessions := sessions st; sid := sid st; responseData := responseData st;
         responseStatus := responseStatus st;
         responseHeaders := obj_set k v (responseHeaders st);
         call := call st; handler := handler st |}
  | Do (WriteHead s hs) =>
      {| sessions := sessions st; sid := sid st; responseData := responseData st;
         responseStatus := s;
         responseHeaders := match hs with
                            | Some h => obj_assign (responseHeaders st) h
                            | None => responseHeaders st
                            end;
         call := call st; handler := handler st |}
  | Do (Write _) => st
  | Do (End data) =>
      {| sessions := sessions st; sid := sid st; responseData := data;
         responseStatus := responseStatus st;
         responseHeaders := responseHeaders st;
         call := call st; handler := handler st |}
  | Do (Initialized id) =>
      {| sessions := on_initialized t id (sessions st); sid := Some id;
         responseData := responseData st; responseStatus := responseStatus st;
         responseHeaders := responseHeaders st;
         call := call st; handler := handler st |}
  | Do Closed =>
      {| sessions := on_close (sid st) (sessions st); sid := sid st;
         responseData := responseData st; responseStatus := responseStatus st;
         responseHeaders := responseHeaders st;
         call := call st; handler := handler st |}
  | Fulfil | Reject _ => with_call (settle_call e (call st)) st
  | Resume =>
      match call st with
      | Pending => st
      | Fulfilled _ => with_handler (resolve (relay st) (handler st)) st
      | Rejected err =>
          with_handler (if caught then resolve internal_error (handler st)
                        else reject err (handler st)) st
      end
  | Respond => st
  end.

Definition start (reg : gmap string transport) (sid : option string) : driving :=
  {| sessions := reg; sid := sid; responseData := None; responseStatus := 200;
     responseHeaders := ∅; call := Pending; handler := Pending |}.

Definition drive (caught : bool) (verb : string) (t : transport)
    (reg : gmap string transport) (sid : option string) (b : behaviour) : outcome :=
  let st := fold_left (step caught t) (trace b) (start reg sid) in
  {| registry := sessions st; invoked := [(t, verb)]; result := handler st |}.

(** [app.post('/mcp')], lines 288-397. *)
Definition post (reg : gmap string transport) (rq : request)
    (w : world transport) : outcome :=
  match classify reg rq with
  | Reuse (Some t) => drive true "POST" t reg (sessionId rq) (conduct w)
  | Reuse None =>
      {| registry := reg; invoked := []; result := Fulfilled internal_error |}
  | Create =>
      match connect_error w with
      | Some _ =>
          {| registry := reg; invoked := []; result := Fulfilled internal_error |}
      | None => drive true "POST" (fresh w) reg None (conduct w)
      end
  | BadRequest =>
      {| registry := reg; invoked := []; result := Fulfilled bad_request |}
  end.

(** [app.delete('/mcp')], lines 461-524. *)
Definition delete_ (reg : gmap string transport) (sessionId : option string)
    (b : behaviour) : outcome :=
  match sessionId with
  | Some k =>
      if truthy k && property_truthy (get reg k) then
        match transport_of (get reg k) with
        | Some t => drive false "DELETE" t (delete k reg) (Some k) b
        | None =>
            {| registry := delete k reg; invoked := []; result := Rejected TypeError |}
        end
      else {| registry := reg; invoked := []; result := Fulfilled invalid_session |}
  | None => {| registry := reg; invoked := []; result := Fulfilled invalid_session |}
  end.

(** [app.get('/mcp')], lines 399-459: the await stands outside any
    [try]. *)
Definition get_mcp (reg : gmap string transport) (sessionId : option string)
    (b : behaviour) : outcome :=
  match sessionId with
  | Some k =>
      if truthy k && property_truthy (get reg k) then
        match transport_of (get reg k) with
        | Some t => drive false "GET" t reg (Some k) b
        | None =>
            {| registry := reg; invoked := []; result := Rejected TypeError |}
        end
      else {| registry := reg; invoked := []; result := Fulfilled invalid_session |}
  | None => {| registry := reg; invoked := []; result := Fulfilled invalid_session |}
  end.

End Variant.
End Part000.

(** *** src/unnamed/part_002

    As in part_000, the function handed to [app.use] (lines 274-279) is
    not called for a request, and [set.headers] starts empty. *)

Module Part002.
Import JS Http.

Section Variant.
Context {transport json : Type}.
Context (JSON_parse : string -> option json).

Local Abbreviation reply := (reply json).
Local Abbreviation outcome := (outcome transport json).

(** The object [res] of lines 339-376, the context [set] of the framework
    that its [end] writes, the promise of [handleRequest], the promise of
    lines 378-395 and the reply the framework builds. *)
Record driving := Driving {
  sessions : gmap string transport;
  sid : option string;
  statusCode : Z;
  _headers : gmap string string;
  set_status : Z;
  set_headers : gmap string string;
  call : promise unit;
  future : promise (value json);
  answer : promise reply
}.

(** The [end] of the object literal, lines 360-375: it writes [set] and
    returns [finish data]. *)
Definition original_end (st : driving) : driving :=
  {| sessions := sessions st; sid := sid st; statusCode := statusCode st;
     _headers := _headers st;
     set_status := statusCode st;
     set_headers := _headers st ∪ set_headers st;
     call := call st; future := future st; answer := answer st |}.

Definition settle (f : promise (value json) -> promise (value json)) (st : driving) : driving :=
  {| sessions := sessions st; sid := sid st; statusCode := statusCode st;
     _headers := _headers st; set_status := set_status st;
     set_headers := set_headers st;
     call := call st; future := f (future st); answer := answer st |}.

Definition with_call (c : promise unit) (st : driving) : driving :=
  {| sessions := sessions st; sid := sid st; statusCode := statusCode st;
     _headers := _headers st; set_status := set_status st;
     set_headers := set_headers st;
     call := c; future := future st; answer := answer st |}.

Definition with_answer (a : promise reply) (st : driving) : driving :=
  {| sessions := sessions st; sid := sid st; statusCode := statusCode st;
     _headers := _headers st; set_status := set_status st;
     set_headers := set_headers st;
     call := call st; future := future st; answer := a |}.

(** [wrapped]: lines 389-394 have replaced [res.end]. *)
Definition act (finish : option string -> value json) (wrapped : bool)
    (t : transport) (st : driving) (a : action) : driving :=
  match a with
  | SetHeader k v =>
      {| sessions := sessions st; sid := sid st; statusCode := statusCode st;
         _headers := obj_set k v (_headers st); set_status := set_status st;
         set_headers := set_headers st;
         call := call st; future := future st; answer := answer st |}
  | WriteHead s hs =>
      {| sessions := sessions st; sid := sid st; statusCode := s;
         _headers := match hs with
                     | Some h => obj_assign (_headers st) h
                     | None => _headers st
                     end;
         set_status := set_status st; set_headers := set_headers st;
         call := call st; future := future st; answer := answer st |}
  | Write _ => st
  | End data =>
      if wrapped then settle (resolve (finish data)) (original_end st)
      else original_end st
  | Initialized id =>
      {| sessions := on_initialized t id (sessions st); sid := Some id;
         statusCode := statusCode st; _headers := _headers st;
         set_status := set_status st; set_headers := set_headers st;
         call := call st; future := future st; answer := answer st |}
  | Closed =>
      {| sessions := on_close (sid st) (sessions st); sid := sid st;
         statusCode := statusCode st; _headers := _headers st;
         set_status := set_status st; set_headers := set_headers st;
         call := call st; future := future st; answer := answer st |}
  end.

(** The reply the framework builds when it resumes: the value of the
    promise with the status and the headers that [set] holds then. *)
Definition respond (st : driving) : promise reply :=
  match future st with
  | Pending => answer st
  | Fulfilled v =>
      resolve {| status := set_status st; headers := set_headers st; body := v |}
        (answer st)
  | Rejected e => reject e (answer st)
  end.

(** After [handleRequest] has returned: the wrapper is in place and the
    [then] and [catch] callbacks of lines 380-387 are attached. *)
Definition step (finish : option string -> value json) (t : transport)
    (st : driving) (e : event) : driving :=
  match e with
  | Do a => act finish true t st a
  | Fulfil | Reject _ => with_call (settle_call e (call st)) st
  | Resume =>
      match call st with
      | Pending => st
      | Fulfilled _ => settle (resolve Undefined) st
      | Rejected err => settle (reject err) st
      end
  | Respond => with_answer (respond st) st
  end.

Definition start (reg : gmap string transport) (sid : option string) : driving :=
  {| sessions := reg; sid := sid; statusCode := 200; _headers := ∅;
     set_status := 200; set_headers := ∅;
     call := Pending; future := Pending; answer := Pending |}.

Definition run (finish : option string -> value json) (t : transport)
    (st : driving) (b : behaviour) : driving :=
  fold_left (step finish t) (later b ++ finally)
    (fold_left (act finish false t) (sync b) st).

Definition drive (finish : option string -> value json) (verb : string)
    (t : transport) (reg : gmap string transport) (sid : option string)
    (b : behaviour) : outcome :=
  let st := run finish t (start reg sid) b in
  {| registry := sessions st; invoked := [(t, verb)]; result := answer st |}.

Definition bad_request : reply :=
  {| status := 400; headers := ∅;
     body := ErrorObject (-32000) "Bad Request: No valid session ID provided" |}.

Definition internal_error : reply :=
  {| status := 500; headers := ∅;
     body := ErrorObject (-32603) "Internal server error" |}.

Definition invalid_session : reply :=
  {| status := 400; headers := ∅;
     body := Str "Invalid or missing session ID" |}.

(** [return data] of the GET and DELETE sinks, lines 454 and 514. *)
Definition as_given (data : option string) : value json :=
  match data with Some d => Str d | None => Undefined end.

(** [app.post('/mcp')], lines 288-408. *)
Definition post (reg : gmap string transport) (rq : request)
    (w : world transport) : outcome :=
  match classify reg rq with
  | Reuse (Some t) =>
      drive (parse_or_raw JSON_parse) "POST" t reg (sessionId rq) (conduct w)
  | Reuse None =>
      {| registry := reg; invoked := []; result := Rejected TypeError |}
  | Create =>
      match connect_error w with
      | Some _ =>
          {| registry := reg; invoked := []; result := Fulfilled internal_error |}
      | None => drive (parse_or_raw JSON_parse) "POST" (fresh w) reg None (conduct w)
      end
  | BadRequest =>
      {| registry := reg; invoked := []; result := Fulfilled bad_request |}
  end.

(** [app.delete('/mcp')], lines 470-528: the session stays in the
    registry. *)
Definition delete_ (reg : gmap string transport) (sessionId : option string)
    (b : behaviour) : outcome :=
  match sessionId with
  | Some k =>
      if truthy k && property_truthy (get reg k) then
        match transport_of (get reg k) with
        | Some t => drive as_given "DELETE" t reg (Some k) b
        | None =>
            {| registry := reg; invoked := []; result := Rejected TypeError |}
        end
      else {| registry := reg; invoked := []; result := Fulfilled invalid_session |}
  | None => {| registry := reg; invoked := []; result := Fulfilled invalid_session |}
  end.

(** [app.get('/mcp')], lines 410-468. *)
Definition get_mcp (reg : gmap string transport) (sessionId : option string)
    (b : behaviour) : outcome :=
  match sessionId with
  | Some k =>
      if truthy k && property_truthy (get reg k) then
        match transport_of (get reg k) with
        | Some t => drive as_given "GET" t reg (Some k) b
        | None =>
            {| registry := reg; invoked := []; result := Rejected TypeError |}
        end
      else {| registry := reg; invoked := []; result := Fulfilled invalid_session |}
  | None => {| registry := reg; invoked := []; result := Fulfilled invalid_session |}
  end.

End Variant.
End Part002.

(** *** The sentences about the handlers, as the specification words
    them, on the variants that differ *)

Module Stated.
Import JS Http.

Definition status_of {json : Type} (p : promise (reply json)) : option Z :=
  match p with
  | Fulfilled r => Some (status r)
  | _ => None
  end.

Definition is_end (e : event) : bool :=
  match e with Do (End _) => true | _ => false end.

Definition is_write_head (e : event) : bool :=
  match e with Do (WriteHead _ _) => true | _ => false end.

Definition is_initialized (k : string) (e : event) : bool :=
  match e with Do (Initialized id) => String.eqb id k | _ => false end.

Definition settles_call (e : event) : bool :=
  match e with Fulfil | Reject _ => true | _ => false end.

(** Every DELETE is answered with status 200 (on part_000). *)
Definition delete_always_200 : Prop :=
  forall (transport json : Type) (JSON_parse : string -> option json)
         (reg : gmap string transport) (sessionId : option string) (b : behaviour),
    status_of (result (Part000.delete_ JSON_parse reg sessionId b)) = Some 200%Z.

(** A DELETE naming a registered session removes it and answers without
    a call of [handleRequest] (on part_000). *)
Definition delete_not_forwarded : Prop :=
  forall (transport json : Type) (JSON_parse : string -> option json)
         (reg : gmap string transport) (k : string) (t : transport) (b : behaviour),
    reg !! k = Some t ->
    k <> EmptyString ->
    let o := Part000.delete_ JSON_parse reg (Some k) b in
    registry o !! k = None /\ invoked o = [].

(** Once the sink has been ended, nothing the transport does later shows
    in the reply (on part_002). *)
Definition first_completion_decides : Prop :=
  forall (transport json : Type) (JSON_parse : string -> option json)
         (t : transport) (reg : gmap string transport) (sid : option string)
         (pre post : list event) (d : option string),
    forallb (fun e => negb (is_end e)) pre = true ->
    let reply_of := fun later =>
      result (Part002.drive (parse_or_raw JSON_parse) "POST" t reg sid
                {| sync := []; later := later |}) in
    reply_of (pre ++ Do (End d) :: post) = reply_of (pre ++ [Do (End d)]).

End Stated.

(** *** Events by kind *)

Module Events.
Import JS Http.

Definition is_closed (e : event) : bool :=
  match e with Do Closed => true | _ => false end.

Definition initializes (e : event) : bool :=
  match e with Do (Initialized _) => true | _ => false end.

Definition is_resume (e : event) : bool :=
  match e with Resume => true | _ => false end.

Definition is_respond (e : event) : bool :=
  match e with Respond => true | _ => false end.

(** A call of one of the two callbacks of the handler. *)
Definition is_callback (e : event) : bool :=
  match e with Do (Initialized _) | Do Closed => true | _ => false end.

(** What the sink of part_000, part_001 and part_002 holds after the
    events [es]: the status of the last [writeHead] (200 at the start),
    the headers written by [setHeader] and [writeHead], and the data of
    the last [end]. *)
Definition sink_status (s : Z) (e : event) : Z :=
  match e with Do (WriteHead s' _) => s' | _ => s end.

Definition sink_headers (h : gmap string string) (e : event) : gmap string string :=
  match e with
  | Do (SetHeader k v) => obj_set k v h
  | Do (WriteHead _ (Some hs)) => obj_assign h hs
  | _ => h
  end.

Definition sink_data (d : option string) (e : event) : option string :=
  match e with Do (End d') => d' | _ => d end.

Definition written_status (es : list event) : Z := fold_left sink_status es 200%Z.

Definition written_headers (es : list event) : gmap string string :=
  fold_left sink_headers es ∅.

Definition ended_data (es : list event) : option string :=
  fold_left sink_data es None.

(** The promise of [handleRequest] after the events [es]. *)
Definition call_after (es : list event) : promise unit :=
  fold_left (fun c e => settle_call e c) es Pending.

(** The event with the second argument of [writeHead] left out. *)
Definition forget_head (e : event) : event :=
  match e with
  | Do (WriteHead s _) => Do (WriteHead s None)
  | _ => e
  end.

Definition forget_head_action (a : action) : action :=
  match a with
  | WriteHead s _ => WriteHead s None
  | _ => a
  end.

Definition forget_heads (b : behaviour) : behaviour :=
  {| sync := List.map forget_head_action (sync b);
     later := List.map forget_head (later b) |}.

(** What one event does to the registry and to [transport.sessionId]
    through the callbacks [onsessioninitialized] and [onclose]; every
    variant registers the same two callbacks. *)
Definition registry_step {transport : Type} (t : transport)
    (rs : gmap string transport * option string) (e : event)
    : gmap string transport * option string :=
  match e with
  | Do (Initialized id) => (on_initialized t id rs.1, Some id)
  | Do Closed => (on_close rs.2 rs.1, rs.2)
  | _ => rs
  end.

End Events.

(** ** Properties of the parser *)

Module CurlFacts.
Import JS Curl.

Lemma truthy_false (s : string) : truthy s = false <-> s = EmptyString.
Proof. destruct s; simpl; split; congruence. Qed.

Lemma truthy_true (s : string) : truthy s = true <-> s <> EmptyString.
Proof. destruct s; simpl; split; congruence. Qed.

(** Induction on a token list for functions that move the cursor by one
    or by two. *)
Lemma token_list_ind (P : list string -> Prop) :
  P [] ->
  (forall p rest, P rest -> (forall t rest', rest = t :: rest' -> P rest') -> P (p :: rest)) ->
  forall l, P l.
Proof.
  intros Hnil Hcons l.
  assert (H : P l /\ (forall t l', l = t :: l' -> P l')); [| tauto].
  induction l as [| a l [IH1 IH2]].
  - split; [exact Hnil | intros t l' Heq; discriminate].
  - split.
    + apply Hcons; assumption.
    + intros t l' Heq. injection Heq as -> ->. exact IH1.
Qed.

Lemma flags_not_curl (p : string) :
  consumes_next p = true -> String.eqb p "curl" = false.
Proof.
  unfold consumes_next, is_method_flag, is_header_flag, is_data_flag.
  destruct (String.eqb_spec p "curl") as [-> |]; [vm_compute; congruence | reflexivity].
Qed.

Lemma flags_start_with_dash (p : string) :
  consumes_next p = true -> startsWith_dash p = true.
Proof.
  unfold consumes_next, is_method_flag, is_header_flag, is_data_flag.
  intros H.
  repeat (apply orb_prop in H; destruct H as [H | H]);
    apply String.eqb_eq in H; subst; reflexivity.
Qed.

(** *** Strings *)

Lemma append_cons (c : ascii) (s t : string) :
  String c s +:+ t = String c (s +:+ t).
Proof. reflexivity. Qed.

Lemma append_nil_l (s : string) : EmptyString +:+ s = s.
Proof. reflexivity. Qed.

Lemma append_nil_r (s : string) : s +:+ EmptyString = s.
Proof. induction s as [| c s IH]; [reflexivity |]. rewrite append_cons, IH. reflexivity. Qed.

Lemma append_assoc (s t u : string) : (s +:+ t) +:+ u = s +:+ (t +:+ u).
Proof.
  induction s as [| c s IH]; [reflexivity |].
  rewrite !append_cons, IH. reflexivity.
Qed.

Lemma toUpperCase_truthy (t : string) : truthy (toUpperCase t) = truthy t.
Proof. destruct t; reflexivity. Qed.

Lemma has_quote_app (s t : string) :
  has_quote (s +:+ t) = has_quote s || has_quote t.
Proof.
  induction s as [| c s IH]; [reflexivity |].
  rewrite append_cons. simpl. rewrite IH. apply orb_assoc.
Qed.

Lemma has_quote_remove_quotes (s : string) : has_quote (remove_quotes s) = false.
Proof.
  induction s as [| c s IH]; [reflexivity |].
  simpl. destruct (is_quote c) eqn:Hc; [exact IH |].
  simpl. rewrite Hc, IH. reflexivity.
Qed.

Lemma has_quote_trimStart (s : string) :
  has_quote s = false -> has_quote (trimStart s) = false.
Proof.
  induction s as [| c s IH]; [reflexivity |].
  simpl. intros H. apply orb_false_elim in H as [Hc Hs].
  destruct (is_space c); [apply IH; exact Hs |].
  simpl. rewrite Hc, Hs. reflexivity.
Qed.

Lemma has_quote_trimEnd (s : string) :
  has_quote s = false -> has_quote (trimEnd s) = false.
Proof.
  induction s as [| c s IH]; [reflexivity |].
  simpl. intros H. apply orb_false_elim in H as [Hc Hs].
  destruct (is_space c && negb (truthy (trimEnd s))); [reflexivity |].
  simpl. rewrite Hc, (IH Hs). reflexivity.
Qed.

Lemma has_quote_trim (s : string) :
  has_quote s = false -> has_quote (trim s) = false.
Proof. intros H. apply has_quote_trimEnd, has_quote_trimStart, H. Qed.

(** [split] never returns an empty array. *)
Lemma split_on_from_cons (sep : ascii) (s cur : string) :
  exists p rest, split_on_from sep cur s = p :: rest.
Proof.
  revert cur. induction s as [| c s IH]; intros cur; simpl.
  - eauto.
  - destruct (Ascii.eqb c sep); [eauto | apply IH].
Qed.

(** [join] undoes [split]. *)
Lemma join_split_on_from (sep : ascii) (s cur : string) :
  join (String sep EmptyString) (split_on_from sep cur s) = cur +:+ s.
Proof.
  revert cur. induction s as [| c s IH]; intros cur; simpl.
  - rewrite append_nil_r. reflexivity.
  - destruct (Ascii.eqb_spec c sep) as [-> | Hne].
    + destruct (split_on_from_cons sep s EmptyString) as (p & rest & Heq).
      specialize (IH EmptyString). rewrite Heq in *. simpl.
      change (match rest with [] => p | _ :: _ => p +:+ String sep EmptyString +:+ join (String sep EmptyString) rest end)
        with (join (String sep EmptyString) (p :: rest)) in IH.
      simpl in IH. rewrite IH. reflexivity.
    + rewrite IH, append_assoc. reflexivity.
Qed.

(** Up to the first separator the input is the first piece. *)
Lemma split_on_from_prefix (k v cur : string) :
  has_colon k = false ->
  split_on_from ":" cur (k +:+ String ":" v) = (cur +:+ k) :: split_on ":" v.
Proof.
  revert cur. induction k as [| c k IH]; intros cur Hk.
  - rewrite append_nil_l, append_nil_r. reflexivity.
  - simpl in Hk. apply orb_false_elim in Hk as [Hc Hk].
    rewrite append_cons. simpl. rewrite Hc, (IH _ Hk), append_assoc. reflexivity.
Qed.

(** The pieces of a quote-free header are quote-free. *)
Lemma split_on_quote_free (header key : string) (valueParts : list string) :
  has_quote header = false ->
  split_on ":" header = key :: valueParts ->
  has_quote key = false /\ has_quote (join ":" valueParts) = false.
Proof.
  intros Hq Hsplit.
  pose proof (join_split_on_from ":" header EmptyString) as Hjoin.
  fold (split_on ":" header) in Hjoin. rewrite Hsplit, append_nil_l in Hjoin.
  destruct valueParts as [| v vs].
  - simpl in Hjoin. subst key. split; [exact Hq | reflexivity].
  - change (join ":" (key :: v :: vs)) with (key +:+ ":" +:+ join ":" (v :: vs)) in Hjoin.
    rewrite <- Hjoin in Hq. rewrite !has_quote_app in Hq.
    apply orb_false_elim in Hq as [Hk Hq]. apply orb_false_elim in Hq as [_ Hv].
    split; assumption.
Qed.

(** The pieces of the split at white space hold no white space, so
    [trim] finds nothing to do on them. *)
Lemma has_space_snoc (s : string) (c : ascii) :
  has_space (s +:+ String c EmptyString) = has_space s || is_space c.
Proof.
  induction s as [| a s IH].
  - rewrite append_nil_l. simpl. apply orb_false_r.
  - rewrite append_cons. simpl. rewrite IH. apply orb_assoc.
Qed.

Lemma split_ws_from_no_space (s cur : string) (in_run : bool) :
  has_space cur = false ->
  Forall (fun t => has_space t = false) (split_ws_from cur in_run s).
Proof.
  revert cur in_run. induction s as [| c s IH]; intros cur in_run Hcur; simpl.
  - repeat constructor. exact Hcur.
  - destruct (is_space c) eqn:Hc.
    + destruct in_run; [apply IH; exact Hcur |].
      constructor; [exact Hcur | apply IH; reflexivity].
    + apply IH. rewrite has_space_snoc, Hcur, Hc. reflexivity.
Qed.

Lemma split_ws_no_space (s : string) :
  Forall (fun t => has_space t = false) (split_ws s).
Proof. apply split_ws_from_no_space. reflexivity. Qed.

Lemma trimEnd_no_space (s : string) : has_space s = false -> trimEnd s = s.
Proof.
  induction s as [| c s IH]; [reflexivity |].
  simpl. intros H. apply orb_false_elim in H as [Hc Hs].
  rewrite Hc, (IH Hs). reflexivity.
Qed.

Lemma trim_no_space (s : string) : has_space s = false -> trim s = s.
Proof.
  intros H. unfold trim.
  assert (Hstart : trimStart s = s).
  { destruct s as [| c s]; [reflexivity |].
    simpl in *. apply orb_false_elim in H as [-> _]. reflexivity. }
  rewrite Hstart. apply trimEnd_no_space, H.
Qed.

Lemma first_truthy_none (l : list string) :
  Forall (fun c => remove_quotes c = EmptyString) l ->
  first_truthy (List.map remove_quotes l) = EmptyString.
Proof.
  induction 1 as [| c l Hc _ IH]; [reflexivity |].
  simpl. rewrite Hc. exact IH.
Qed.

Section WithJson.
Context {json : Type} (JSON_parse : string -> option json).

Local Abbreviation walk := (walk JSON_parse).
Local Abbreviation parseCurlCommand := (parseCurlCommand JSON_parse).
Local Abbreviation descriptor := (descriptor json).

(** A walk over an aligned prefix ends where the walk over the rest
    starts. *)
Lemma walk_app (pre l : list string) :
  aligned pre = true ->
  forall st : descriptor, walk st (pre ++ l) = walk (walk st pre) l.
Proof.
  induction pre as [| p rest IH1 IH2] using token_list_ind; intros Hal st.
  - reflexivity.
  - simpl in Hal. simpl.
    destruct (String.eqb p "curl"); [apply IH1; exact Hal |].
    unfold consumes_next in Hal.
    destruct (is_method_flag p); simpl in Hal.
    { destruct rest as [| t rest']; [discriminate |]. simpl. apply (IH2 t rest' eq_refl Hal). }
    destruct (is_header_flag p); simpl in Hal.
    { destruct rest as [| t rest']; [discriminate |]. simpl. apply (IH2 t rest' eq_refl Hal). }
    destruct (is_data_flag p); simpl in Hal.
    { destruct rest as [| t rest']; [discriminate |]. simpl. apply (IH2 t rest' eq_refl Hal). }
    apply IH1; exact Hal.
Qed.

(** The URL slot is filled by the first candidate that is not empty once
    its quotes are gone, and never changes afterwards. *)
Lemma walk_url (parts : list string) :
  forall st : descriptor,
    url (walk st parts) =
      if truthy (url st) then url st
      else first_truthy (List.map remove_quotes (url_candidates parts)).
Proof.
  induction parts as [| p rest IH1 IH2] using token_list_ind; intros st.
  - simpl. destruct (url st); reflexivity.
  - simpl. destruct (String.eqb p "curl"); [apply IH1 |].
    unfold consumes_next.
    destruct (is_method_flag p) eqn:Hm; simpl.
    { destruct rest as [| t rest']; simpl; [destruct (url st); reflexivity |].
      rewrite (IH2 t rest' eq_refl). reflexivity. }
    destruct (is_header_flag p) eqn:Hh; simpl.
    { destruct rest as [| t rest']; simpl; [destruct (url st); reflexivity |].
      rewrite (IH2 t rest' eq_refl). reflexivity. }
    destruct (is_data_flag p) eqn:Hd; simpl.
    { destruct rest as [| t rest']; simpl; [destruct (url st); reflexivity |].
      rewrite (IH2 t rest' eq_refl). reflexivity. }
    rewrite IH1. unfold set_url.
    destruct (startsWith_dash p); simpl; [reflexivity |].
    destruct (truthy (url st)) eqn:Hu; simpl; [rewrite Hu; reflexivity |].
    destruct (truthy (remove_quotes p)); reflexivity.
Qed.

(** The parser throws exactly when no candidate fills the slot, whatever
    the other tokens are and whatever [JSON.parse] does. *)
Lemma parse_fails_iff (cmd : string) :
  (exists e, parseCurlCommand cmd = inl e) <->
  first_truthy (List.map remove_quotes (url_candidates (split_ws cmd))) = EmptyString.
Proof.
  unfold Curl.parseCurlCommand. rewrite walk_url. simpl.
  destruct (truthy (first_truthy _)) eqn:Ht; simpl.
  - split; [intros [e He]; discriminate |].
    intros Heq. rewrite Heq in Ht. discriminate.
  - split; [intros _; apply truthy_false; exact Ht | intros _; eexists; reflexivity].
Qed.

(** Tokens without a method flag leave the method as it is; the same
    for the data flags and the body, the header flags and the headers.
    [flag_case] closes the branch of a flag that writes another field,
    [url_case] the branch of the URL slot. *)
Ltac flag_case IH2 rest Hrest :=
  let t := fresh "t" in
  let rest' := fresh "rest'" in
  destruct rest as [| t rest']; [reflexivity |];
  apply Forall_cons in Hrest as [_ Hrest];
  rewrite (IH2 t rest' eq_refl Hrest); reflexivity.

Ltac url_case IH1 Hrest :=
  rewrite (IH1 Hrest); unfold set_url;
  match goal with
  | |- context [if ?b then _ else _] => destruct b; reflexivity
  end.

Lemma walk_method_unchanged (parts : list string) :
  Forall (fun p => is_method_flag p = false) parts ->
  forall st : descriptor, method (walk st parts) = method st.
Proof.
  induction parts as [| p rest IH1 IH2] using token_list_ind; intros Hall st.
  - reflexivity.
  - apply Forall_cons in Hall as [Hp Hrest]. simpl. rewrite Hp.
    destruct (String.eqb p "curl"); [apply IH1; exact Hrest |].
    destruct (is_header_flag p).
    { flag_case IH2 rest Hrest. }
    destruct (is_data_flag p).
    { flag_case IH2 rest Hrest. }
    url_case IH1 Hrest.
Qed.

Lemma walk_body_unchanged (parts : list string) :
  Forall (fun p => is_data_flag p = false) parts ->
  forall st : descriptor, body (walk st parts) = body st.
Proof.
  induction parts as [| p rest IH1 IH2] using token_list_ind; intros Hall st.
  - reflexivity.
  - apply Forall_cons in Hall as [Hp Hrest]. simpl. rewrite Hp.
    destruct (String.eqb p "curl"); [apply IH1; exact Hrest |].
    destruct (is_method_flag p).
    { flag_case IH2 rest Hrest. }
    destruct (is_header_flag p).
    { flag_case IH2 rest Hrest. }
    url_case IH1 Hrest.
Qed.

Lemma walk_headers_unchanged (parts : list string) :
  Forall (fun p => is_header_flag p = false) parts ->
  forall st : descriptor, headers (walk st parts) = headers st.
Proof.
  induction parts as [| p rest IH1 IH2] using token_list_ind; intros Hall st.
  - reflexivity.
  - apply Forall_cons in Hall as [Hp Hrest]. simpl. rewrite Hp.
    destruct (String.eqb p "curl"); [apply IH1; exact Hrest |].
    destruct (is_method_flag p).
    { flag_case IH2 rest Hrest. }
    destruct (is_data_flag p).
    { flag_case IH2 rest Hrest. }
    url_case IH1 Hrest.
Qed.

(** One step of the walk at each of the three flags. *)
Lemma walk_method_flag (f t : string) (rest : list string) (st : descriptor) :
  is_method_flag f = true ->
  walk st (f :: t :: rest) = walk (with_method (method_of (Some t)) st) rest.
Proof.
  intros Hf. simpl. rewrite Hf.
  rewrite flags_not_curl; [reflexivity |].
  unfold consumes_next. rewrite Hf. reflexivity.
Qed.

Lemma walk_method_flag_last (f : string) (st : descriptor) :
  is_method_flag f = true ->
  walk st [f] = with_method "GET" st.
Proof.
  intros Hf. simpl. rewrite Hf.
  rewrite flags_not_curl; [reflexivity |].
  unfold consumes_next. rewrite Hf. reflexivity.
Qed.

Lemma header_flag_only (f : string) :
  is_header_flag f = true ->
  String.eqb f "curl" = false /\ is_method_flag f = false.
Proof.
  unfold is_header_flag, is_method_flag. intros H.
  apply orb_prop in H as [H | H]; apply String.eqb_eq in H; subst; split; reflexivity.
Qed.

Lemma data_flag_only (f : string) :
  is_data_flag f = true ->
  String.eqb f "curl" = false /\ is_method_flag f = false /\ is_header_flag f = false.
Proof.
  unfold is_data_flag, is_header_flag, is_method_flag. intros H.
  apply orb_prop in H as [H | H]; apply String.eqb_eq in H; subst; repeat split; reflexivity.
Qed.

Lemma walk_header_flag (f t : string) (rest : list string) (st : descriptor) :
  is_header_flag f = true ->
  walk st (f :: t :: rest) =
    walk (with_headers (add_header (Some t) (headers st)) st) rest.
Proof.
  intros Hf. destruct (header_flag_only f Hf) as [Hc Hm].
  simpl. rewrite Hc, Hm, Hf. reflexivity.
Qed.

Lemma walk_data_flag (f t : string) (rest : list string) (st : descriptor) :
  is_data_flag f = true ->
  walk st (f :: t :: rest) =
    walk (with_body (set_body JSON_parse (Some t) (body st)) st) rest.
Proof.
  intros Hf. destruct (data_flag_only f Hf) as (Hc & Hm & Hh).
  simpl. rewrite Hc, Hm, Hh, Hf. reflexivity.
Qed.

(** *** The quote-free invariant of the walk *)

Lemma quote_free_init : quote_free (init (json := json)).
Proof. split; [reflexivity |]. intros k v H. simpl in H. rewrite lookup_empty in H. discriminate. Qed.

Lemma add_header_quote_free (next : option string) (hs : gmap string string) :
  (forall k v, hs !! k = Some v -> has_quote k = false /\ has_quote v = false) ->
  forall k v, add_header next hs !! k = Some v ->
              has_quote k = false /\ has_quote v = false.
Proof.
  intros Hhs k v. unfold add_header.
  destruct next as [t |]; [| apply Hhs].
  destruct (truthy (remove_quotes t)); [| apply Hhs].
  destruct (split_on ":" (remove_quotes t)) as [| key valueParts] eqn:Hsplit; [apply Hhs |].
  destruct (truthy key && (0 <? List.length valueParts)%nat); [| apply Hhs].
  destruct (split_on_quote_free _ _ _ (has_quote_remove_quotes t) Hsplit) as [Hk Hv].
  unfold obj_set. case_decide; [apply Hhs |].
  rewrite lookup_insert. case_decide as Heq.
  - intros [= <-]. subst k. split; apply has_quote_trim; assumption.
  - apply Hhs.
Qed.

Lemma walk_quote_free (parts : list string) :
  forall st : descriptor, quote_free st -> quote_free (walk st parts).
Proof.
  induction parts as [| p rest IH1 IH2] using token_list_ind; intros st Hst.
  - exact Hst.
  - simpl. destruct (String.eqb p "curl"); [apply IH1; exact Hst |].
    destruct (is_method_flag p).
    { destruct rest as [| t rest']; [exact Hst | apply (IH2 t rest' eq_refl); exact Hst]. }
    destruct (is_header_flag p).
    { assert (Hadd : forall next, quote_free (with_headers (add_header next (headers st)) st)).
      { intros next. split; [apply Hst |]. apply add_header_quote_free, Hst. }
      destruct rest as [| t rest']; [apply (Hadd None) | apply (IH2 t rest' eq_refl), (Hadd (Some t))]. }
    destruct (is_data_flag p).
    { destruct rest as [| t rest']; [exact Hst | apply (IH2 t rest' eq_refl); exact Hst]. }
    apply IH1. unfold set_url.
    destruct (negb (startsWith_dash p) && negb (truthy (url st))); [| exact Hst].
    split; [apply has_quote_remove_quotes | apply Hst].
Qed.

Lemma parse_inr (cmd : string) (d : descriptor) :
  parseCurlCommand cmd = inr d -> d = walk init (split_ws cmd).
Proof.
  unfold Curl.parseCurlCommand.
  destruct (negb (truthy (url _))); [discriminate | intros [= <-]; reflexivity].
Qed.

End WithJson.

(** ** The claims about the parser *)

(** C1 (the code at the input of the claim). On the round-trip command the
    parser returns a descriptor whose [Content-Type] header is the empty
    string: the split at white space cuts the quoted header in two, the
    first half ends at the colon and the second half is dropped, the URL
    slot being filled already. Method, URL and body are the promised
    ones, so the descriptor is not the promised one, whatever
    [JSON.parse] returns. *)
Theorem example_command_loses_header_value :
  forall (json : Type) (JSON_parse : string -> option json),
    parseCurlCommand JSON_parse example_command =
      inr {| url := "https://example.test/x"; method := "POST";
             headers := {["Content-Type" := EmptyString]};
             body := match JSON_parse example_data with
                     | Some v => BodyJson v
                     | None => BodyRaw example_data
                     end |}
    /\ forall v : json,
         parseCurlCommand JSON_parse example_command <> inr (promised_descriptor v).
Proof.
  intros json JSON_parse.
  assert (Heq : parseCurlCommand JSON_parse example_command =
      inr {| url := "https://example.test/x"; method := "POST";
             headers := {["Content-Type" := EmptyString]};
             body := match JSON_parse example_data with
                     | Some v => BodyJson v
                     | None => BodyRaw example_data
                     end |}) by (vm_compute; reflexivity).
  split; [exact Heq |].
  intros v Hv. rewrite Heq in Hv.
  apply (f_equal (fun r : string + descriptor json =>
                    match r with
                    | inr d => headers d !! "Content-Type"
                    | inl _ => None
                    end)) in Hv.
  cbn [headers promised_descriptor] in Hv.
  rewrite !lookup_singleton_eq in Hv. discriminate.
Qed.

(** C7. A command within ASCII whose walk never fills the URL slot (every
    token is the command name, a flag, the token a flag reads, or a piece
    with nothing but quotes in it, such as the empty piece behind a
    trailing space) makes [parseCurlCommand] throw; the error is the one
    the specification calls [MalformedCommand], its message in the code
    is [No URL found in CURL command]. *)
Theorem parse_without_url_candidate_fails :
  forall (json : Type) (JSON_parse : string -> option json) (cmd : string),
    ascii_only cmd = true ->
    Forall (fun c => remove_quotes c = EmptyString) (url_candidates (split_ws cmd)) ->
    parseCurlCommand JSON_parse cmd = inl "No URL found in CURL command".
Proof.
  intros json JSON_parse cmd _ Hnone.
  unfold parseCurlCommand. rewrite walk_url. simpl.
  rewrite (first_truthy_none _ Hnone). reflexivity.
Qed.

Lemma parse_without_url_candidate_fails_witness :
  ascii_only "curl -X POST -H 'Accept:text/plain' --verbose " = true
  /\ url_candidates (split_ws "curl -X POST -H 'Accept:text/plain' --verbose ") = [EmptyString]
  /\ parseCurlCommand (fun _ : string => @None unit)
       "curl -X POST -H 'Accept:text/plain' --verbose "
     = inl "No URL found in CURL command".
Proof.
  split; [reflexivity |]. split; [reflexivity |].
  apply parse_without_url_candidate_fails; [reflexivity | repeat constructor].
Defined.

(** C8 (as stated it fails). The token [''] behind a data flag is empty
    once its wrapping quotes are stripped; the guard of line 257 then
    skips [JSON.parse] and the assignment, and the body stays
    [undefined] instead of becoming the stripped (empty) string. *)
Lemma empty_data_token_leaves_body_undefined : ~ data_kept_as_stated.
Proof.
  intros H.
  specialize (H unit (fun _ => None) "curl http://h/x -d ''"
                ["curl"; "http://h/x"] [] "-d" "''").
  discriminate H; first [reflexivity | constructor].
Qed.

(** C8 (amended). In a command within ASCII, at every data flag that the
    cursor visits and that has a token behind it, one wrapping quote is
    stripped at each end of the token; a stripped string that is not
    empty becomes the body, as the JSON value when [JSON.parse] accepts
    it and as the stripped string itself when it does not; an empty
    stripped string leaves the body as it was before the flag. When no
    later token is a data flag, the body set there is the body of the
    descriptor. The parser throws only for a missing URL, whatever the
    data tokens are and whatever [JSON.parse] does. *)
Theorem data_flag_body :
  forall (json : Type) (JSON_parse : string -> option json)
         (cmd : string) (pre post : list string) (f t : string),
    ascii_only cmd = true ->
    split_ws cmd = pre ++ f :: t :: post ->
    aligned pre = true ->
    is_data_flag f = true ->
    let stripped := strip_wrapping_quotes t in
    let before := body (walk JSON_parse init pre) in
    let after := body (walk JSON_parse init (pre ++ [f; t])) in
    after = (if truthy stripped then
               match JSON_parse stripped with
               | Some v => BodyJson v
               | None => BodyRaw stripped
               end
             else before)
    /\ (Forall (fun p => is_data_flag p = false) post ->
        body (walk JSON_parse init (split_ws cmd)) = after)
    /\ ((exists e, parseCurlCommand JSON_parse cmd = inl e) <->
        first_truthy (List.map remove_quotes (url_candidates (split_ws cmd)))
        = EmptyString)
    /\ (forall e, parseCurlCommand JSON_parse cmd = inl e ->
                  e = "No URL found in CURL command").
Proof.
  intros json JSON_parse cmd pre post f t _ Hsplit Hpre Hf stripped before after.
  assert (Hafter : after = set_body JSON_parse (Some t) before).
  { subst after before. rewrite walk_app by exact Hpre.
    rewrite walk_data_flag by exact Hf. reflexivity. }
  split; [| split; [| split]].
  - rewrite Hafter. unfold set_body. fold stripped.
    destruct (truthy stripped); reflexivity.
  - intros Hpost. rewrite Hafter. subst before.
    rewrite Hsplit, walk_app by exact Hpre.
    rewrite walk_data_flag by exact Hf.
    rewrite walk_body_unchanged by exact Hpost. reflexivity.
  - apply parse_fails_iff.
  - intros e. unfold parseCurlCommand.
    destruct (negb (truthy (url _))); [intros [= <-]; reflexivity | discriminate].
Qed.

Lemma data_flag_body_witness :
  let cmd := "curl -d {} -X POST http://h/x -d 'a=1'" in
  let JSON_parse := fun s : string => if String.eqb s "{}" then Some tt else None in
  ascii_only cmd = true
  /\ body (walk JSON_parse init ["curl"; "-d"; "{}"]) = BodyJson tt
  /\ body (walk JSON_parse init (split_ws cmd)) = BodyRaw "a=1"
  /\ ~ (exists e, parseCurlCommand JSON_parse cmd = inl e).
Proof.
  intros cmd JSON_parse.
  destruct (data_flag_body unit JSON_parse cmd
              ["curl"] ["-X"; "POST"; "http://h/x"; "-d"; "'a=1'"] "-d" "{}")
    as (Hfirst & _); [reflexivity | reflexivity | reflexivity | reflexivity |].
  destruct (data_flag_body unit JSON_parse cmd
              ["curl"; "-d"; "{}"; "-X"; "POST"; "http://h/x"] [] "-d" "'a=1'")
    as (Hlast & Hbody & Hfail & _); [reflexivity | reflexivity | reflexivity | reflexivity |].
  split; [reflexivity |]. split; [exact Hfirst |]. split.
  - rewrite Hbody by constructor. exact Hlast.
  - intros He. apply Hfail in He. discriminate He.
Defined.

(** C9. In a parsed command within ASCII the method is the upper-cased
    token behind the last method flag; it is [GET] when no token is a method flag and
    when the method flag is the last token (nothing, or only the empty
    piece of a trailing space, behind it). A flag counts where the cursor
    visits it (the tokens before it are [aligned]) and a token is a piece
    that is not empty. *)
Theorem parsed_method :
  forall (json : Type) (JSON_parse : string -> option json)
         (cmd : string) (d : descriptor json),
    ascii_only cmd = true ->
    parseCurlCommand JSON_parse cmd = inr d ->
    (forall pre f t post,
        split_ws cmd = pre ++ f :: t :: post ->
        aligned pre = true ->
        is_method_flag f = true ->
        t <> EmptyString ->
        Forall (fun p => is_method_flag p = false) post ->
        method d = toUpperCase t)
    /\ (Forall (fun p => is_method_flag p = false) (split_ws cmd) ->
        method d = "GET")
    /\ (forall pre f,
          split_ws cmd = pre ++ [f] \/ split_ws cmd = pre ++ [f; EmptyString] ->
          aligned pre = true ->
          is_method_flag f = true ->
          method d = "GET").
Proof.
  intros json JSON_parse cmd d _ Hd. apply parse_inr in Hd. subst d.
  split; [| split].
  - intros pre f t post Hsplit Hpre Hf Ht Hpost.
    rewrite Hsplit, walk_app by exact Hpre.
    rewrite walk_method_flag by exact Hf.
    rewrite walk_method_unchanged by exact Hpost.
    simpl. rewrite toUpperCase_truthy.
    apply truthy_true in Ht. rewrite Ht. reflexivity.
  - intros Hnone. rewrite walk_method_unchanged by exact Hnone. reflexivity.
  - intros pre f [Hsplit | Hsplit] Hpre Hf; rewrite Hsplit, walk_app by exact Hpre.
    + rewrite walk_method_flag_last by exact Hf. reflexivity.
    + rewrite walk_method_flag by exact Hf. reflexivity.
Qed.

Lemma parsed_method_witness :
  let cmd := "curl -H 'Accept:text/plain' --request delete http://h/x -v" in
  let JSON_parse := fun _ : string => @None unit in
  ascii_only cmd = true
  /\ parseCurlCommand JSON_parse cmd =
    inr {| url := "http://h/x"; method := "DELETE";
           headers := {["Accept" := "text/plain"]}; body := BodyUndefined |}
  /\ toUpperCase "delete" = "DELETE".
Proof.
  intros cmd JSON_parse. split; [reflexivity |].
  assert (Hd : parseCurlCommand JSON_parse cmd =
    inr {| url := "http://h/x"; method := "DELETE";
           headers := {["Accept" := "text/plain"]}; body := BodyUndefined |})
    by (vm_compute; reflexivity).
  split; [exact Hd |].
  destruct (parsed_method unit JSON_parse cmd _ eq_refl Hd) as (Hflag & _ & _).
  symmetry.
  apply (Hflag ["curl"; "-H"; "'Accept:text/plain'"] "--request" "delete" ["http://h/x"; "-v"]);
    [reflexivity | reflexivity | reflexivity | discriminate | repeat constructor].
Defined.

(** The three cases of C9 on concrete commands. *)
Example method_cases :
  let m := fun cmd =>
    match parseCurlCommand (fun _ : string => @None unit) cmd with
    | inr d => Some (method d)
    | inl _ => None
    end in
  m "curl -X post http://h/x" = Some "POST"
  /\ m "curl http://h/x -H 'A:b'" = Some "GET"
  /\ m "curl -X PUT http://h/x --request" = Some "GET"
  /\ m "curl -X PUT http://h/x -X " = Some "GET".
Proof. vm_compute. repeat split. Qed.

(** C10. In a command within ASCII every single and double quote of the
    URL token and of a header token is removed, wherever it stands: no quote is left in the URL, in
    a header name or in a header value of a parsed descriptor; the URL is
    the first candidate with all its quotes removed; and a header token
    that reads [k:v] once all its quotes are removed enters the mapping
    as [trim k] and [trim v]. *)
Theorem quotes_removed_everywhere :
  forall (json : Type) (JSON_parse : string -> option json)
         (cmd : string) (d : descriptor json),
    ascii_only cmd = true ->
    parseCurlCommand JSON_parse cmd = inr d ->
    (has_quote (url d) = false /\
     forall k v, headers d !! k = Some v ->
                 has_quote k = false /\ has_quote v = false)
    /\ (forall pre t post,
          split_ws cmd = pre ++ t :: post ->
          aligned pre = true ->
          url (walk JSON_parse init pre) = EmptyString ->
          t <> "curl" ->
          startsWith_dash t = false ->
          remove_quotes t <> EmptyString ->
          url d = remove_quotes t)
    /\ (forall pre f h post k v,
          split_ws cmd = pre ++ f :: h :: post ->
          aligned pre = true ->
          is_header_flag f = true ->
          Forall (fun p => is_header_flag p = false) post ->
          remove_quotes h = k +:+ String ":" v ->
          has_colon k = false ->
          k <> EmptyString ->
          trim k <> "__proto__" ->
          headers d !! trim k = Some (trim v)).
Proof.
  intros json JSON_parse cmd d _ Hd. apply parse_inr in Hd. subst d.
  split; [| split].
  - apply walk_quote_free, quote_free_init.
  - intros pre t post Hsplit Hpre Hurl Hcurl Hdash Ht.
    rewrite Hsplit, walk_app by exact Hpre.
    rewrite walk_url, Hurl. simpl.
    apply String.eqb_neq in Hcurl. rewrite Hcurl.
    destruct (consumes_next t) eqn:Hflag.
    { apply flags_start_with_dash in Hflag. congruence. }
    rewrite Hdash. simpl.
    apply truthy_true in Ht. rewrite Ht. reflexivity.
  - intros pre f h post k v Hsplit Hpre Hf Hpost Hh Hk Hk0 Hproto.
    rewrite Hsplit, walk_app by exact Hpre.
    rewrite walk_header_flag by exact Hf.
    rewrite walk_headers_unchanged by exact Hpost.
    cbn [headers with_headers]. unfold add_header. rewrite Hh.
    assert (Hnonempty : truthy (k +:+ String ":" v) = true).
    { destruct k; [congruence | reflexivity]. }
    rewrite Hnonempty. unfold split_on.
    rewrite split_on_from_prefix, append_nil_l by exact Hk.
    apply truthy_true in Hk0. rewrite Hk0.
    destruct (split_on_from_cons ":" v EmptyString) as (p0 & rest0 & Hv).
    pose proof (join_split_on_from ":" v EmptyString) as Hjoin.
    unfold split_on. rewrite Hv in *. simpl.
    rewrite append_nil_l in Hjoin.
    change (match rest0 with
            | [] => p0
            | _ :: _ => p0 +:+ ":" +:+ join ":" rest0
            end) with (join ":" (p0 :: rest0)).
    rewrite Hjoin. unfold obj_set. rewrite decide_False by exact Hproto.
    apply lookup_insert_eq.
Qed.

Lemma quotes_removed_everywhere_witness :
  let cmd := String.append "curl 'http://h/it's' -H X-Tag:a" (String dquote "b") in
  let JSON_parse := fun _ : string => @None unit in
  ascii_only cmd = true
  /\ parseCurlCommand JSON_parse cmd =
    inr {| url := "http://h/its"; method := "GET";
           headers := {["X-Tag" := "ab"]}; body := BodyUndefined |}
  /\ has_quote "http://h/its" = false.
Proof.
  intros cmd JSON_parse. split; [reflexivity |].
  assert (Hd : parseCurlCommand JSON_parse cmd =
    inr {| url := "http://h/its"; method := "GET";
           headers := {["X-Tag" := "ab"]}; body := BodyUndefined |})
    by (vm_compute; reflexivity).
  split; [exact Hd |].
  destruct (quotes_removed_everywhere unit JSON_parse cmd _ eq_refl Hd) as ((Hurl & _) & _ & _).
  exact Hurl.
Defined.

End CurlFacts.

(** ** Properties of the handlers *)

Module HttpFacts.
Import JS Http Stated Events.

Lemma resolve_settled {A : Type} (a : A) (p : promise A) :
  settled (resolve a p) = true.
Proof. destruct p; reflexivity. Qed.

Lemma reject_settled {A : Type} (e : string) (p : promise A) :
  settled (reject e p) = true.
Proof. destruct p; reflexivity. Qed.

Lemma resolve_stable {A : Type} (a : A) (p : promise A) :
  settled p = true -> resolve a p = p.
Proof. destruct p; [discriminate | reflexivity..]. Qed.

Lemma reject_stable {A : Type} (e : string) (p : promise A) :
  settled p = true -> reject e p = p.
Proof. destruct p; [discriminate | reflexivity..]. Qed.

(** Classification: a header that is absent, empty, or names neither an
    entry of the registry nor a property of [Object.prototype], on a body
    that is not an initialization request, is a bad request. *)
Lemma classify_bad_request {transport : Type}
    (reg : gmap string transport) (rq : request) :
  is_initialize rq = false ->
  match sessionId rq with
  | Some k => reg !! k = None /\ k ∉ object_prototype_keys
  | None => True
  end ->
  classify reg rq = BadRequest.
Proof.
  intros Hinit Hid. unfold classify, known.
  destruct (sessionId rq) as [k |]; simpl.
  - destruct Hid as [Hk Hproto]. unfold get. rewrite Hk.
    rewrite bool_decide_eq_false_2 by exact Hproto. simpl.
    rewrite andb_false_r, Hinit, andb_false_r. reflexivity.
  - rewrite Hinit. reflexivity.
Qed.

(** A name inherited from [Object.prototype] passes the test of line 110
    and gives no transport. *)
Lemma classify_inherited {transport : Type}
    (reg : gmap string transport) (rq : request) (k : string) :
  sessionId rq = Some k ->
  reg !! k = None ->
  k ∈ object_prototype_keys ->
  classify reg rq = Reuse None.
Proof.
  intros Hid Hk Hproto. unfold classify, known, get. rewrite Hid, Hk.
  rewrite bool_decide_eq_true_2 by exact Hproto. simpl.
  assert (Ht : truthy k = true).
  { destruct k; [| reflexivity]. exfalso.
    apply list_elem_of_In in Hproto. simpl in Hproto. intuition discriminate. }
  rewrite Ht. reflexivity.
Qed.

Lemma classify_registered {transport : Type}
    (reg : gmap string transport) (rq : request) (k : string) (t : transport) :
  sessionId rq = Some k ->
  reg !! k = Some t ->
  k <> EmptyString ->
  classify reg rq = Reuse (Some t).
Proof.
  intros Hid Hk Hne. unfold classify, known, get. rewrite Hid, Hk.
  apply CurlFacts.truthy_true in Hne. rewrite Hne. reflexivity.
Qed.

(** A settled promise of [handleRequest] stays as it is. *)
Lemma settle_call_stable (e : event) (c : promise unit) :
  settled c = true -> settle_call e c = c.
Proof. destruct c; [discriminate | destruct e; reflexivity..]. Qed.

Lemma settle_call_other (e : event) (c : promise unit) :
  settles_call e = false -> settle_call e c = c.
Proof. destruct e; try reflexivity; discriminate. Qed.

Lemma call_after_app (es es' : list event) :
  call_after (es ++ es') = fold_left (fun c e => settle_call e c) es' (call_after es).
Proof. unfold call_after. apply fold_left_app. Qed.

Lemma call_unsettled (es : list event) :
  forallb (fun e => negb (settles_call e)) es = true ->
  forall c, fold_left (fun c e => settle_call e c) es c = c.
Proof.
  induction es as [| e es IH]; intros Hes c; [reflexivity |].
  simpl in Hes. apply andb_prop in Hes as [He Hes]. simpl.
  rewrite settle_call_other by (apply negb_true_iff, He). apply IH, Hes.
Qed.

Lemma call_kept (es : list event) :
  forall c, settled c = true -> fold_left (fun c e => settle_call e c) es c = c.
Proof.
  induction es as [| e es IH]; intros c Hc; [reflexivity |].
  simpl. rewrite settle_call_stable by exact Hc. apply IH, Hc.
Qed.

(** The first event that settles the promise decides how. *)
Lemma call_after_first (pre mid : list event) (s : event) :
  forallb (fun e => negb (settles_call e)) pre = true ->
  settles_call s = true ->
  call_after (pre ++ s :: mid) = settle_call s Pending.
Proof.
  intros Hpre Hs. rewrite call_after_app. unfold call_after.
  rewrite (call_unsettled pre Hpre). simpl. apply call_kept.
  destruct s; try discriminate; reflexivity.
Qed.

(** *** The registry under the callbacks *)

Section Registry.
Context {transport : Type}.

Local Abbreviation rstep := (registry_step (transport := transport)).

(** Once a session is initialized and the transport does not close, it is
    registered. *)
Lemma registry_initialized (t : transport) (id : string) (post : list event) :
  forallb (fun e => negb (is_closed e)) post = true ->
  forall rs, rs.1 !! id = Some t ->
             (fold_left (rstep t) post rs).1 !! id = Some t.
Proof.
  induction post as [| e post IH]; intros Hpost rs Hrs; [exact Hrs |].
  simpl in Hpost. apply andb_prop in Hpost as [He Hpost]. simpl.
  apply (IH Hpost).
  destruct e as [[] | | | |]; simpl; try exact Hrs; [| discriminate He].
  unfold on_initialized. rewrite lookup_insert. case_decide; [reflexivity | exact Hrs].
Qed.

(** A closure removes the session the transport was initialized with. *)
Lemma registry_closed (t : transport) (id : string) (post : list event) :
  forallb (fun e => negb (is_initialized id e)) post = true ->
  forall rs, rs.1 !! id = None ->
             (fold_left (rstep t) post rs).1 !! id = None.
Proof.
  induction post as [| e post IH]; intros Hpost rs Hrs; [exact Hrs |].
  simpl in Hpost. apply andb_prop in Hpost as [He Hpost]. simpl.
  apply (IH Hpost).
  destruct e as [[] | | | |]; simpl; try exact Hrs.
  - simpl in He. apply negb_true_iff, String.eqb_neq in He.
    unfold on_initialized. rewrite lookup_insert_ne by exact He. exact Hrs.
  - unfold on_close. destruct rs.2 as [k |]; [| exact Hrs].
    destruct (truthy k); [| exact Hrs].
    rewrite lookup_delete. case_decide; [reflexivity | exact Hrs].
Qed.

Lemma registry_sid_kept (t : transport) (mid : list event) :
  forallb (fun e => negb (initializes e)) mid = true ->
  forall rs, (fold_left (rstep t) mid rs).2 = rs.2.
Proof.
  induction mid as [| e mid IH]; intros Hmid rs; [reflexivity |].
  simpl in Hmid. apply andb_prop in Hmid as [He Hmid]. simpl.
  rewrite (IH Hmid). destruct e as [[] | | | |]; try reflexivity. discriminate He.
Qed.

(** The callbacks touch the registry at the session of the transport and
    at the identifiers it initializes, nowhere else. *)
Lemma registry_frame (t : transport) (k : string) (es : list event) :
  forallb (fun e => negb (is_initialized k e)) es = true ->
  forall rs, rs.2 <> Some k ->
             (fold_left (rstep t) es rs).1 !! k = rs.1 !! k
             /\ (fold_left (rstep t) es rs).2 <> Some k.
Proof.
  induction es as [| e es IH]; intros Hes rs Hsid; [split; [reflexivity | exact Hsid] |].
  simpl in Hes. apply andb_prop in Hes as [He Hes]. simpl.
  assert (Hstep : (rstep t rs e).1 !! k = rs.1 !! k /\ (rstep t rs e).2 <> Some k).
  { destruct e as [[] | | | |]; simpl; try (split; [reflexivity | exact Hsid]).
    - simpl in He. apply negb_true_iff, String.eqb_neq in He. split.
      + unfold on_initialized. apply lookup_insert_ne. exact He.
      + congruence.
    - split; [| exact Hsid]. unfold on_close.
      destruct rs.2 as [k' |]; [| reflexivity].
      destruct (truthy k'); [| reflexivity].
      apply lookup_delete_ne. congruence. }
  destruct Hstep as [Hlook Hsid'].
  destruct (IH Hes _ Hsid') as [IH1 IH2]. split; [congruence | exact IH2].
Qed.

(** Without a call of a callback the registry stays as it is. *)
Lemma registry_untouched (t : transport) (es : list event) :
  forallb (fun e => negb (is_callback e)) es = true ->
  forall rs, fold_left (rstep t) es rs = rs.
Proof.
  induction es as [| e es IH]; intros Hes rs; [reflexivity |].
  simpl in Hes. apply andb_prop in Hes as [He Hes]. simpl.
  rewrite (IH Hes). destruct e as [[] | | | |]; try reflexivity; discriminate He.
Qed.

(** The reactions are no callbacks. *)
Lemma registry_trace (t : transport) (es : list event) rs :
  fold_left (rstep t) (es ++ finally) rs = fold_left (rstep t) es rs.
Proof. rewrite fold_left_app. reflexivity. Qed.

End Registry.

(** *** index.ts *)

Section Index.
Context {transport json : Type} (response_accepts : Z -> gmap string string -> bool).

Local Abbreviation step := (IndexTs.step (transport := transport) (json := json) response_accepts).
Local Abbreviation run := (IndexTs.run (transport := transport) (json := json) response_accepts).

Lemma index_step_stable (t : transport) (st : IndexTs.driving) (e : event) :
  settled (IndexTs.future st) = true ->
  IndexTs.future (step t st e) = IndexTs.future st.
Proof.
  intros Hs. destruct e as [[] | | | |]; simpl; try reflexivity.
  unfold IndexTs.end_response.
  destruct (response_accepts _ _); simpl; [apply resolve_stable, Hs | reflexivity].
Qed.

Lemma index_run_stable (t : transport) (es : list event) :
  forall st : IndexTs.driving,
    settled (IndexTs.future st) = true ->
    IndexTs.future (run t st es) = IndexTs.future st.
Proof.
  induction es as [| e es IH]; intros st Hs; [reflexivity |].
  unfold IndexTs.run in *. simpl. rewrite IH.
  - apply index_step_stable, Hs.
  - rewrite index_step_stable; exact Hs.
Qed.

(** Only [end] touches the promise. *)
Lemma index_run_without_end (t : transport) (es : list event) :
  forallb (fun e => negb (is_end e)) es = true ->
  forall st : IndexTs.driving,
    IndexTs.future (run t st es) = IndexTs.future st.
Proof.
  induction es as [| e es IH]; intros Hes st; [reflexivity |].
  simpl in Hes. apply andb_prop in Hes as [He Hes].
  unfold IndexTs.run in *. simpl. rewrite (IH Hes).
  destruct e as [[] | | | |]; simpl; try reflexivity. discriminate He.
Qed.

Lemma index_end_settles (t : transport) (st : IndexTs.driving) (d : option string) :
  response_accepts (IndexTs.statusCode st)
    (IndexTs._headers st ∪ IndexTs.corsHeaders
       ∪ {["Content-Type" := "application/json"]}) = true ->
  settled (IndexTs.future (step t st (Do (End d)))) = true.
Proof.
  intros Hok. simpl. unfold IndexTs.end_response. rewrite Hok. simpl.
  apply resolve_settled.
Qed.

(** The sink of index.ts: [writeHead] keeps the status and drops the
    headers (line 140). *)
Lemma index_sink (t : transport) (es : list event) :
  forall st : IndexTs.driving,
    IndexTs.statusCode (run t st es) = fold_left sink_status es (IndexTs.statusCode st)
    /\ IndexTs._headers (run t st es)
       = fold_left sink_headers (List.map forget_head es) (IndexTs._headers st).
Proof.
  induction es as [| e es IH]; intros st; [split; reflexivity |].
  unfold IndexTs.run in *. simpl.
  destruct (IH (step t st e)) as [IH1 IH2]. rewrite IH1, IH2.
  destruct e as [[] | | | |]; simpl; try (split; reflexivity).
  unfold IndexTs.end_response. destruct (response_accepts _ _); split; reflexivity.
Qed.

End Index.

(** *** part_001 *)

Section P001.
Context {transport json : Type}.
Context (finish : Part001.driving (transport := transport) (json := json)
                    -> option (reply json)).
Context (on_error : reply json).

Local Abbreviation step := (Part001.step_with finish on_error).

Lemma part001_step_stable (t : transport) (st : Part001.driving) (e : event) :
  settled (Part001.future st) = true ->
  Part001.future (step t st e) = Part001.future st.
Proof.
  intros Hs. destruct e as [[] | | | |]; simpl; try reflexivity.
  - destruct (finish _); simpl; [apply resolve_stable, Hs | reflexivity].
  - destruct (Part001.call st); simpl; try reflexivity. apply resolve_stable, Hs.
Qed.

Lemma part001_run_stable (t : transport) (es : list event) :
  forall st : Part001.driving,
    settled (Part001.future st) = true ->
    Part001.future (fold_left (step t) es st) = Part001.future st.
Proof.
  induction es as [| e es IH]; intros st Hs; [reflexivity |].
  simpl. rewrite IH.
  - apply part001_step_stable, Hs.
  - rewrite part001_step_stable; exact Hs.
Qed.

(** The promise of [handleRequest] is settled by the transport alone. *)
Lemma part001_call (t : transport) (es : list event) :
  forall st : Part001.driving,
    Part001.call (fold_left (step t) es st)
    = fold_left (fun c e => settle_call e c) es (Part001.call st).
Proof.
  induction es as [| e es IH]; intros st; [reflexivity |].
  simpl. rewrite IH. f_equal.
  destruct e as [[] | | | |]; simpl; try reflexivity.
  - destruct (finish _); reflexivity.
  - destruct (Part001.call st) eqn:Hc; simpl; congruence.
Qed.

(** The [catch] callback settles the promise of the handler when the
    call of [handleRequest] is rejected, whatever came before and
    whatever follows. *)
Lemma part001_rejected_settles (t : transport) (es : list event)
    (st : Part001.driving) (e : string) :
  fold_left (fun c e => settle_call e c) es (Part001.call st) = Rejected e ->
  settled (Part001.future (fold_left (step t) (es ++ finally) st)) = true.
Proof.
  intros Hcall. rewrite fold_left_app.
  pose proof (part001_call t es st) as Hc. rewrite Hcall in Hc.
  remember (fold_left (step t) es st) as st' eqn:Hst'.
  simpl. rewrite Hc. simpl. apply resolve_settled.
Qed.

Lemma part001_rejection_settles (t : transport) (reg : gmap string transport)
    (sid : option string) (pre post : list event) (e : string) :
  forallb (fun e => negb (settles_call e)) pre = true ->
  settled (Part001.future
             (fold_left (step t) ((pre ++ Reject e :: post) ++ finally)
                (Part001.start reg sid))) = true.
Proof.
  intros Hpre. apply (part001_rejected_settles t _ _ e).
  apply (call_after_first pre post (Reject e) Hpre eq_refl).
Qed.

End P001.

(** *** part_000 *)

Section P000.
Context {transport json : Type} (JSON_parse : string -> option json).

Local Abbreviation step := (Part000.step (transport := transport) JSON_parse).

(** What the sink holds and how the call has settled depends on the
    events alone. *)
Lemma part000_sink (caught : bool) (t : transport) (es : list event) :
  forall st : Part000.driving,
    let st' := fold_left (step caught t) es st in
    Part000.responseStatus st' = fold_left sink_status es (Part000.responseStatus st)
    /\ Part000.responseHeaders st'
       = fold_left sink_headers es (Part000.responseHeaders st)
    /\ Part000.responseData st' = fold_left sink_data es (Part000.responseData st)
    /\ Part000.call st' = fold_left (fun c e => settle_call e c) es (Part000.call st).
Proof.
  induction es as [| e es IH]; intros st; [repeat split |].
  cbn zeta in *. simpl.
  destruct (IH (step caught t st e)) as (IH1 & IH2 & IH3 & IH4).
  rewrite IH1, IH2, IH3, IH4.
  destruct e as [[? ? | ? [] | | | |] | | | |]; simpl; try (repeat split; reflexivity);
    destruct (Part000.call st) eqn:Hc; simpl; rewrite ?Hc; repeat split; reflexivity.
Qed.

Lemma part000_step_stable (caught : bool) (t : transport) (st : Part000.driving)
    (e : event) :
  settled (Part000.handler st) = true ->
  Part000.handler (step caught t st e) = Part000.handler st.
Proof.
  intros Hs. destruct e as [[] | | | |]; simpl; try reflexivity.
  destruct (Part000.call st); simpl; [reflexivity | apply resolve_stable, Hs |].
  destruct caught; [apply resolve_stable, Hs | apply reject_stable, Hs].
Qed.

(** Once the handler has resumed, nothing changes its promise. *)
Lemma part000_handler_stable (caught : bool) (t : transport) (es : list event) :
  forall st : Part000.driving,
    settled (Part000.handler st) = true ->
    Part000.handler (fold_left (step caught t) es st) = Part000.handler st.
Proof.
  induction es as [| e es IH]; intros st Hs; [reflexivity |].
  simpl. rewrite IH.
  - apply part000_step_stable, Hs.
  - rewrite part000_step_stable; exact Hs.
Qed.

(** The promise of the handler changes when the handler resumes, at no
    other event. *)
Lemma part000_unresumed (caught : bool) (t : transport) (es : list event) :
  forallb (fun e => negb (is_resume e)) es = true ->
  forall st : Part000.driving,
    Part000.handler (fold_left (step caught t) es st) = Part000.handler st.
Proof.
  induction es as [| e es IH]; intros Hes st; [reflexivity |].
  simpl in Hes. apply andb_prop in Hes as [He Hes]. simpl.
  rewrite (IH Hes). destruct e as [[] | | | |]; try reflexivity. discriminate He.
Qed.

(** Before the call has settled there is nothing to resume on. *)
Lemma part000_uncalled (caught : bool) (t : transport) (es : list event) :
  forallb (fun e => negb (settles_call e)) es = true ->
  forall st : Part000.driving,
    Part000.call st = Pending ->
    Part000.handler (fold_left (step caught t) es st) = Part000.handler st.
Proof.
  induction es as [| e es IH]; intros Hes st Hc; [reflexivity |].
  simpl in Hes. apply andb_prop in Hes as [He Hes]. simpl.
  rewrite (IH Hes).
  - destruct e as [[] | | | |]; simpl; try reflexivity. rewrite Hc. reflexivity.
  - destruct e as [[] | | | |]; simpl; try exact Hc; try discriminate He.
    rewrite Hc. exact Hc.
Qed.

(** The handler resumes at the first [Resume] behind the settling of the
    call: fulfilled, it hands over what the sink holds at that moment;
    rejected, the error reply or the rejection. *)
Lemma part000_resumes (caught : bool) (t : transport) (reg : gmap string transport)
    (sid : option string) (pre mid post : list event) (s : event) :
  forallb (fun e => negb (settles_call e)) pre = true ->
  settles_call s = true ->
  forallb (fun e => negb (is_resume e)) mid = true ->
  let seen := pre ++ s :: mid in
  Part000.handler (fold_left (step caught t) (seen ++ Resume :: post)
                     (Part000.start reg sid))
  = match s with
    | Reject e => if caught then Fulfilled (Part000.internal_error (json := json))
                  else Rejected e
    | _ => Fulfilled {| status := written_status seen;
                        headers := written_headers seen;
                        body := parse_or_raw JSON_parse (ended_data seen) |}
    end.
Proof.
  intros Hpre Hs Hmid seen.
  rewrite fold_left_app. cbn [fold_left].
  destruct (part000_sink caught t seen (Part000.start reg sid)) as (H1 & H2 & H3 & H4).
  cbn zeta in H1, H2, H3, H4.
  assert (Hh : Part000.handler (fold_left (step caught t) seen (Part000.start reg sid))
               = Pending).
  { subst seen. rewrite fold_left_app. cbn [fold_left].
    rewrite (part000_unresumed caught t mid Hmid).
    assert (Hstep : forall st : Part000.driving,
               Part000.handler (step caught t st s) = Part000.handler st).
    { intros st. destruct s; try discriminate Hs; reflexivity. }
    rewrite Hstep. rewrite (part000_uncalled caught t pre Hpre); reflexivity. }
  remember (fold_left (step caught t) seen (Part000.start reg sid)) as st eqn:Hst.
  assert (Hcall : Part000.call st = settle_call s Pending).
  { rewrite H4. apply (call_after_first pre mid s Hpre Hs). }
  rewrite part000_handler_stable.
  - simpl. rewrite Hcall.
    destruct s; try discriminate Hs; simpl; rewrite Hh; simpl.
    + unfold Part000.relay. rewrite H1, H2, H3. reflexivity.
    + destruct caught; reflexivity.
  - simpl. rewrite Hcall.
    destruct s; try discriminate Hs; simpl; rewrite Hh; simpl; [reflexivity |].
    destruct caught; reflexivity.
Qed.

(** A call that never settles leaves the handler waiting. *)
Lemma part000_waits (caught : bool) (t : transport) (reg : gmap string transport)
    (sid : option string) (es : list event) :
  forallb (fun e => negb (settles_call e)) es = true ->
  Part000.handler (fold_left (step caught t) es (Part000.start reg sid)) = Pending.
Proof. intros Hes. rewrite (part000_uncalled caught t es Hes); reflexivity. Qed.

End P000.

(** *** part_002 *)

Section P002.
Context {transport json : Type}.
Context (finish : option string -> value json) (t : transport).

Local Abbreviation step := (Part002.step (transport := transport) finish t).
Local Abbreviation act := (fun wrapped => Part002.act (transport := transport) finish wrapped t).

Lemma part002_step_stable (st : Part002.driving) (e : event) :
  settled (Part002.future st) = true ->
  Part002.future (step st e) = Part002.future st.
Proof.
  intros Hs. destruct e as [[] | | | |]; simpl; try reflexivity.
  - apply resolve_stable, Hs.
  - destruct (Part002.call st); simpl;
      [reflexivity | apply resolve_stable, Hs | apply reject_stable, Hs].
Qed.

Lemma part002_later_stable (es : list event) :
  forall st : Part002.driving,
    settled (Part002.future st) = true ->
    Part002.future (fold_left step es st) = Part002.future st.
Proof.
  induction es as [| e es IH]; intros st Hs; [reflexivity |].
  simpl. rewrite IH.
  - apply part002_step_stable, Hs.
  - rewrite part002_step_stable; exact Hs.
Qed.

(** Inside [handleRequest] the wrapper is not yet in place: nothing
    touches the promises. *)
Lemma part002_sync (acts : list action) :
  forall st : Part002.driving,
    let st' := fold_left (act false) acts st in
    Part002.call st' = Part002.call st
    /\ Part002.future st' = Part002.future st
    /\ Part002.answer st' = Part002.answer st.
Proof.
  induction acts as [| a acts IH]; intros st; [repeat split |].
  cbn zeta in *. simpl. destruct (IH (act false st a)) as (IH1 & IH2 & IH3).
  rewrite IH1, IH2, IH3. destruct a; repeat split.
Qed.

(** The sink, inside [handleRequest] and afterwards. *)
Lemma part002_act_sink (wrapped : bool) (st : Part002.driving) (a : action) :
  Part002.statusCode (act wrapped st a) = sink_status (Part002.statusCode st) (Do a)
  /\ Part002._headers (act wrapped st a) = sink_headers (Part002._headers st) (Do a).
Proof. destruct a as [? ? | ? [] | | | |], wrapped; split; reflexivity. Qed.

Lemma part002_sync_sink (acts : list action) :
  forall st : Part002.driving,
    let st' := fold_left (act false) acts st in
    Part002.statusCode st'
      = fold_left sink_status (List.map Do acts) (Part002.statusCode st)
    /\ Part002._headers st'
       = fold_left sink_headers (List.map Do acts) (Part002._headers st).
Proof.
  induction acts as [| a acts IH]; intros st; [split; reflexivity |].
  cbn zeta in *. simpl. destruct (IH (act false st a)) as [IH1 IH2].
  destruct (part002_act_sink false st a) as [H1 H2].
  rewrite IH1, IH2, H1, H2. split; reflexivity.
Qed.

Lemma part002_step_sink (st : Part002.driving) (e : event) :
  Part002.statusCode (step st e) = sink_status (Part002.statusCode st) e
  /\ Part002._headers (step st e) = sink_headers (Part002._headers st) e.
Proof.
  destruct e as [a | | | |]; try (split; reflexivity).
  - apply (part002_act_sink true).
  - simpl. destruct (Part002.call st); split; reflexivity.
Qed.

Lemma part002_sink (es : list event) :
  forall st : Part002.driving,
    let st' := fold_left step es st in
    Part002.statusCode st' = fold_left sink_status es (Part002.statusCode st)
    /\ Part002._headers st' = fold_left sink_headers es (Part002._headers st).
Proof.
  induction es as [| e es IH]; intros st; [split; reflexivity |].
  cbn zeta in *. simpl. destruct (IH (step st e)) as [IH1 IH2].
  destruct (part002_step_sink st e) as [H1 H2].
  rewrite IH1, IH2, H1, H2. split; reflexivity.
Qed.

(** Every name in [set.headers] has come from the sink, whose headers are
    never removed. *)
Lemma part002_act_covered (wrapped : bool) (st : Part002.driving) (a : action) :
  dom (Part002.set_headers st) ⊆ dom (Part002._headers st) ->
  dom (Part002.set_headers (act wrapped st a)) ⊆ dom (Part002._headers (act wrapped st a)).
Proof.
  intros Hst. destruct a as [k v | s [hs |] | | d | |]; simpl; try exact Hst.
  - unfold obj_set. case_decide; [exact Hst |]. rewrite dom_insert.
    etrans; [exact Hst | apply union_subseteq_r].
  - unfold obj_assign. rewrite dom_union.
    etrans; [exact Hst | apply union_subseteq_r].
  - destruct wrapped; simpl; rewrite dom_union; apply union_subseteq;
      (split; [reflexivity | exact Hst]).
Qed.

Lemma part002_step_covered (st : Part002.driving) (e : event) :
  dom (Part002.set_headers st) ⊆ dom (Part002._headers st) ->
  dom (Part002.set_headers (step st e)) ⊆ dom (Part002._headers (step st e)).
Proof.
  intros Hst. destruct e as [a | | | |]; try exact Hst.
  - apply (part002_act_covered true), Hst.
  - simpl. destruct (Part002.call st); exact Hst.
Qed.

Lemma part002_sync_covered (acts : list action) :
  forall st : Part002.driving,
    dom (Part002.set_headers st) ⊆ dom (Part002._headers st) ->
    let st' := fold_left (act false) acts st in
    dom (Part002.set_headers st') ⊆ dom (Part002._headers st').
Proof.
  induction acts as [| a acts IH]; intros st Hst; [exact Hst |].
  cbn zeta in *. simpl. apply IH, (part002_act_covered false), Hst.
Qed.

Lemma part002_covered (es : list event) :
  forall st : Part002.driving,
    dom (Part002.set_headers st) ⊆ dom (Part002._headers st) ->
    let st' := fold_left step es st in
    dom (Part002.set_headers st') ⊆ dom (Part002._headers st').
Proof.
  induction es as [| e es IH]; intros st Hst; [exact Hst |].
  cbn zeta in *. simpl. apply IH, part002_step_covered, Hst.
Qed.

(** Only [end] writes [set]. *)
Lemma part002_set_kept (es : list event) :
  forallb (fun e => negb (is_end e)) es = true ->
  forall st : Part002.driving,
    let st' := fold_left step es st in
    Part002.set_status st' = Part002.set_status st
    /\ Part002.set_headers st' = Part002.set_headers st.
Proof.
  induction es as [| e es IH]; intros Hes st; [split; reflexivity |].
  simpl in Hes. apply andb_prop in Hes as [He Hes]. cbn zeta in *. simpl.
  destruct (IH Hes (step st e)) as [IH1 IH2]. rewrite IH1, IH2.
  destruct e as [[] | | | |]; simpl; try (split; reflexivity); try discriminate He.
  destruct (Part002.call st); split; reflexivity.
Qed.

(** After an [end], [set] holds the status and the headers that the sink
    held when the last [end] was called. *)
Lemma part002_set_at_last_end (a b : list event) (d : option string) :
  forallb (fun e => negb (is_end e)) b = true ->
  forall st : Part002.driving,
    dom (Part002.set_headers st) ⊆ dom (Part002._headers st) ->
    let st' := fold_left step (a ++ Do (End d) :: b) st in
    Part002.set_status st' = fold_left sink_status a (Part002.statusCode st)
    /\ Part002.set_headers st' = fold_left sink_headers a (Part002._headers st).
Proof.
  intros Hb st Hst. cbn zeta. rewrite fold_left_app. cbn [fold_left].
  destruct (part002_sink a st) as [Hs Hh]. cbn zeta in Hs, Hh.
  pose proof (part002_covered a st Hst) as Hcov. cbn zeta in Hcov.
  remember (fold_left step a st) as st1 eqn:Hst1.
  destruct (part002_set_kept b Hb (step st1 (Do (End d)))) as [K1 K2].
  cbn zeta in K1, K2. rewrite K1, K2. simpl. split; [exact Hs |].
  rewrite <- Hh. apply map_eq. intros k. rewrite lookup_union.
  destruct (Part002._headers st1 !! k) as [v |] eqn:Hk.
  - destruct (Part002.set_headers st1 !! k); reflexivity.
  - assert (Hnone : Part002.set_headers st1 !! k = None).
    { apply not_elem_of_dom. intros Hin. apply Hcov in Hin.
      apply not_elem_of_dom in Hk. contradiction. }
    rewrite Hnone. reflexivity.
Qed.

(** The reply is built once. *)
Lemma part002_answer_stable (es : list event) :
  forall st : Part002.driving,
    settled (Part002.answer st) = true ->
    Part002.answer (fold_left step es st) = Part002.answer st.
Proof.
  induction es as [| e es IH]; intros st Hs; [reflexivity |].
  assert (Hstep : Part002.answer (step st e) = Part002.answer st).
  { destruct e as [[] | | | |]; simpl; try reflexivity.
    - destruct (Part002.call st); reflexivity.
    - unfold Part002.respond. destruct (Part002.future st);
        [reflexivity | apply resolve_stable, Hs | apply reject_stable, Hs]. }
  simpl. rewrite IH; [exact Hstep | rewrite Hstep; exact Hs].
Qed.

Lemma part002_unanswered (es : list event) :
  forallb (fun e => negb (is_respond e)) es = true ->
  forall st : Part002.driving,
    Part002.answer (fold_left step es st) = Part002.answer st.
Proof.
  induction es as [| e es IH]; intros Hes st; [reflexivity |].
  simpl in Hes. apply andb_prop in Hes as [He Hes]. simpl. rewrite (IH Hes).
  destruct e as [[] | | | |]; simpl; try reflexivity; try discriminate He.
  destruct (Part002.call st); reflexivity.
Qed.

(** Until the sink is ended or the call settles, both promises wait. *)
Lemma part002_waits (es : list event) :
  forallb (fun e => negb (is_end e)) es = true ->
  forallb (fun e => negb (settles_call e)) es = true ->
  forall st : Part002.driving,
    Part002.call st = Pending ->
    Part002.future st = Pending ->
    let st' := fold_left step es st in
    Part002.call st' = Pending
    /\ Part002.future st' = Pending
    /\ Part002.answer st' = Part002.answer st.
Proof.
  induction es as [| e es IH]; intros Hend Hset st Hc Hf; [repeat split; assumption |].
  simpl in Hend, Hset.
  apply andb_prop in Hend as [He1 Hend]. apply andb_prop in Hset as [He2 Hset].
  cbn zeta in *. simpl.
  assert (Hstep : Part002.call (step st e) = Pending
                  /\ Part002.future (step st e) = Pending
                  /\ Part002.answer (step st e) = Part002.answer st).
  { destruct e as [[] | | | |]; simpl; try (repeat split; assumption);
      try discriminate He1; try discriminate He2.
    - rewrite Hc. repeat split; assumption.
    - unfold Part002.respond. rewrite Hf. repeat split; assumption. }
  destruct Hstep as (S1 & S2 & S3).
  destruct (IH Hend Hset (step st e) S1 S2) as (I1 & I2 & I3).
  rewrite I1, I2, I3, S3. repeat split.
Qed.

(** The reply of part_002: the body is that of the first [end] made
    behind [handleRequest], the status and the headers are those of the
    last [end] made before the framework resumes. *)
Lemma part002_replies (reg : gmap string transport) (sid : option string)
    (first : list action) (pre mid post a b : list event) (d d' : option string) :
  forallb (fun e => negb (is_end e)) pre = true ->
  forallb (fun e => negb (settles_call e)) pre = true ->
  forallb (fun e => negb (is_respond e)) mid = true ->
  pre ++ Do (End d) :: mid = a ++ Do (End d') :: b ->
  forallb (fun e => negb (is_end e)) b = true ->
  Part002.answer
    (fold_left step (pre ++ Do (End d) :: mid ++ Respond :: post)
       (fold_left (act false) first (Part002.start reg sid)))
  = Fulfilled {| status := written_status (List.map Do first ++ a);
                 headers := written_headers (List.map Do first ++ a);
                 body := finish d |}.
Proof.
  intros Hpre1 Hpre2 Hmid Hsplit Hb.
  destruct (part002_sync first (Part002.start reg sid)) as (C0 & F0 & A0).
  destruct (part002_sync_sink first (Part002.start reg sid)) as (S0 & H0).
  assert (Hcov : let st0 := fold_left (act false) first (Part002.start reg sid) in
                 dom (Part002.set_headers st0) ⊆ dom (Part002._headers st0)).
  { apply part002_sync_covered. reflexivity. }
  cbn zeta in C0, F0, A0, S0, H0, Hcov.
  remember (fold_left (act false) first (Part002.start reg sid)) as st0 eqn:Hst0.
  assert (Hfa : Part002.future (fold_left step (pre ++ Do (End d) :: mid) st0)
                = Fulfilled (finish d)
                /\ Part002.answer (fold_left step (pre ++ Do (End d) :: mid) st0)
                   = Pending).
  { rewrite fold_left_app. cbn [fold_left].
    destruct (part002_waits pre Hpre1 Hpre2 st0 C0 F0) as (_ & F1 & A1).
    cbn zeta in F1, A1.
    rewrite (part002_unanswered mid Hmid).
    rewrite part002_later_stable; simpl; rewrite F1; simpl; [| reflexivity].
    split; [reflexivity |]. rewrite A1. exact A0. }
  destruct Hfa as [Hf Ha].
  destruct (part002_set_at_last_end a b d' Hb st0 Hcov) as [Hss Hsh].
  cbn zeta in Hss, Hsh. rewrite <- Hsplit in Hss, Hsh.
  change (pre ++ Do (End d) :: mid ++ Respond :: post)
    with (pre ++ (Do (End d) :: mid) ++ Respond :: post).
  rewrite app_assoc, fold_left_app. cbn [fold_left].
  rewrite part002_answer_stable.
  - simpl. unfold Part002.respond. rewrite Hf, Ha, Hss, Hsh, S0, H0. simpl.
    unfold written_status, written_headers. rewrite !fold_left_app. reflexivity.
  - simpl. unfold Part002.respond. rewrite Hf. apply resolve_settled.
Qed.

End P002.

(** *** The drives of the four variants project onto the registry
    steps *)

Section Projections.
Context {transport json : Type}.
Context (JSON_parse : string -> option json).
Context (response_accepts : Z -> gmap string string -> bool).

Lemma index_registry (t : transport) (es : list event) :
  forall st : IndexTs.driving (transport := transport) (json := json),
    let st' := fold_left (IndexTs.step response_accepts t) es st in
    (IndexTs.sessions st', IndexTs.sid st')
    = fold_left (registry_step t) es (IndexTs.sessions st, IndexTs.sid st).
Proof.
  induction es as [| e es IH]; intros st; [reflexivity |].
  simpl. rewrite IH. f_equal.
  destruct e as [[] | | | |]; simpl; try reflexivity.
  unfold IndexTs.end_response. destruct (response_accepts _ _); reflexivity.
Qed.

Lemma index_get_registry (t : transport) (es : list event) :
  forall st : IndexTs.driving (transport := transport) (json := json),
    let st' := fold_left (IndexTs.step_get response_accepts t) es st in
    (IndexTs.sessions st', IndexTs.sid st')
    = fold_left (registry_step t) es (IndexTs.sessions st, IndexTs.sid st).
Proof.
  induction es as [| e es IH]; intros st; [reflexivity |].
  simpl. rewrite IH. f_equal.
  destruct e as [[] | | | |]; simpl; try reflexivity.
  unfold IndexTs.end_response_get. destruct (response_accepts _ _); reflexivity.
Qed.

Lemma part001_registry (finish : Part001.driving -> option (reply json))
    (on_error : reply json) (t : transport) (es : list event) :
  forall st : Part001.driving (transport := transport) (json := json),
    let st' := fold_left (Part001.step_with finish on_error t) es st in
    (Part001.sessions st', Part001.sid st')
    = fold_left (registry_step t) es (Part001.sessions st, Part001.sid st).
Proof.
  induction es as [| e es IH]; intros st; [reflexivity |].
  simpl. rewrite IH. f_equal.
  destruct e as [[] | | | |]; simpl; try reflexivity.
  - destruct (finish _); reflexivity.
  - destruct (Part001.call st); reflexivity.
Qed.

Lemma part000_registry (caught : bool) (t : transport) (es : list event) :
  forall st : Part000.driving (transport := transport) (json := json),
    let st' := fold_left (Part000.step JSON_parse caught t) es st in
    (Part000.sessions st', Part000.sid st')
    = fold_left (registry_step t) es (Part000.sessions st, Part000.sid st).
Proof.
  induction es as [| e es IH]; intros st; [reflexivity |].
  simpl. rewrite IH. f_equal.
  destruct e as [[] | | | |]; try reflexivity.
  simpl. destruct (Part000.call st); reflexivity.
Qed.

Lemma part002_registry (finish : option string -> value json) (t : transport)
    (b : behaviour) :
  forall st : Part002.driving (transport := transport) (json := json),
    let st' := Part002.run finish t st b in
    (Part002.sessions st', Part002.sid st')
    = fold_left (registry_step t) (events b) (Part002.sessions st, Part002.sid st).
Proof.
  intros st. unfold Part002.run, events. cbn zeta.
  assert (Hlater : forall es (s : Part002.driving),
            (Part002.sessions (fold_left (Part002.step finish t) es s),
             Part002.sid (fold_left (Part002.step finish t) es s))
            = fold_left (registry_step t) es (Part002.sessions s, Part002.sid s)).
  { induction es as [| e es IH]; intros s; [reflexivity |].
    simpl. rewrite IH. f_equal. destruct e as [[] | | | |]; try reflexivity.
    simpl. destruct (Part002.call s); reflexivity. }
  rewrite Hlater, registry_trace, (fold_left_app _ (List.map Do (sync b))). f_equal.
  generalize st. induction (sync b) as [| a l IH]; intros s; [reflexivity |].
  simpl. rewrite IH. f_equal. destruct a; reflexivity.
Qed.

(** The registry that each drive leaves. *)
Lemma drive_registry (t : transport) (reg : gmap string transport)
    (sid : option string) (verb : string) (caught : bool)
    (finish : option string -> value json) (b : behaviour) :
  let folded := (fold_left (registry_step t) (events b) (reg, sid)).1 in
  registry (IndexTs.drive (json := json) response_accepts t reg sid b) = folded
  /\ registry (Part001.drive (json := json) response_accepts t reg sid b) = folded
  /\ registry (Part000.drive JSON_parse caught verb t reg sid b) = folded
  /\ registry (Part002.drive finish verb t reg sid b) = folded.
Proof.
  cbn zeta.
  unfold IndexTs.drive, IndexTs.run, Part001.drive, Part001.run, Part001.step,
    Part000.drive, Part002.drive, trace. cbn [registry].
  pose proof (index_registry t (events b) (IndexTs.start reg sid)) as H1.
  pose proof (part001_registry (Part001.finish_response response_accepts)
                Part001.internal_error t (events b ++ finally)
                (Part001.start reg sid)) as H2.
  pose proof (part000_registry caught t (events b ++ finally)
                (Part000.start reg sid)) as H3.
  pose proof (part002_registry finish t b (Part002.start reg sid)) as H4.
  cbn zeta in H1, H2, H3, H4. rewrite registry_trace in H2, H3.
  cbn [IndexTs.start IndexTs.sessions IndexTs.sid
      Part001.start Part001.sessions Part001.sid Part000.start Part000.sessions
      Part000.sid Part002.start Part002.sessions Part002.sid] in H1, H2, H3, H4.
  rewrite <- H1 at 1. rewrite <- H2 at 1. rewrite <- H3 at 1. rewrite <- H4.
  repeat split.
Qed.

(** The registry a POST leaves, as the fold of the registry steps. *)
Lemma post_registry (reg : gmap string transport) (rq : request) (w : world transport) :
  let folded := fun t sid =>
    (fold_left (registry_step t) (events (conduct w)) (reg, sid)).1 in
  let expected :=
    match classify reg rq with
    | Reuse (Some t) => folded t (sessionId rq)
    | Create => match connect_error w with
                | Some _ => reg
                | None => folded (fresh w) None
                end
    | _ => reg
    end in
  registry (IndexTs.post (json := json) response_accepts reg rq w) = expected
  /\ registry (Part001.post (json := json) response_accepts reg rq w) = expected
  /\ registry (Part000.post JSON_parse reg rq w) = expected
  /\ registry (Part002.post JSON_parse reg rq w) = expected.
Proof.
  intros folded expected. subst folded expected.
  unfold IndexTs.post, Part001.post, Part000.post, Part002.post.
  pose proof (fun t sid =>
    drive_registry t reg sid "POST" true (parse_or_raw JSON_parse) (conduct w)) as Hall.
  cbn zeta in Hall.
  destruct (classify reg rq) as [[t |] | |]; try (repeat split; reflexivity).
  - apply Hall.
  - destruct (connect_error w); [repeat split; reflexivity | apply Hall].
Qed.

End Projections.

(** What [written_status] says: the status of the last [writeHead], 200
    when there was none. *)
Lemma written_status_default (es : list event) :
  forallb (fun e => negb (is_write_head e)) es = true ->
  forall s, fold_left sink_status es s = s.
Proof.
  induction es as [| e es IH]; intros Hes s; [reflexivity |].
  simpl in Hes. apply andb_prop in Hes as [He Hes]. simpl.
  rewrite (IH Hes). destruct e as [[] | | | |]; try reflexivity. discriminate He.
Qed.

Lemma written_status_last (es es' : list event) (s : Z)
    (hs : option (gmap string string)) :
  forallb (fun e => negb (is_write_head e)) es' = true ->
  written_status (es ++ Do (WriteHead s hs) :: es') = s.
Proof.
  intros Hes'. unfold written_status. rewrite fold_left_app. simpl.
  apply written_status_default, Hes'.
Qed.

(** ** The claims about the handlers *)

(** C2 (as stated it fails). The DELETE handler of part_000 answers a
    call without session header with status 400, lines 465-468. *)
Lemma part000_delete_without_header_is_400 : ~ delete_always_200.
Proof.
  intros H.
  specialize (H unit unit (fun _ => None) ∅ None {| sync := []; later := [] |}).
  discriminate H.
Qed.

(** C2 (amended). The DELETE handlers of index.ts and part_001 answer
    every call with the empty 200 reply. Those of part_000 and part_002
    answer status 400 with the plain text [Invalid or missing session ID]
    when the header is absent or empty or names neither a registered
    session nor a property that the registry inherits from
    [Object.prototype]; for such an inherited name ([constructor], say)
    with no session registered under it they set no status at all, their
    promise is rejected with a [TypeError]. For a registered session
    part_000 awaits [handleRequest]: when that call is fulfilled, the
    status of the reply is the one of the last [writeHead] that the
    transport made before the handler resumed, 200 when it made none;
    when the call is rejected, so is the promise of the handler; while
    the call is not settled, the handler waits. *)
Theorem delete_status_by_variant :
  forall (transport json : Type) (JSON_parse : string -> option json)
         (reg : gmap string transport) (sessionId : option string) (b : behaviour),
    let ok := {| status := 200%Z; headers := IndexTs.corsHeaders;
                 body := @Str json EmptyString |} in
    let refused := {| status := 400%Z; headers := ∅;
                      body := @Str json "Invalid or missing session ID" |} in
    result (IndexTs.delete_ (json := json) reg sessionId) = Fulfilled ok
    /\ result (Part001.delete_ (json := json) reg sessionId) = Fulfilled ok
    /\ (absent sessionId = true
        \/ (exists k, sessionId = Some k /\ reg !! k = None
                      /\ k ∉ object_prototype_keys) ->
        result (Part000.delete_ JSON_parse reg sessionId b) = Fulfilled refused
        /\ result (Part002.delete_ (json := json) reg sessionId b) = Fulfilled refused)
    /\ (forall k,
          sessionId = Some k -> reg !! k = None -> k ∈ object_prototype_keys ->
          result (Part000.delete_ JSON_parse reg sessionId b) = Rejected TypeError
          /\ result (Part002.delete_ (json := json) reg sessionId b) = Rejected TypeError)
    /\ (forall k t,
          sessionId = Some k -> reg !! k = Some t -> k <> EmptyString ->
          (forall pre mid post,
              trace b = pre ++ Fulfil :: mid ++ Resume :: post ->
              forallb (fun e => negb (settles_call e)) pre = true ->
              forallb (fun e => negb (is_resume e)) mid = true ->
              status_of (result (Part000.delete_ JSON_parse reg sessionId b))
              = Some (written_status (pre ++ Fulfil :: mid)))
          /\ (forall pre mid post e,
                trace b = pre ++ Reject e :: mid ++ Resume :: post ->
                forallb (fun e => negb (settles_call e)) pre = true ->
                forallb (fun e => negb (is_resume e)) mid = true ->
                result (Part000.delete_ JSON_parse reg sessionId b) = Rejected e)
          /\ (forallb (fun e => negb (settles_call e)) (events b) = true ->
              result (Part000.delete_ JSON_parse reg sessionId b) = Pending))
    /\ (forall es, forallb (fun e => negb (is_write_head e)) es = true ->
                   written_status es = 200%Z)
    /\ (forall es s hs es',
          forallb (fun e => negb (is_write_head e)) es' = true ->
          written_status (es ++ Do (WriteHead s hs) :: es') = s).
Proof.
  intros transport json JSON_parse reg sessionId b ok refused.
  split; [reflexivity |]. split; [reflexivity |].
  split; [| split; [| split; [| split]]].
  - intros Hid. unfold Part000.delete_, Part002.delete_.
    destruct Hid as [Habs | (k & -> & Hk & Hproto)].
    + destruct sessionId as [k |]; [| split; reflexivity].
      simpl in Habs. apply negb_true_iff in Habs. rewrite Habs. split; reflexivity.
    + unfold get. rewrite Hk, bool_decide_eq_false_2 by exact Hproto.
      rewrite andb_false_r. split; reflexivity.
  - intros k -> Hk Hproto. unfold Part000.delete_, Part002.delete_, get.
    rewrite Hk, bool_decide_eq_true_2 by exact Hproto.
    assert (Ht : truthy k = true).
    { destruct k; [| reflexivity]. exfalso.
      apply list_elem_of_In in Hproto. simpl in Hproto. intuition discriminate. }
    rewrite Ht. split; reflexivity.
  - intros k t -> Hk Hne. unfold Part000.delete_, get. rewrite Hk.
    apply CurlFacts.truthy_true in Hne. rewrite Hne. cbn [andb property_truthy transport_of].
    unfold Part000.drive. cbn [result].
    split; [| split].
    + intros pre mid post Hev Hpre Hmid. rewrite Hev.
      change (pre ++ Fulfil :: mid ++ Resume :: post)
        with (pre ++ (Fulfil :: mid) ++ Resume :: post).
      rewrite app_assoc.
      rewrite (part000_resumes JSON_parse false t _ _ pre mid post Fulfil Hpre eq_refl Hmid).
      reflexivity.
    + intros pre mid post e Hev Hpre Hmid. rewrite Hev.
      change (pre ++ Reject e :: mid ++ Resume :: post)
        with (pre ++ (Reject e :: mid) ++ Resume :: post).
      rewrite app_assoc.
      rewrite (part000_resumes JSON_parse false t _ _ pre mid post (Reject e)
                 Hpre eq_refl Hmid).
      reflexivity.
    + intros Hev. apply part000_waits. unfold trace.
      rewrite forallb_app, Hev. reflexivity.
  - intros es Hes. apply written_status_default, Hes.
  - intros es s hs es' Hes'. apply written_status_last, Hes'.
Qed.

Lemma delete_status_by_variant_witness :
  let reg : gmap string unit := {["s1" := tt]} in
  let b := {| sync := [WriteHead 202 None];
              later := [Fulfil; Do (WriteHead 204 None); Resume;
                        Do (WriteHead 500 None)] |} in
  let parse := fun _ : string => @None unit in
  status_of (result (Part000.delete_ parse reg None b)) = Some 400%Z
  /\ result (Part000.delete_ parse reg (Some "constructor") b) = Rejected TypeError
  /\ status_of (result (Part000.delete_ parse reg (Some "s1") b)) = Some 204%Z.
Proof.
  intros reg b parse.
  destruct (delete_status_by_variant unit unit parse reg None b)
    as (_ & _ & Hrefused & _).
  destruct (delete_status_by_variant unit unit parse reg (Some "constructor") b)
    as (_ & _ & _ & Hinherited & _).
  destruct (delete_status_by_variant unit unit parse reg (Some "s1") b)
    as (_ & _ & _ & _ & Hrelay & _).
  split; [| split].
  - destruct Hrefused as [-> _]; [left; reflexivity | reflexivity].
  - apply (Hinherited "constructor"); [reflexivity | reflexivity |].
    apply list_elem_of_In. simpl. tauto.
  - destruct (Hrelay "s1" tt eq_refl eq_refl) as (Hfulfilled & _); [discriminate |].
    rewrite (Hfulfilled [Do (WriteHead 202 None)] [Do (WriteHead 204 None)]
               [Do (WriteHead 500 None); Resume; Respond] eq_refl eq_refl eq_refl).
    reflexivity.
Defined.

(** C3 (the code where it fails). In index.ts nothing is attached to the
    promise of [handleRequest]: on a valid session, continued or new, a
    transport that never calls [end] leaves the promise of the handler
    pending, also when its own promise is rejected. *)
Theorem index_post_pending_without_end :
  forall (transport json : Type) (response_accepts : Z -> gmap string string -> bool)
         (reg : gmap string transport) (rq : request) (w : world transport),
    (exists t, classify reg rq = Reuse (Some t))
    \/ (classify reg rq = Create /\ connect_error w = None) ->
    forallb (fun e => negb (is_end e)) (events (conduct w)) = true ->
    result (IndexTs.post (json := json) response_accepts reg rq w) = Pending.
Proof.
  intros transport json response_accepts reg rq w Hroute Hno.
  unfold IndexTs.post.
  destruct Hroute as [[t ->] | [-> ->]]; unfold IndexTs.drive; simpl;
    apply (index_run_without_end response_accepts _ _ Hno).
Qed.

Lemma index_post_pending_without_end_witness :
  let reg : gmap string unit := {["s1" := tt]} in
  let rq := {| sessionId := Some "s1"; is_initialize := false |} in
  let w := {| fresh := tt; connect_error := None;
              conduct := {| sync := [SetHeader "a" "b"];
                            later := [Reject "boom"] |} |} in
  classify reg rq = Reuse (Some tt)
  /\ result (IndexTs.post (json := unit) (fun _ _ => true) reg rq w) = Pending.
Proof.
  intros reg rq w.
  split; [reflexivity |].
  apply index_post_pending_without_end; [left; exists tt; reflexivity | reflexivity].
Defined.

(** In part_001 the promise of the handler settles for every valid
    session whose transport rejects the call, come what may before and
    after the rejection. *)
Lemma part001_post_settles_on_rejection :
  forall (transport json : Type) (response_accepts : Z -> gmap string string -> bool)
         (reg : gmap string transport) (rq : request) (w : world transport)
         (pre post : list event) (e : string),
    (exists t, classify reg rq = Reuse (Some t))
    \/ (classify reg rq = Create /\ connect_error w = None) ->
    events (conduct w) = pre ++ Reject e :: post ->
    forallb (fun e => negb (settles_call e)) pre = true ->
    settled (result (Part001.post (json := json) response_accepts reg rq w)) = true.
Proof.
  intros transport json response_accepts reg rq w pre post e Hroute Hev Hpre.
  unfold Part001.post.
  destruct Hroute as [[t ->] | [-> ->]];
    unfold Part001.drive, Part001.run, Part001.step, trace; simpl;
    rewrite Hev; apply part001_rejection_settles, Hpre.
Qed.

(** The same rejection in the three other variants: part_001 resolves
    with the 500 reply, part_000 catches it and answers 500, part_002
    rejects. *)
Example rejection_before_end_elsewhere :
  let reg : gmap string unit := {["s1" := tt]} in
  let rq := {| sessionId := Some "s1"; is_initialize := false |} in
  let w := {| fresh := tt; connect_error := None;
              conduct := {| sync := [SetHeader "a" "b"];
                            later := [Reject "boom"] |} |} in
  result (Part001.post (json := unit) (fun _ _ => true) reg rq w)
    = Fulfilled Part001.internal_error
  /\ result (Part000.post (fun _ : string => @None unit) reg rq w)
    = Fulfilled Part000.internal_error
  /\ result (Part002.post (fun _ : string => @None unit) reg rq w)
    = Rejected "boom".
Proof. repeat split. Qed.

(** C4 (as stated it fails). The DELETE handler of part_000 calls
    [handleRequest] on the transport of the session it has removed, line
    507. *)
Lemma part000_delete_is_forwarded : ~ delete_not_forwarded.
Proof.
  intros H.
  destruct (H unit unit (fun _ => None) {["s1" := tt]} "s1" tt
              {| sync := []; later := [] |}) as [_ Hinv];
    [reflexivity | discriminate |].
  discriminate Hinv.
Qed.

(** C4 (amended). For a DELETE naming a registered session, index.ts and
    part_001 delete the entry and answer the empty 200 reply without a
    call of [handleRequest]. part_000 deletes the entry (it stays out
    unless the transport registers the identifier again through
    [onsessioninitialized]), then calls [handleRequest] of its transport
    once, with method DELETE, and when that call is fulfilled it answers
    with what the transport has written to the sink before the handler
    resumes: the status of the last [writeHead], the headers of
    [setHeader] and [writeHead], the data of the last [end]. part_002
    makes the same call and removes nothing itself: the registry stays
    as it is unless the transport calls one of the two callbacks, and the
    entry goes when the transport reports its closure through
    [onclose]. *)
Theorem delete_registered_by_variant :
  forall (transport json : Type) (JSON_parse : string -> option json)
         (reg : gmap string transport) (k : string) (t : transport) (b : behaviour),
    reg !! k = Some t ->
    k <> EmptyString ->
    let removed :=
      {| registry := delete k reg; invoked := [];
         result := Fulfilled {| status := 200%Z; headers := IndexTs.corsHeaders;
                                body := @Str json EmptyString |} |} in
    IndexTs.delete_ (json := json) reg (Some k) = removed
    /\ Part001.delete_ (json := json) reg (Some k) = removed
    /\ (let o := Part000.delete_ JSON_parse reg (Some k) b in
        invoked o = [(t, "DELETE")]
        /\ (forallb (fun e => negb (is_initialized k e)) (events b) = true ->
            registry o !! k = None)
        /\ (forall pre mid post,
              trace b = pre ++ Fulfil :: mid ++ Resume :: post ->
              forallb (fun e => negb (settles_call e)) pre = true ->
              forallb (fun e => negb (is_resume e)) mid = true ->
              let seen := pre ++ Fulfil :: mid in
              result o = Fulfilled {| status := written_status seen;
                                      headers := written_headers seen;
                                      body := parse_or_raw JSON_parse (ended_data seen) |}))
    /\ (let o := Part002.delete_ (json := json) reg (Some k) b in
        invoked o = [(t, "DELETE")]
        /\ (forallb (fun e => negb (is_callback e)) (events b) = true ->
            registry o = reg)
        /\ (forall pre post,
              events b = pre ++ Do Closed :: post ->
              forallb (fun e => negb (initializes e)) pre = true ->
              forallb (fun e => negb (is_initialized k e)) post = true ->
              registry o !! k = None)).
Proof.
  intros transport json JSON_parse reg k t b Hk Hne removed.
  apply CurlFacts.truthy_true in Hne.
  assert (Hknown : known reg (Some k) = true).
  { simpl. unfold get. rewrite Hk, Hne. reflexivity. }
  split; [| split; [| split]].
  - unfold IndexTs.delete_. rewrite Hknown. reflexivity.
  - unfold Part001.delete_, IndexTs.delete_. rewrite Hknown. reflexivity.
  - unfold Part000.delete_, get. rewrite Hk, Hne.
    cbn [andb property_truthy transport_of].
    destruct (drive_registry JSON_parse (fun _ _ => true) t (delete k reg) (Some k)
                "DELETE" false (Part002.as_given (json := json)) b) as (_ & _ & Hreg & _).
    cbn zeta in Hreg |- *. rewrite Hreg.
    split; [reflexivity |]. split.
    + intros Hb. apply registry_closed; [exact Hb |]. apply lookup_delete_eq.
    + intros pre mid post Hev Hpre Hmid. unfold Part000.drive. cbn [result].
      rewrite Hev.
      change (pre ++ Fulfil :: mid ++ Resume :: post)
        with (pre ++ (Fulfil :: mid) ++ Resume :: post).
      rewrite app_assoc.
      apply (part000_resumes JSON_parse false t _ _ pre mid post Fulfil Hpre eq_refl Hmid).
  - unfold Part002.delete_, get. rewrite Hk, Hne.
    cbn [andb property_truthy transport_of].
    destruct (drive_registry JSON_parse (fun _ _ => true) t reg (Some k)
                "DELETE" false (Part002.as_given (json := json)) b) as (_ & _ & _ & Hreg).
    cbn zeta in Hreg |- *. rewrite Hreg.
    split; [reflexivity |]. split.
    + intros Hb. rewrite (registry_untouched t _ Hb). reflexivity.
    + intros pre post Hev Hpre Hpost. rewrite Hev, fold_left_app. cbn [fold_left].
      apply registry_closed; [exact Hpost |].
      cbn [registry_step fst snd]. rewrite registry_sid_kept by exact Hpre.
      cbn [fst snd]. unfold on_close. rewrite Hne. apply lookup_delete_eq.
Qed.

Lemma delete_registered_by_variant_witness :
  let reg : gmap string unit := {["s1" := tt]} in
  let b := {| sync := []; later := [Do Closed; Do (WriteHead 202 None);
                                    Do (End (Some "bye")); Fulfil] |} in
  let parse := fun _ : string => @None unit in
  reg !! "s1" = Some tt
  /\ registry (IndexTs.delete_ (json := unit) reg (Some "s1")) = delete "s1" reg
  /\ Part000.delete_ parse reg (Some "s1") b
     = {| registry := ∅; invoked := [(tt, "DELETE")];
          result := Fulfilled {| status := 202; headers := ∅; body := Str "bye" |} |}
  /\ registry (Part002.delete_ (json := unit) reg (Some "s1") b) !! "s1" = None.
Proof.
  intros reg b parse.
  destruct (delete_registered_by_variant unit unit parse reg "s1" tt b)
    as (Hindex & _ & (_ & _ & Hrelay) & (_ & _ & Hclosed));
    [reflexivity | discriminate |].
  split; [reflexivity |]. split; [rewrite Hindex; reflexivity |]. split.
  - specialize (Hrelay [Do Closed; Do (WriteHead 202 None); Do (End (Some "bye"))] []
                  [Respond] eq_refl eq_refl eq_refl).
    cbn zeta in Hrelay. reflexivity.
  - apply (Hclosed [] [Do (WriteHead 202 None); Do (End (Some "bye")); Fulfil]);
      reflexivity.
Defined.

(** The registry of part_002 after a forwarded DELETE: the entry goes
    when the transport reports its closure and stays when it does not. *)
Example part002_delete_relies_on_onclose :
  let reg : gmap string unit := {["s1" := tt]} in
  let del := fun later =>
    registry (Part002.delete_ (json := unit) reg (Some "s1")
                {| sync := []; later := later |}) !! "s1" in
  del [Do Closed; Do (WriteHead 200 None); Do (End None); Fulfil] = None
  /\ del [Do (WriteHead 200 None); Do (End None); Fulfil] = Some tt.
Proof. split; reflexivity. Qed.

(** C5 (as stated it fails). In part_002 every [end] writes the status
    and the headers of the sink into the context [set] of the framework
    (lines 362-365). A transport that calls [end], [writeHead(500)] and
    [end] again before the framework resumes, in one job say, has the
    reply go out with status 500 and the body of the first [end]. *)
Lemma part002_second_end_rewrites_status : ~ first_completion_decides.
Proof.
  intros H.
  specialize (H unit unit (fun _ => None) tt ∅ None []
                [Do (WriteHead 500 None); Do (End None)] (Some "ok") eq_refl).
  vm_compute in H. discriminate H.
Qed.

(** C5 (amended). In index.ts the first [end], when the [Response]
    constructor takes the status and the headers of the sink, decides
    the whole reply: status, headers and body are those of that call,
    whatever the transport does afterwards (further [end] calls, a
    rejection of [handleRequest]). In
    part_002 the first [end] made after [handleRequest] has returned,
    while the call is not settled, decides the body alone, whatever comes
    afterwards; the status and the headers of the reply are those the
    sink holds at the last [end] made before the framework resumes, so a
    further [end] in between overwrites them; nothing that comes after
    the framework has resumed shows in the reply. *)
Theorem post_promise_settles_once :
  forall (transport json : Type) (response_accepts : Z -> gmap string string -> bool)
         (JSON_parse : string -> option json) (t : transport)
         (reg : gmap string transport) (sid : option string)
         (b : behaviour) (pre : list event) (d : option string),
    forallb (fun e => negb (is_end e)) pre = true ->
    (forall post,
        events b = pre ++ Do (End d) :: post ->
        let hs := written_headers (List.map forget_head pre)
                    ∪ IndexTs.corsHeaders
                    ∪ {["Content-Type" := "application/json"]} in
        response_accepts (written_status pre) hs = true ->
        result (IndexTs.drive (json := json) response_accepts t reg sid b)
        = Fulfilled {| status := written_status pre; headers := hs;
                       body := Str (or_empty d) |})
    /\ (forall mid post,
          later b ++ finally = pre ++ Do (End d) :: mid ++ Respond :: post ->
          forallb (fun e => negb (settles_call e)) pre = true ->
          forallb (fun e => negb (is_respond e)) mid = true ->
          let reply := result (Part002.drive (parse_or_raw JSON_parse) "POST"
                                 t reg sid b) in
          let before := List.map Do (sync b) ++ pre in
          (forallb (fun e => negb (is_end e)) mid = true ->
           reply = Fulfilled {| status := written_status before;
                                headers := written_headers before;
                                body := parse_or_raw JSON_parse d |})
          /\ (forall mid1 d' mid2,
                mid = mid1 ++ Do (End d') :: mid2 ->
                forallb (fun e => negb (is_end e)) mid2 = true ->
                let between := before ++ Do (End d) :: mid1 in
                reply = Fulfilled {| status := written_status between;
                                     headers := written_headers between;
                                     body := parse_or_raw JSON_parse d |})).
Proof.
  intros transport json response_accepts JSON_parse t reg sid b pre d Hpre.
  split.
  - intros post Hev hs Hok. subst hs. unfold IndexTs.drive. cbn [result]. rewrite Hev.
    unfold IndexTs.run. rewrite fold_left_app. cbn [fold_left].
    pose proof (index_run_without_end (json := json) response_accepts t pre Hpre
                  (IndexTs.start reg sid)) as Hfut.
    destruct (index_sink (json := json) response_accepts t pre (IndexTs.start reg sid))
      as [Hs Hh].
    unfold IndexTs.run in Hfut, Hs, Hh.
    remember (fold_left (IndexTs.step response_accepts t) pre (IndexTs.start reg sid))
      as st eqn:Hst.
    assert (Hend : IndexTs.future (IndexTs.step response_accepts t st (Do (End d)))
                   = Fulfilled
                       {| status := written_status pre;
                          headers := written_headers (List.map forget_head pre)
                                       ∪ IndexTs.corsHeaders
                                       ∪ {["Content-Type" := "application/json"]};
                          body := Str (or_empty d) |}).
    { simpl. unfold IndexTs.end_response. rewrite Hs, Hh.
      change (fold_left sink_status pre _) with (written_status pre).
      change (fold_left sink_headers (List.map forget_head pre) _)
        with (written_headers (List.map forget_head pre)).
      rewrite Hok. simpl. rewrite Hfut. reflexivity. }
    pose proof (index_run_stable (json := json) response_accepts t post
                  (IndexTs.step response_accepts t st (Do (End d)))) as Hstable.
    unfold IndexTs.run in Hstable. rewrite Hstable; [exact Hend |].
    rewrite Hend. reflexivity.
  - intros mid post Hev Hset Hmid reply before. subst reply.
    unfold Part002.drive, Part002.run. cbn [result]. rewrite Hev.
    split.
    + intros Hno.
      apply (part002_replies (parse_or_raw JSON_parse) t reg sid (sync b)
               pre mid post pre mid d d Hpre Hset Hmid eq_refl Hno).
    + intros mid1 d' mid2 -> Hno. cbn zeta.
      assert (Heq : before ++ Do (End d) :: mid1
                    = List.map Do (sync b) ++ (pre ++ Do (End d) :: mid1)).
      { unfold before. rewrite <- app_assoc. reflexivity. }
      rewrite Heq.
      apply (part002_replies (parse_or_raw JSON_parse) t reg sid (sync b)
               pre (mid1 ++ Do (End d') :: mid2) post
               (pre ++ Do (End d) :: mid1) mid2 d d' Hpre Hset Hmid); [| exact Hno].
      rewrite <- app_assoc. reflexivity.
Qed.

Lemma post_promise_settles_once_witness :
  let parse := fun _ : string => @None unit in
  let b := {| sync := [];
              later := [Do (WriteHead 202 None); Do (End (Some "ok"));
                        Do (WriteHead 500 None); Do (End None); Reject "late"] |} in
  result (IndexTs.drive (json := unit) (fun _ _ => true) tt ∅ None b)
    = Fulfilled {| status := 202;
                   headers := IndexTs.corsHeaders ∪ {["Content-Type" := "application/json"]};
                   body := Str "ok" |}
  /\ result (Part002.drive (parse_or_raw parse) "POST" tt ∅ None b)
     = Fulfilled {| status := 500; headers := ∅; body := Str "ok" |}.
Proof.
  intros parse b.
  destruct (post_promise_settles_once unit unit (fun _ _ => true) parse tt ∅ None b
              [Do (WriteHead 202 None)] (Some "ok") eq_refl) as [Hindex Hpart002].
  split.
  - rewrite (Hindex [Do (WriteHead 500 None); Do (End None); Reject "late"]
               eq_refl eq_refl).
    reflexivity.
  - destruct (Hpart002 [Do (WriteHead 500 None); Do (End None); Reject "late"; Resume] []
                eq_refl eq_refl eq_refl) as [_ Hlast].
    cbn zeta in Hlast.
    rewrite (Hlast [Do (WriteHead 500 None)] None [Reject "late"; Resume]
               eq_refl eq_refl).
    reflexivity.
Defined.

(** In part_002 the wrapper that resolves the promise is put in place
    after [handleRequest] has been called (lines 379-394): an [end] made
    before [handleRequest] returns writes [set] and resolves nothing, and
    the fulfilment of the call then resolves with [undefined]. *)
Example part002_end_before_wrapper :
  result (Part002.drive (transport := unit) (parse_or_raw (fun _ : string => @None unit))
            "POST" tt ∅ None
            {| sync := [WriteHead 406 None; End (Some "no")]; later := [Fulfil] |})
  = Fulfilled {| status := 406; headers := ∅; body := Undefined |}.
Proof. reflexivity. Qed.

(** An [end] made in the job that fulfils the call comes before the
    reaction to the fulfilment: it decides the body in part_002 as well
    as in part_000, where a later [end] comes too late. *)
Example end_in_the_job_of_the_fulfilment :
  let parse := fun _ : string => @None unit in
  let same_job := {| sync := []; later := [Fulfil; Do (End (Some "x"))] |} in
  let next_job := {| sync := []; later := [Fulfil; Resume; Do (End (Some "x"))] |} in
  let part002 := fun b => result (Part002.drive (parse_or_raw parse) "POST" tt ∅ None b) in
  let part000 := fun b => result (Part000.drive parse true "POST" tt ∅ None b) in
  part002 same_job = Fulfilled {| status := 200; headers := ∅; body := Str "x" |}
  /\ part002 next_job = Fulfilled {| status := 200; headers := ∅; body := Undefined |}
  /\ part000 same_job = Fulfilled {| status := 200; headers := ∅; body := Str "x" |}
  /\ part000 next_job = Fulfilled {| status := 200; headers := ∅; body := Undefined |}.
Proof. repeat split. Qed.

(** C6 (the code where it fails). A session header that names a property
    inherited from [Object.prototype], such as [constructor], passes the
    test [sessions[sessionId]] although no session is registered under
    it: the call is routed as a continuation with an [undefined]
    transport. The promise of index.ts is rejected with the [TypeError];
    part_000 catches it and answers 500 with code -32603. Neither
    answers 400 with code -32000. *)
Theorem post_inherited_name_not_bad_request :
  forall (transport json : Type) (response_accepts : Z -> gmap string string -> bool)
         (JSON_parse : string -> option json)
         (reg : gmap string transport) (rq : request) (k : string)
         (w : world transport),
    sessionId rq = Some k ->
    reg !! k = None ->
    k ∈ object_prototype_keys ->
    result (IndexTs.post (json := json) response_accepts reg rq w) = Rejected TypeError
    /\ result (Part000.post JSON_parse reg rq w) = Fulfilled Part000.internal_error
    /\ status (Part000.internal_error (json := json)) = 500%Z
    /\ body (Part000.internal_error (json := json))
       = ErrorText (-32603) "Internal server error".
Proof.
  intros transport json response_accepts JSON_parse reg rq k w Hid Hk Hproto.
  unfold IndexTs.post, Part000.post.
  rewrite (classify_inherited reg rq k Hid Hk Hproto).
  repeat split.
Qed.

Lemma post_inherited_name_not_bad_request_witness :
  let rq := {| sessionId := Some "constructor"; is_initialize := false |} in
  let w := {| fresh := tt; connect_error := None;
              conduct := {| sync := []; later := [] |} |} in
  (∅ : gmap string unit) !! "constructor" = None
  /\ result (IndexTs.post (json := unit) (fun _ _ => true) ∅ rq w) = Rejected TypeError
  /\ result (Part000.post (fun _ : string => @None unit) ∅ rq w)
     = Fulfilled Part000.internal_error.
Proof.
  intros rq w.
  destruct (post_inherited_name_not_bad_request unit unit (fun _ _ => true)
              (fun _ => None) ∅ rq "constructor" w)
    as (Hi & Hp & _); [reflexivity | reflexivity | | ].
  - apply list_elem_of_In. simpl. tauto.
  - split; [reflexivity |]. split; assumption.
Defined.

(** For every other header (absent, empty, or a name that is neither
    registered nor inherited) and a body that is not an initialization
    request, the four POST handlers answer status 400 with the JSON-RPC
    error of code -32000, call no transport and leave the registry as it
    was. *)
Lemma post_bad_request :
  forall (transport json : Type) (response_accepts : Z -> gmap string string -> bool)
         (JSON_parse : string -> option json)
         (reg : gmap string transport) (rq : request) (w : world transport),
    is_initialize rq = false ->
    match sessionId rq with
    | Some k => reg !! k = None /\ k ∉ object_prototype_keys
    | None => True
    end ->
    IndexTs.post (json := json) response_accepts reg rq w
      = {| registry := reg; invoked := [];
           result := Fulfilled
             {| status := 400;
                headers := IndexTs.corsHeaders ∪ {["Content-Type" := "application/json"]};
                body := ErrorText (-32000) "Bad Request" |} |}
    /\ Part000.post JSON_parse reg rq w
      = {| registry := reg; invoked := [];
           result := Fulfilled
             {| status := 400;
                headers := {["Content-Type" := "application/json"]};
                body := ErrorText (-32000) "Bad Request: No valid session ID provided" |} |}
    /\ Part001.post (json := json) response_accepts reg rq w
      = {| registry := reg; invoked := [];
           result := Fulfilled Part001.bad_request |}
    /\ Part002.post JSON_parse reg rq w
      = {| registry := reg; invoked := [];
           result := Fulfilled Part002.bad_request |}.
Proof.
  intros transport json response_accepts JSON_parse reg rq w Hinit Hid.
  unfold IndexTs.post, Part000.post, Part001.post, Part002.post.
  rewrite (classify_bad_request reg rq Hinit Hid). repeat split.
Qed.

End HttpFacts.
(** ** Further properties of the parser *)

Module ParserExtras.
Import JS Curl CurlArgs CurlFacts.

Lemma method_flag_only (f : string) :
  is_method_flag f = true ->
  String.eqb f "curl" = false /\ is_header_flag f = false /\ is_data_flag f = false.
Proof.
  unfold is_data_flag, is_header_flag, is_method_flag. intros H.
  apply orb_prop in H as [H | H]; apply String.eqb_eq in H; subst; repeat split; reflexivity.
Qed.

Section WithJson.
Context {json : Type} (JSON_parse : string -> option json).

Local Abbreviation walk := (walk JSON_parse).
Local Abbreviation parseCurlCommand := (parseCurlCommand JSON_parse).
Local Abbreviation descriptor := (descriptor json).

(** The four fields of the walk, each as a fold over the tokens of its own
    kind. *)
Lemma walk_fields (parts : list string) :
  forall st : descriptor,
    walk st parts =
      {| url := if truthy (url st) then url st
                else first_truthy (List.map remove_quotes (url_candidates parts));
         method := fold_left (fun _ a => method_of a)
                     (flag_args is_method_flag parts) (method st);
         headers := fold_left (fun hs a => add_header a hs)
                      (flag_args is_header_flag parts) (headers st);
         body := fold_left (fun b a => set_body JSON_parse a b)
                   (flag_args is_data_flag parts) (body st) |}.
Proof.
  induction parts as [| p rest IH1 IH2] using token_list_ind; intros st.
  - destruct st as [u m h b]. simpl. destruct (truthy u) eqn:Hu; [reflexivity |].
    apply truthy_false in Hu. subst u. reflexivity.
  - simpl. destruct (String.eqb p "curl"); [apply IH1 |].
    unfold consumes_next.
    destruct (is_method_flag p) eqn:Hm.
    { destruct (method_flag_only p Hm) as (_ & Hh & Hd). rewrite Hh, Hd. simpl.
      destruct rest as [| t rest'].
      - destruct st as [u m h b]. simpl. destruct (truthy u) eqn:Hu; [reflexivity |].
        apply truthy_false in Hu. subst u. reflexivity.
      - rewrite (IH2 t rest' eq_refl). reflexivity. }
    destruct (is_header_flag p) eqn:Hh.
    { destruct (header_flag_only p Hh) as (_ & _).
      assert (Hd : is_data_flag p = false).
      { destruct (is_data_flag p) eqn:Hd; [| reflexivity].
        destruct (data_flag_only p Hd) as (_ & _ & Hh'). congruence. }
      rewrite Hd. simpl.
      destruct rest as [| t rest'].
      - destruct st as [u m h b]. simpl. destruct (truthy u) eqn:Hu; [reflexivity |].
        apply truthy_false in Hu. subst u. reflexivity.
      - rewrite (IH2 t rest' eq_refl). reflexivity. }
    destruct (is_data_flag p) eqn:Hd.
    { simpl. destruct rest as [| t rest'].
      - destruct st as [u m h b]. simpl. destruct (truthy u) eqn:Hu; [reflexivity |].
        apply truthy_false in Hu. subst u. reflexivity.
      - rewrite (IH2 t rest' eq_refl). reflexivity. }
    simpl. rewrite IH1. unfold set_url.
    destruct (startsWith_dash p); simpl.
    { reflexivity. }
    destruct (truthy (url st)) eqn:Hu; simpl.
    { rewrite Hu. reflexivity. }
    destruct (truthy (remove_quotes p)) eqn:Hp; reflexivity.
Qed.

End WithJson.

(** X1. On a command within ASCII the parser treats the four fields
    apart. The URL is the first
    candidate that is not empty once its quotes are removed; the method,
    the headers and the body are what the tokens behind the method, header
    and data flags make of [GET], of the empty mapping and of
    [undefined], each kind in its own order; tokens of the other kinds
    never matter. The parser throws exactly when the URL comes out
    empty. *)
Theorem parse_by_fields :
  forall (json : Type) (JSON_parse : string -> option json) (cmd : string),
    ascii_only cmd = true ->
    let parts := split_ws cmd in
    let u := first_truthy (List.map remove_quotes (url_candidates parts)) in
    parseCurlCommand JSON_parse cmd =
      if truthy u then
        inr {| url := u;
               method := fold_left (fun _ a => method_of a)
                           (flag_args is_method_flag parts) "GET";
               headers := fold_left (fun hs a => add_header a hs)
                            (flag_args is_header_flag parts) ∅;
               body := fold_left (fun b a => set_body JSON_parse a b)
                         (flag_args is_data_flag parts) BodyUndefined |}
      else inl "No URL found in CURL command".
Proof.
  intros json JSON_parse cmd _ parts u. subst parts u.
  unfold parseCurlCommand. rewrite walk_fields. simpl.
  destruct (truthy (first_truthy _)); reflexivity.
Qed.

Lemma parse_by_fields_witness :
  let cmd := "curl -d a=1 -X put -H A:b '' http://h/x -X post -H A:c second" in
  let JSON_parse := fun _ : string => @None unit in
  ascii_only cmd = true
  /\ parseCurlCommand JSON_parse cmd =
       inr {| url := "http://h/x"; method := "POST";
              headers := {["A" := "c"]}; body := BodyRaw "a=1" |}.
Proof.
  intros cmd JSON_parse. split; [reflexivity |].
  rewrite (parse_by_fields unit JSON_parse cmd eq_refl). reflexivity.
Defined.

(** *** Header entries *)

Lemma split_on_from_no_sep (s cur : string) :
  has_colon s = false -> split_on_from ":" cur s = [cur +:+ s].
Proof.
  revert cur. induction s as [| c s IH]; intros cur Hs; simpl.
  - rewrite append_nil_r. reflexivity.
  - simpl in Hs. apply orb_false_elim in Hs as [Hc Hs].
    rewrite Hc, (IH _ Hs), append_assoc. reflexivity.
Qed.

Lemma add_header_entry (h k v : string) (hs : gmap string string) :
  remove_quotes h = k +:+ String ":" v ->
  has_colon k = false ->
  k <> EmptyString ->
  trim k <> "__proto__" ->
  add_header (Some h) hs = <[trim k := trim v]> hs.
Proof.
  intros Hh Hk Hk0 Hproto. unfold add_header. rewrite Hh.
  assert (Hnonempty : truthy (k +:+ String ":" v) = true).
  { destruct k; [congruence | reflexivity]. }
  rewrite Hnonempty. unfold split_on.
  rewrite split_on_from_prefix, append_nil_l by exact Hk.
  apply truthy_true in Hk0. rewrite Hk0.
  destruct (split_on_from_cons ":" v EmptyString) as (p0 & rest0 & Hv).
  pose proof (join_split_on_from ":" v EmptyString) as Hjoin.
  unfold split_on. rewrite Hv in *. simpl.
  rewrite append_nil_l in Hjoin.
  change (match rest0 with
          | [] => p0
          | _ :: _ => p0 +:+ ":" +:+ join ":" rest0
          end) with (join ":" (p0 :: rest0)).
  rewrite Hjoin. unfold obj_set. rewrite decide_False by exact Hproto. reflexivity.
Qed.

Lemma add_header_ignored (h : string) (hs : gmap string string) :
  ignored_header h -> add_header (Some h) hs = hs.
Proof.
  intros [Hno | [[v Hv] | (k & v & Hh & Hk & Hproto)]]; unfold add_header.
  - destruct (truthy (remove_quotes h)); [| reflexivity].
    unfold split_on. rewrite split_on_from_no_sep by exact Hno.
    cbn [List.length]. rewrite andb_false_r. reflexivity.
  - rewrite Hv. reflexivity.
  - rewrite Hh. destruct (truthy (k +:+ String ":" v)); [| reflexivity].
    unfold split_on. rewrite split_on_from_prefix, append_nil_l by exact Hk.
    destruct (truthy k && _); [| reflexivity].
    unfold obj_set. rewrite decide_True by exact Hproto. reflexivity.
Qed.

(** X2. In a command within ASCII, of two header flags the later one wins
    on a shared name, and
    both entries stand when the names differ: with no header flag between
    and behind them, the mapping holds the second entry, and the first
    one too unless the second has the same name. *)
Theorem header_last_write_wins :
  forall (json : Type) (JSON_parse : string -> option json)
         (cmd : string) (d : descriptor json)
         (pre mid post : list string) (f1 h1 f2 h2 k1 v1 k2 v2 : string),
    ascii_only cmd = true ->
    parseCurlCommand JSON_parse cmd = inr d ->
    split_ws cmd = pre ++ f1 :: h1 :: mid ++ f2 :: h2 :: post ->
    aligned pre = true -> aligned mid = true ->
    is_header_flag f1 = true -> is_header_flag f2 = true ->
    Forall (fun p => is_header_flag p = false) mid ->
    Forall (fun p => is_header_flag p = false) post ->
    remove_quotes h1 = k1 +:+ String ":" v1 -> has_colon k1 = false ->
    k1 <> EmptyString -> trim k1 <> "__proto__" ->
    remove_quotes h2 = k2 +:+ String ":" v2 -> has_colon k2 = false ->
    k2 <> EmptyString -> trim k2 <> "__proto__" ->
    headers d !! trim k2 = Some (trim v2)
    /\ (trim k1 <> trim k2 -> headers d !! trim k1 = Some (trim v1)).
Proof.
  intros json JSON_parse cmd d pre mid post f1 h1 f2 h2 k1 v1 k2 v2
         _ Hd Hsplit Hpre Hmid Hf1 Hf2 Hnomid Hnopost Hh1 Hk1 Hk10 Hp1 Hh2 Hk2 Hk20 Hp2.
  apply parse_inr in Hd. subst d.
  rewrite Hsplit, walk_app by exact Hpre.
  rewrite walk_header_flag by exact Hf1.
  rewrite walk_app by exact Hmid.
  rewrite walk_header_flag by exact Hf2.
  rewrite walk_headers_unchanged by exact Hnopost.
  cbn [headers with_headers].
  rewrite walk_headers_unchanged by exact Hnomid.
  cbn [headers with_headers].
  rewrite (add_header_entry h2 k2 v2) by assumption.
  rewrite (add_header_entry h1 k1 v1) by assumption.
  split.
  - apply lookup_insert_eq.
  - intros Hne. rewrite lookup_insert_ne by congruence. apply lookup_insert_eq.
Qed.

Lemma header_last_write_wins_witness :
  let cmd := "curl -H 'Accept:text/plain' http://h/x -H Accept:*/* -v" in
  let JSON_parse := fun _ : string => @None unit in
  ascii_only cmd = true
  /\ parseCurlCommand JSON_parse cmd =
    inr {| url := "http://h/x"; method := "GET";
           headers := {["Accept" := "*/*"]}; body := BodyUndefined |}
  /\ ({["Accept" := "*/*"]} : gmap string string) !! trim "Accept" = Some (trim "*/*").
Proof.
  intros cmd JSON_parse. split; [reflexivity |].
  assert (Hd : parseCurlCommand JSON_parse cmd =
    inr {| url := "http://h/x"; method := "GET";
           headers := {["Accept" := "*/*"]}; body := BodyUndefined |})
    by (vm_compute; reflexivity).
  split; [exact Hd |].
  eapply proj1.
  apply (header_last_write_wins unit JSON_parse cmd _
           ["curl"] ["http://h/x"] ["-v"] "-H" "'Accept:text/plain'" "-H" "Accept:*/*"
           "Accept" "text/plain" "Accept" "*/*" eq_refl Hd);
    first [reflexivity | discriminate | repeat constructor].
Defined.

(** X3. In a command within ASCII a header token the header branch
    passes over (no colon, nothing before the first colon, or the name
    [__proto__]) leaves no trace: the command parses as it does without
    the flag and that token. *)
Theorem ignored_header_leaves_no_trace :
  forall (json : Type) (JSON_parse : string -> option json)
         (cmd cmd' : string) (pre post : list string) (f h : string),
    ascii_only cmd = true ->
    ascii_only cmd' = true ->
    split_ws cmd = pre ++ f :: h :: post ->
    split_ws cmd' = pre ++ post ->
    aligned pre = true ->
    is_header_flag f = true ->
    ignored_header h ->
    parseCurlCommand JSON_parse cmd = parseCurlCommand JSON_parse cmd'.
Proof.
  intros json JSON_parse cmd cmd' pre post f h _ _ Hsplit Hsplit' Hpre Hf Hh.
  unfold parseCurlCommand. rewrite Hsplit, Hsplit'.
  rewrite !walk_app by exact Hpre.
  rewrite walk_header_flag by exact Hf.
  rewrite add_header_ignored by exact Hh.
  destruct (walk JSON_parse init pre) as [u m hs b]. reflexivity.
Qed.

Lemma ignored_header_leaves_no_trace_witness :
  let JSON_parse := fun _ : string => @None unit in
  ignored_header "'Accept'"
  /\ parseCurlCommand JSON_parse "curl -H 'Accept' http://h/x"
     = parseCurlCommand JSON_parse "curl http://h/x".
Proof.
  intros JSON_parse.
  assert (Hh : ignored_header "'Accept'") by (left; reflexivity).
  split; [exact Hh |].
  apply (ignored_header_leaves_no_trace unit JSON_parse _ _ ["curl"] ["http://h/x"]
           "-H" "'Accept'"); try reflexivity. exact Hh.
Defined.

(** *** White space and letter case *)

Lemma has_space_app (s t : string) :
  has_space (s +:+ t) = has_space s || has_space t.
Proof.
  induction s as [| c s IH]; [reflexivity |].
  rewrite append_cons. simpl. rewrite IH. apply orb_assoc.
Qed.

Lemma has_space_remove_quotes (s : string) :
  has_space s = false -> has_space (remove_quotes s) = false.
Proof.
  induction s as [| c s IH]; [reflexivity |].
  simpl. intros H. apply orb_false_elim in H as [Hc Hs].
  destruct (is_quote c); [apply IH, Hs |].
  simpl. rewrite Hc, (IH Hs). reflexivity.
Qed.

Lemma has_space_strip_trailing (s : string) :
  has_space s = false -> has_space (strip_trailing_quote s) = false.
Proof.
  induction s as [| c s IH]; [reflexivity |].
  intros H. simpl in H. apply orb_false_elim in H as [Hc Hs].
  destruct s as [| c' s'].
  - simpl. destruct (is_quote c); [reflexivity |]. simpl. rewrite Hc. reflexivity.
  - change (strip_trailing_quote (String c (String c' s')))
      with (String c (strip_trailing_quote (String c' s'))).
    specialize (IH Hs). remember (strip_trailing_quote (String c' s')) as r.
    simpl. rewrite Hc, IH. reflexivity.
Qed.

Lemma has_space_strip_wrapping (s : string) :
  has_space s = false -> has_space (strip_wrapping_quotes s) = false.
Proof.
  intros H. apply has_space_strip_trailing.
  destruct s as [| c s]; [reflexivity |].
  simpl in *. apply orb_false_elim in H as [Hc Hs].
  destruct (is_quote c); [exact Hs |]. simpl. rewrite Hc, Hs. reflexivity.
Qed.

Lemma is_space_upper_char (c : ascii) : is_space (upper_char c) = is_space c.
Proof. destruct c as [[] [] [] [] [] [] [] []]; reflexivity. Qed.

Lemma has_space_toUpperCase (s : string) : has_space (toUpperCase s) = has_space s.
Proof.
  induction s as [| c s IH]; [reflexivity |].
  simpl. rewrite is_space_upper_char, IH. reflexivity.
Qed.

Lemma upper_char_not_lower (c : ascii) :
  has_lower (String (upper_char c) EmptyString) = false.
Proof. destruct c as [[] [] [] [] [] [] [] []]; reflexivity. Qed.

Lemma has_lower_toUpperCase (s : string) : has_lower (toUpperCase s) = false.
Proof.
  induction s as [| c s IH]; [reflexivity |].
  pose proof (upper_char_not_lower c) as Hc. simpl in *.
  rewrite orb_false_r in Hc. rewrite Hc, IH. reflexivity.
Qed.

Lemma toUpperCase_fixed (s : string) : has_lower s = false -> toUpperCase s = s.
Proof.
  induction s as [| c s IH]; [reflexivity |].
  simpl. intros H. apply orb_false_elim in H as [Hc Hs].
  rewrite (IH Hs). unfold upper_char. rewrite Hc. reflexivity.
Qed.

Lemma split_on_space_free (header key : string) (valueParts : list string) :
  has_space header = false ->
  split_on ":" header = key :: valueParts ->
  has_space key = false /\ has_space (join ":" valueParts) = false.
Proof.
  intros Hq Hsplit.
  pose proof (join_split_on_from ":" header EmptyString) as Hjoin.
  fold (split_on ":" header) in Hjoin. rewrite Hsplit, append_nil_l in Hjoin.
  destruct valueParts as [| v vs].
  - simpl in Hjoin. subst key. split; [exact Hq | reflexivity].
  - change (join ":" (key :: v :: vs)) with (key +:+ ":" +:+ join ":" (v :: vs)) in Hjoin.
    rewrite <- Hjoin in Hq. rewrite !has_space_app in Hq.
    apply orb_false_elim in Hq as [Hk Hq]. apply orb_false_elim in Hq as [_ Hv].
    split; assumption.
Qed.

Lemma add_header_space_free (t : string) (hs : gmap string string) :
  has_space t = false ->
  (forall k v, hs !! k = Some v -> has_space k = false /\ has_space v = false) ->
  forall k v, add_header (Some t) hs !! k = Some v ->
              has_space k = false /\ has_space v = false.
Proof.
  intros Ht Hhs k v. unfold add_header.
  destruct (truthy (remove_quotes t)); [| apply Hhs].
  destruct (split_on ":" (remove_quotes t)) as [| key valueParts] eqn:Hsplit; [apply Hhs |].
  destruct (truthy key && (0 <? List.length valueParts)%nat); [| apply Hhs].
  destruct (split_on_space_free _ _ _ (has_space_remove_quotes t Ht) Hsplit) as [Hk Hv].
  unfold obj_set. case_decide; [apply Hhs |].
  rewrite lookup_insert. case_decide as Heq.
  - intros [= <-]. subst k. rewrite !trim_no_space by assumption. split; assumption.
  - apply Hhs.
Qed.

Section WithJson.
Context {json : Type} (JSON_parse : string -> option json).

Ltac space_free_fields :=
  unfold space_free;
  cbn [url method headers body with_method with_headers with_body];
  refine (conj _ (conj _ (conj _ _))); try assumption.

Lemma walk_space_free (parts : list string) :
  Forall (fun t => has_space t = false) parts ->
  forall st : descriptor json,
    space_free st -> space_free (walk JSON_parse st parts).
Proof.
  induction parts as [| p rest IH1 IH2] using token_list_ind; intros Hparts st Hst.
  - exact Hst.
  - apply Forall_cons in Hparts as [Hp Hrest]. simpl.
    destruct (String.eqb p "curl"); [apply IH1; assumption |].
    destruct Hst as (Hu & Hm & Hh & Hb).
    destruct (is_method_flag p).
    { destruct rest as [| t rest']; [space_free_fields; reflexivity |].
      apply Forall_cons in Hrest as [Ht Hrest']. apply (IH2 t rest' eq_refl Hrest').
      space_free_fields. unfold method_of.
      destruct (truthy (toUpperCase t)); [| reflexivity].
      rewrite has_space_toUpperCase. exact Ht. }
    destruct (is_header_flag p).
    { destruct rest as [| t rest']; [space_free_fields |].
      apply Forall_cons in Hrest as [Ht Hrest']. apply (IH2 t rest' eq_refl Hrest').
      space_free_fields. apply (add_header_space_free t _ Ht Hh). }
    destruct (is_data_flag p).
    { destruct rest as [| t rest']; [space_free_fields |].
      apply Forall_cons in Hrest as [Ht Hrest']. apply (IH2 t rest' eq_refl Hrest').
      space_free_fields.
      intros s. unfold set_body.
      destruct (truthy (strip_wrapping_quotes t)); [| apply Hb].
      destruct (JSON_parse _); [discriminate |].
      intros [= <-]. apply has_space_strip_wrapping, Ht. }
    apply (IH1 Hrest). unfold set_url.
    destruct (negb (startsWith_dash p) && negb (truthy (url st)));
      space_free_fields.
    apply has_space_remove_quotes, Hp.
Qed.

Lemma walk_method_upper (parts : list string) :
  forall st : descriptor json,
    has_lower (method st) = false /\ method st <> EmptyString ->
    has_lower (method (walk JSON_parse st parts)) = false
    /\ method (walk JSON_parse st parts) <> EmptyString.
Proof.
  intros st Hst. rewrite walk_fields. cbn [method].
  revert Hst. generalize (method st).
  induction (flag_args is_method_flag parts) as [| a l IH]; intros m Hm; [exact Hm |].
  simpl. apply IH. unfold method_of.
  destruct a as [t |]; [| split; [reflexivity | discriminate]].
  destruct (truthy (toUpperCase t)) eqn:Ht; [| split; [reflexivity | discriminate]].
  split; [apply has_lower_toUpperCase | apply truthy_true, Ht].
Qed.

End WithJson.

(** *** Within ASCII

    What the parser makes of a command within ASCII is within ASCII. *)

Lemma ascii_only_app (s t : string) :
  ascii_only (s +:+ t) = ascii_only s && ascii_only t.
Proof.
  induction s as [| c s IH]; [reflexivity |].
  rewrite append_cons. simpl. rewrite IH. apply andb_assoc.
Qed.

Lemma ascii_only_remove_quotes (s : string) :
  ascii_only s = true -> ascii_only (remove_quotes s) = true.
Proof.
  induction s as [| c s IH]; [reflexivity |].
  simpl. intros H. apply andb_prop in H as [Hc Hs].
  destruct (is_quote c); [apply IH, Hs |].
  simpl. rewrite Hc, (IH Hs). reflexivity.
Qed.

Lemma ascii_only_strip_trailing (s : string) :
  ascii_only s = true -> ascii_only (strip_trailing_quote s) = true.
Proof.
  induction s as [| c s IH]; [reflexivity |].
  intros H. simpl in H. apply andb_prop in H as [Hc Hs].
  destruct s as [| c' s'].
  - simpl. destruct (is_quote c); [reflexivity |]. simpl. rewrite Hc. reflexivity.
  - change (strip_trailing_quote (String c (String c' s')))
      with (String c (strip_trailing_quote (String c' s'))).
    specialize (IH Hs). remember (strip_trailing_quote (String c' s')) as r.
    simpl. rewrite Hc, IH. reflexivity.
Qed.

Lemma ascii_only_strip_wrapping (s : string) :
  ascii_only s = true -> ascii_only (strip_wrapping_quotes s) = true.
Proof.
  intros H. apply ascii_only_strip_trailing.
  destruct s as [| c s]; [reflexivity |].
  simpl in *. apply andb_prop in H as [Hc Hs].
  destruct (is_quote c); [exact Hs |]. simpl. rewrite Hc, Hs. reflexivity.
Qed.

Lemma ascii_only_trim (s : string) :
  ascii_only s = true -> ascii_only (trim s) = true.
Proof.
  intros H. unfold trim.
  assert (Hstart : ascii_only (trimStart s) = true).
  { induction s as [| c s IH]; [reflexivity |].
    simpl. destruct (is_space c); [| exact H].
    simpl in H. apply andb_prop in H as [_ Hs]. apply IH, Hs. }
  clear H. induction (trimStart s) as [| c r IH]; [reflexivity |].
  simpl in *. apply andb_prop in Hstart as [Hc Hr].
  destruct (is_space c && negb (truthy (trimEnd r))); [reflexivity |].
  simpl. rewrite Hc, (IH Hr). reflexivity.
Qed.

Lemma is_ascii_upper_char (c : ascii) : is_ascii (upper_char c) = is_ascii c.
Proof. destruct c as [[] [] [] [] [] [] [] []]; reflexivity. Qed.

Lemma ascii_only_toUpperCase (s : string) :
  ascii_only (toUpperCase s) = ascii_only s.
Proof.
  induction s as [| c s IH]; [reflexivity |].
  simpl. rewrite is_ascii_upper_char, IH. reflexivity.
Qed.

Lemma split_on_ascii (header key : string) (valueParts : list string) :
  ascii_only header = true ->
  split_on ":" header = key :: valueParts ->
  ascii_only key = true /\ ascii_only (join ":" valueParts) = true.
Proof.
  intros Hq Hsplit.
  pose proof (join_split_on_from ":" header EmptyString) as Hjoin.
  fold (split_on ":" header) in Hjoin. rewrite Hsplit, append_nil_l in Hjoin.
  destruct valueParts as [| v vs].
  - simpl in Hjoin. subst key. split; [exact Hq | reflexivity].
  - change (join ":" (key :: v :: vs)) with (key +:+ ":" +:+ join ":" (v :: vs)) in Hjoin.
    rewrite <- Hjoin in Hq. rewrite !ascii_only_app in Hq.
    apply andb_prop in Hq as [Hk Hq]. apply andb_prop in Hq as [_ Hv].
    split; assumption.
Qed.

Lemma split_ws_from_ascii (s cur : string) (in_run : bool) :
  ascii_only cur = true -> ascii_only s = true ->
  Forall (fun t => ascii_only t = true) (split_ws_from cur in_run s).
Proof.
  revert cur in_run. induction s as [| c s IH]; intros cur in_run Hcur Hs; simpl.
  - repeat constructor. exact Hcur.
  - simpl in Hs. apply andb_prop in Hs as [Hc Hs].
    destruct (is_space c).
    + destruct in_run; [apply IH; assumption |].
      constructor; [exact Hcur | apply IH; [reflexivity | exact Hs]].
    + apply IH; [| exact Hs]. rewrite ascii_only_app, Hcur. simpl.
      rewrite Hc. reflexivity.
Qed.

Lemma split_ws_ascii (s : string) :
  ascii_only s = true -> Forall (fun t => ascii_only t = true) (split_ws s).
Proof. apply split_ws_from_ascii. reflexivity. Qed.

Lemma add_header_ascii (t : string) (hs : gmap string string) :
  ascii_only t = true ->
  (forall k v, hs !! k = Some v -> ascii_only k = true /\ ascii_only v = true) ->
  forall k v, add_header (Some t) hs !! k = Some v ->
              ascii_only k = true /\ ascii_only v = true.
Proof.
  intros Ht Hhs k v. unfold add_header.
  destruct (truthy (remove_quotes t)); [| apply Hhs].
  destruct (split_on ":" (remove_quotes t)) as [| key valueParts] eqn:Hsplit; [apply Hhs |].
  destruct (truthy key && (0 <? List.length valueParts)%nat); [| apply Hhs].
  destruct (split_on_ascii _ _ _ (ascii_only_remove_quotes t Ht) Hsplit) as [Hk Hv].
  unfold obj_set. case_decide; [apply Hhs |].
  rewrite lookup_insert. case_decide as Heq.
  - intros [= <-]. subst k. split; apply ascii_only_trim; assumption.
  - apply Hhs.
Qed.

Section WithJson.
Context {json : Type} (JSON_parse : string -> option json).

Ltac within_ascii_fields :=
  unfold within_ascii;
  cbn [url method headers body with_method with_headers with_body];
  refine (conj _ (conj _ (conj _ _))); try assumption.

Lemma walk_within_ascii (parts : list string) :
  Forall (fun t => ascii_only t = true) parts ->
  forall st : descriptor json,
    within_ascii st -> within_ascii (walk JSON_parse st parts).
Proof.
  induction parts as [| p rest IH1 IH2] using token_list_ind; intros Hparts st Hst.
  - exact Hst.
  - apply Forall_cons in Hparts as [Hp Hrest]. simpl.
    destruct (String.eqb p "curl"); [apply IH1; assumption |].
    destruct Hst as (Hu & Hm & Hh & Hb).
    destruct (is_method_flag p).
    { destruct rest as [| t rest']; [within_ascii_fields; reflexivity |].
      apply Forall_cons in Hrest as [Ht Hrest']. apply (IH2 t rest' eq_refl Hrest').
      within_ascii_fields. unfold method_of.
      destruct (truthy (toUpperCase t)); [| reflexivity].
      rewrite ascii_only_toUpperCase. exact Ht. }
    destruct (is_header_flag p).
    { destruct rest as [| t rest']; [within_ascii_fields |].
      apply Forall_cons in Hrest as [Ht Hrest']. apply (IH2 t rest' eq_refl Hrest').
      within_ascii_fields. apply (add_header_ascii t _ Ht Hh). }
    destruct (is_data_flag p).
    { destruct rest as [| t rest']; [within_ascii_fields |].
      apply Forall_cons in Hrest as [Ht Hrest']. apply (IH2 t rest' eq_refl Hrest').
      within_ascii_fields.
      intros s. unfold set_body.
      destruct (truthy (strip_wrapping_quotes t)); [| apply Hb].
      destruct (JSON_parse _); [discriminate |].
      intros [= <-]. apply ascii_only_strip_wrapping, Ht. }
    apply (IH1 Hrest). unfold set_url.
    destruct (negb (startsWith_dash p) && negb (truthy (url st)));
      within_ascii_fields.
    apply ascii_only_remove_quotes, Hp.
Qed.

End WithJson.

(** X4. No white space of a command within ASCII survives the parser:
    the URL, the method, every header name and value and a body kept as
    a string are within ASCII and hold none of its white space, since
    every token is so (a header value made of two words, as in an
    authorization header, cannot be given). *)
Theorem parsed_descriptor_has_no_white_space :
  forall (json : Type) (JSON_parse : string -> option json)
         (cmd : string) (d : descriptor json),
    ascii_only cmd = true ->
    parseCurlCommand JSON_parse cmd = inr d ->
    (has_space (url d) = false
     /\ has_space (method d) = false
     /\ (forall k v, headers d !! k = Some v ->
                     has_space k = false /\ has_space v = false)
     /\ (forall s, body d = BodyRaw s -> has_space s = false))
    /\ within_ascii d.
Proof.
  intros json JSON_parse cmd d Hcmd Hd. apply parse_inr in Hd. subst d.
  split.
  - apply (walk_space_free JSON_parse _ (split_ws_no_space cmd)).
    refine (conj _ (conj _ (conj _ _))); try reflexivity.
    + intros k v H. simpl in H. rewrite lookup_empty in H. discriminate.
    + discriminate.
  - apply (walk_within_ascii JSON_parse _ (split_ws_ascii cmd Hcmd)).
    refine (conj _ (conj _ (conj _ _))); try reflexivity.
    + intros k v H. simpl in H. rewrite lookup_empty in H. discriminate.
    + discriminate.
Qed.

Lemma parsed_descriptor_has_no_white_space_witness :
  let cmd := "curl -H 'Authorization: Bearer abc' http://h/x" in
  let JSON_parse := fun _ : string => @None unit in
  ascii_only cmd = true
  /\ parseCurlCommand JSON_parse cmd =
    inr {| url := "Bearer"; method := "GET";
           headers := {["Authorization" := EmptyString]}; body := BodyUndefined |}
  /\ has_space "Bearer" = false.
Proof.
  intros cmd JSON_parse. split; [reflexivity |].
  assert (Hd : parseCurlCommand JSON_parse cmd =
    inr {| url := "Bearer"; method := "GET";
           headers := {["Authorization" := EmptyString]}; body := BodyUndefined |})
    by (vm_compute; reflexivity).
  split; [exact Hd |].
  exact (proj1 (proj1 (parsed_descriptor_has_no_white_space unit JSON_parse cmd _
                         eq_refl Hd))).
Defined.

(** X5. The method parsed from a command within ASCII is never empty and
    holds no lower-case letter, so upper-casing it again changes
    nothing. *)
Theorem parsed_method_is_upper_case :
  forall (json : Type) (JSON_parse : string -> option json)
         (cmd : string) (d : descriptor json),
    ascii_only cmd = true ->
    parseCurlCommand JSON_parse cmd = inr d ->
    method d <> EmptyString
    /\ has_lower (method d) = false
    /\ toUpperCase (method d) = method d.
Proof.
  intros json JSON_parse cmd d _ Hd. apply parse_inr in Hd. subst d.
  destruct (walk_method_upper JSON_parse (split_ws cmd) init) as [Hlow Hne].
  { split; [reflexivity | discriminate]. }
  split; [exact Hne |]. split; [exact Hlow | apply toUpperCase_fixed, Hlow].
Qed.

Lemma parsed_method_is_upper_case_witness :
  let cmd := "curl --request pAtch http://h/x" in
  let JSON_parse := fun _ : string => @None unit in
  ascii_only cmd = true
  /\ parseCurlCommand JSON_parse cmd =
    inr {| url := "http://h/x"; method := "PATCH"; headers := ∅; body := BodyUndefined |}
  /\ toUpperCase "PATCH" = "PATCH".
Proof.
  intros cmd JSON_parse. split; [reflexivity |].
  assert (Hd : parseCurlCommand JSON_parse cmd =
    inr {| url := "http://h/x"; method := "PATCH"; headers := ∅; body := BodyUndefined |})
    by (vm_compute; reflexivity).
  split; [exact Hd |].
  exact (proj2 (proj2 (parsed_method_is_upper_case unit JSON_parse cmd _ eq_refl Hd))).
Defined.

(** *** Tokens and single spaces *)

Lemma split_ws_from_piece (p s cur : string) (in_run : bool) :
  has_space p = false ->
  split_ws_from cur in_run (p +:+ s) =
    split_ws_from (cur +:+ p) (if truthy p then false else in_run) s.
Proof.
  revert cur in_run. induction p as [| c p IH]; intros cur in_run Hp.
  - rewrite append_nil_l, append_nil_r. reflexivity.
  - simpl in Hp. apply orb_false_elim in Hp as [Hc Hp].
    rewrite append_cons. simpl. rewrite Hc, (IH _ _ Hp), append_assoc.
    destruct (truthy p); reflexivity.
Qed.

Lemma split_ws_from_join (l : list string) :
  forall in_run : bool,
    l <> [] ->
    forallb (fun p => negb (has_space p)) l = true ->
    (if in_run then inner_pieces_ok l
     else match l with _ :: (_ :: _) as rest => inner_pieces_ok rest | _ => true end) = true ->
    split_ws_from EmptyString in_run (join " " l) = l.
Proof.
  induction l as [| p rest IH]; intros in_run Hne Hsp Hok; [congruence |].
  simpl in Hsp. apply andb_prop in Hsp as [Hp Hrest]. apply negb_true_iff in Hp.
  destruct rest as [| q rest'].
  - simpl. rewrite <- (append_nil_r p) at 1.
    rewrite split_ws_from_piece by exact Hp. rewrite append_nil_l. reflexivity.
  - change (join " " (p :: q :: rest')) with (p +:+ " " +:+ join " " (q :: rest')).
    rewrite split_ws_from_piece by exact Hp. rewrite append_nil_l.
    assert (Hrun : (if truthy p then false else in_run) = false).
    { destruct in_run; [| destruct (truthy p); reflexivity].
      simpl in Hok. apply andb_prop in Hok as [-> _]. reflexivity. }
    rewrite Hrun.
    change (" " +:+ join " " (q :: rest')) with (String " " (join " " (q :: rest'))).
    simpl split_ws_from. f_equal.
    apply IH; [discriminate | exact Hrest |].
    destruct in_run; simpl in Hok.
    + apply andb_prop in Hok as [_ Hok]. exact Hok.
    + exact Hok.
Qed.

(** X6. Tokens within ASCII joined by single spaces are split back into
    the same tokens, provided none holds white space and none but the
    first and the last is empty; the parser then walks exactly these
    tokens. *)
Theorem split_ws_join :
  forall (json : Type) (JSON_parse : string -> option json) (l : list string),
    forallb ascii_only l = true ->
    pieces_ok l = true ->
    split_ws (join " " l) = l
    /\ parseCurlCommand JSON_parse (join " " l) =
       (let st := walk JSON_parse init l in
        if negb (truthy (url st)) then inl "No URL found in CURL command" else inr st).
Proof.
  intros json JSON_parse l _ Hok.
  assert (Hsplit : split_ws (join " " l) = l).
  { unfold pieces_ok in Hok. apply andb_prop in Hok as [Hsp Hin].
    apply split_ws_from_join; [destruct l; [discriminate | discriminate] | exact Hsp |].
    destruct l as [| p [| q rest]]; [discriminate | reflexivity | exact Hin]. }
  split; [exact Hsplit |].
  unfold parseCurlCommand. rewrite Hsplit. reflexivity.
Qed.

Lemma split_ws_join_witness :
  forallb ascii_only [EmptyString; "curl"; "-X"; "put"; "http://h/x"; EmptyString] = true
  /\ pieces_ok [EmptyString; "curl"; "-X"; "put"; "http://h/x"; EmptyString] = true
  /\ split_ws " curl -X put http://h/x "
     = [EmptyString; "curl"; "-X"; "put"; "http://h/x"; EmptyString].
Proof.
  split; [reflexivity |]. split; [reflexivity |].
  exact (proj1 (split_ws_join unit (fun _ => None)
                  [EmptyString; "curl"; "-X"; "put"; "http://h/x"; EmptyString]
                  eq_refl eq_refl)).
Defined.

End ParserExtras.

(** ** Properties of makeHttpRequest and of the curl_request tool *)

Module ExecutorExtras.
Import JS Curl CurlArgs CurlFacts Executor.

Lemma sends_body_spec (m : string) :
  sends_body m = true <-> toUpperCase m ∈ ["POST"; "PUT"; "PATCH"].
Proof.
  unfold sends_body. rewrite existsb_exists. split.
  - intros (x & Hin & Heq). apply String.eqb_eq in Heq. subst x.
    apply list_elem_of_In. exact Hin.
  - intros Hin. exists (toUpperCase m). split.
    + apply list_elem_of_In. exact Hin.
    + apply String.eqb_refl.
Qed.

Section Exec.
Context {json : Type}.
Context (json_truthy : json -> bool).
Context (json_string : json -> option string).
Context (JSON_stringify : json -> string).
Context (signal_accepts : Z -> bool).

Local Abbreviation make_requestInit :=
  (make_requestInit json_truthy json_string JSON_stringify signal_accepts).
Local Abbreviation body_truthy := (body_truthy json_truthy).
Local Abbreviation body_string := (body_string json_string).

(** The fields of the result that do not depend on the body. *)
Lemma make_requestInit_basics (also_lower : bool) (cfg : config json) (init : requestInit) :
  make_requestInit also_lower cfg = Some init ->
  ri_method init = toUpperCase (default "GET" (c_method cfg))
  /\ ri_timeout init = default 30000%Z (c_timeout cfg)
  /\ signal_accepts (ri_timeout init) = true.
Proof.
  unfold Executor.make_requestInit.
  destruct (signal_accepts _) eqn:Hsig; [| discriminate].
  destruct (_ && _).
  - destruct (Executor.body_string _ _); intros [= <-]; repeat split; exact Hsig.
  - intros [= <-]. repeat split; exact Hsig.
Qed.

End Exec.

(** X7. A request carries a body exactly when the body given is truthy
    and the upper-cased method is POST, PUT or PATCH; a body given with
    any other method is dropped without notice. A string goes out as it
    is, any other value through [JSON.stringify]. *)
Theorem body_sent_only_with_post_put_patch :
  forall (json : Type) (json_truthy : json -> bool)
         (json_string : json -> option string) (JSON_stringify : json -> string)
         (signal_accepts : Z -> bool) (also_lower : bool)
         (cfg : config json) (init : requestInit),
    make_requestInit json_truthy json_string JSON_stringify signal_accepts also_lower cfg
      = Some init ->
    (is_Some (ri_body init) <->
       body_truthy json_truthy (c_body cfg) = true
       /\ ri_method init ∈ ["POST"; "PUT"; "PATCH"])
    /\ (forall text, ri_body init = Some text ->
          match body_string json_string (c_body cfg) with
          | Some s => text = s
          | None => exists v, c_body cfg = BodyJson v /\ text = JSON_stringify v
          end).
Proof.
  intros json json_truthy json_string JSON_stringify signal_accepts also_lower cfg init.
  unfold make_requestInit.
  destruct (signal_accepts _); [| discriminate].
  destruct (body_truthy json_truthy (c_body cfg)) eqn:Ht; simpl.
  - destruct (sends_body (default "GET" (c_method cfg))) eqn:Hs.
    + pose proof (proj1 (sends_body_spec _) Hs) as Hin.
      destruct (body_string json_string (c_body cfg)) as [s |] eqn:Hstr.
      * intros [= <-]. simpl. split.
        -- split; [intros _; split; [reflexivity | exact Hin] | intros _; eauto].
        -- intros text [= <-]. reflexivity.
      * intros [= <-]. simpl.
        destruct (c_body cfg) as [| v | s]; try discriminate. split.
        -- split; [intros _; split; [reflexivity | exact Hin] | intros _; eauto].
        -- intros text [= <-]. eauto.
    + intros [= <-]. simpl. split.
      * split; [intros [x Hx]; discriminate |].
        intros [_ Hin]. apply sends_body_spec in Hin. congruence.
      * intros text Htext. discriminate.
  - intros [= <-]. simpl. split.
    + split; [intros [x Hx]; discriminate | intros [Hf _]; discriminate].
    + intros text Htext. discriminate.
Qed.

Lemma body_sent_only_with_post_put_patch_witness :
  let cfg := {| c_url := "http://h/x"; c_method := Some "delete";
                c_headers := None; c_body := BodyRaw (json := unit) "a=1";
                c_timeout := None |} in
  let init := {| ri_method := "DELETE";
                 ri_headers := {["User-Agent" := userAgent]};
                 ri_body := None; ri_timeout := 30000 |} in
  make_requestInit (fun _ => true) (fun _ => None) (fun _ => "null") (fun _ => true)
    false cfg = Some init
  /\ ~ "DELETE" ∈ ["POST"; "PUT"; "PATCH"].
Proof.
  intros cfg init.
  assert (H : make_requestInit (fun _ => true) (fun _ => None) (fun _ => "null")
                (fun _ => true) false cfg = Some init) by (vm_compute; reflexivity).
  split; [exact H |].
  destruct (body_sent_only_with_post_put_patch unit _ _ _ _ _ _ _ H) as [Hiff _].
  intros Hin. destruct (proj2 Hiff (conj eq_refl Hin)) as [x Hx]. discriminate Hx.
Defined.

(** X8. The headers of the caller go out unchanged (a [Content-Type]
    that is empty apart), the [User-Agent] default is there unless the
    caller has one, and nothing else is added but that default and the
    default content type. *)
Theorem caller_headers_are_kept :
  forall (json : Type) (json_truthy : json -> bool)
         (json_string : json -> option string) (JSON_stringify : json -> string)
         (signal_accepts : Z -> bool) (also_lower : bool)
         (cfg : config json) (init : requestInit),
    make_requestInit json_truthy json_string JSON_stringify signal_accepts also_lower cfg
      = Some init ->
    let hs := default ∅ (c_headers cfg) in
    (forall k v, hs !! k = Some v ->
                 (k = "Content-Type" -> truthy v = true) ->
                 ri_headers init !! k = Some v)
    /\ (hs !! "User-Agent" = None -> ri_headers init !! "User-Agent" = Some userAgent)
    /\ (forall k v, ri_headers init !! k = Some v ->
                    hs !! k = Some v
                    \/ (k = "User-Agent" /\ v = userAgent)
                    \/ (k = "Content-Type" /\ v = "application/json")).
Proof.
  intros json json_truthy json_string JSON_stringify signal_accepts also_lower cfg init Hinit hs.
  assert (Hcases : ri_headers init = hs ∪ {["User-Agent" := userAgent]}
                   \/ (has_content_type also_lower hs = false /\
                       ri_headers init
                       = <["Content-Type" := "application/json"]> (hs ∪ {["User-Agent" := userAgent]}))).
  { revert Hinit. unfold make_requestInit. fold hs.
    destruct (signal_accepts _); [| discriminate].
    destruct (_ && _).
    - destruct (body_string _ _).
      + intros [= <-]. left. reflexivity.
      + intros [= <-]. simpl.
        destruct (has_content_type also_lower hs); [left | right; split]; reflexivity.
    - intros [= <-]. left. reflexivity. }
  assert (Hbase : forall k v, (hs ∪ {["User-Agent" := userAgent]}) !! k = Some v <->
                    hs !! k = Some v \/ (hs !! k = None /\ k = "User-Agent" /\ v = userAgent)).
  { intros k v. rewrite lookup_union_Some_raw, lookup_singleton_Some. split.
    - intros [Hk | (Hn & <- & <-)]; [left; exact Hk | right; repeat split; exact Hn].
    - intros [Hk | (Hn & -> & ->)]; [left; exact Hk | right; repeat split; exact Hn]. }
  split; [| split].
  - intros k v Hk Hct. destruct Hcases as [-> | [Hno ->]].
    + apply Hbase. left. exact Hk.
    + destruct (decide (k = "Content-Type")) as [-> | Hne].
      * exfalso. unfold has_content_type, header_truthy in Hno.
        rewrite Hk, (Hct eq_refl) in Hno. discriminate Hno.
      * rewrite lookup_insert_ne by congruence. apply Hbase. left. exact Hk.
  - intros Hua. destruct Hcases as [-> | [_ ->]].
    + apply Hbase. right. repeat split. exact Hua.
    + rewrite lookup_insert_ne by discriminate. apply Hbase. right. repeat split. exact Hua.
  - intros k v. destruct Hcases as [-> | [_ ->]].
    + intros Hk. apply Hbase in Hk as [Hk | (_ & -> & ->)]; [left; exact Hk | right; left; split; reflexivity].
    + rewrite lookup_insert. case_decide as Heq.
      * intros [= <-]. subst k. right. right. split; reflexivity.
      * intros Hk. apply Hbase in Hk as [Hk | (_ & -> & ->)]; [left; exact Hk | right; left; split; reflexivity].
Qed.

Lemma caller_headers_are_kept_witness :
  let cfg := {| c_url := "http://h/x"; c_method := Some "post";
                c_headers := Some {["X-Tag" := "a"]};
                c_body := BodyJson tt; c_timeout := Some 1000%Z |} in
  let init := {| ri_method := "POST";
                 ri_headers := {["X-Tag" := "a"; "User-Agent" := userAgent;
                                 "Content-Type" := "application/json"]};
                 ri_body := Some "null"; ri_timeout := 1000 |} in
  make_requestInit (fun _ => true) (fun _ => None) (fun _ => "null") (fun _ => true)
    false cfg = Some init
  /\ ri_headers init !! "X-Tag" = Some "a".
Proof.
  intros cfg init.
  assert (H : make_requestInit (fun _ => true) (fun _ => None) (fun _ => "null")
                (fun _ => true) false cfg = Some init) by (vm_compute; reflexivity).
  split; [exact H |].
  destruct (caller_headers_are_kept unit _ _ _ _ _ _ _ H) as [Hkept _].
  apply Hkept; [reflexivity | discriminate].
Defined.

(** X9. The default content type [application/json] is set exactly when
    a body that is not a string is sent and the caller gave no
    [Content-Type] that is not empty (in part_000 and part_002: nor a
    [content-type]); in every other case the entry [Content-Type] is the
    one of the caller. *)
Theorem default_content_type :
  forall (json : Type) (json_truthy : json -> bool)
         (json_string : json -> option string) (JSON_stringify : json -> string)
         (signal_accepts : Z -> bool) (also_lower : bool)
         (cfg : config json) (init : requestInit),
    make_requestInit json_truthy json_string JSON_stringify signal_accepts also_lower cfg
      = Some init ->
    let hs := default ∅ (c_headers cfg) in
    ri_headers init !! "Content-Type" =
      if body_truthy json_truthy (c_body cfg)
         && sends_body (default "GET" (c_method cfg))
         && negb (bool_decide (is_Some (body_string json_string (c_body cfg))))
         && negb (has_content_type also_lower hs)
      then Some "application/json"
      else hs !! "Content-Type".
Proof.
  intros json json_truthy json_string JSON_stringify signal_accepts also_lower cfg init Hinit hs.
  assert (Hbase : (hs ∪ {["User-Agent" := userAgent]}) !! "Content-Type" = hs !! "Content-Type").
  { destruct (hs !! "Content-Type") as [v |] eqn:Hv.
    - apply lookup_union_Some_raw. left. exact Hv.
    - apply lookup_union_None. split; [exact Hv | reflexivity]. }
  revert Hinit. unfold make_requestInit. fold hs.
  destruct (signal_accepts _); [| discriminate].
  destruct (body_truthy json_truthy (c_body cfg) && sends_body _); simpl.
  - destruct (body_string json_string (c_body cfg)) as [text |].
    + intros [= <-]. simpl. exact Hbase.
    + intros [= <-]. simpl.
      destruct (has_content_type also_lower hs); simpl; [exact Hbase |].
      apply lookup_insert_eq.
  - intros [= <-]. simpl. exact Hbase.
Qed.

Lemma default_content_type_witness :
  let cfg := {| c_url := "http://h/x"; c_method := Some "put";
                c_headers := Some {["Content-Type" := "text/plain"]};
                c_body := BodyJson tt; c_timeout := None |} in
  let init := {| ri_method := "PUT";
                 ri_headers := {["Content-Type" := "text/plain";
                                 "User-Agent" := userAgent]};
                 ri_body := Some "null"; ri_timeout := 30000 |} in
  make_requestInit (fun _ => true) (fun _ => None) (fun _ => "null") (fun _ => true)
    false cfg = Some init
  /\ ri_headers init !! "Content-Type" = Some "text/plain".
Proof.
  intros cfg init.
  assert (H : make_requestInit (fun _ => true) (fun _ => None) (fun _ => "null")
                (fun _ => true) false cfg = Some init) by (vm_compute; reflexivity).
  split; [exact H |].
  rewrite (default_content_type unit _ _ _ _ _ _ _ H). reflexivity.
Defined.

(** The two texts differ on a caller who writes the name in lower case:
    index.ts adds a second content type, part_000 does not. *)
Example lower_case_content_type :
  let cfg := {| c_url := "http://h/x"; c_method := Some "POST";
                c_headers := Some {["content-type" := "text/plain"]};
                c_body := BodyJson tt; c_timeout := None |} in
  let sent := fun also_lower =>
    match make_requestInit (fun _ => true) (fun _ => None) (fun _ => "null")
            (fun _ => true) also_lower cfg with
    | Some init => ri_headers init !! "Content-Type"
    | None => None
    end in
  sent false = Some "application/json" /\ sent true = None.
Proof. split; reflexivity. Qed.

(** X10. For a command within ASCII the [curl_request] tool makes no
    request when the parser rejects the command, and hands on the
    parser's message; when the parser accepts it, the request goes to the
    parsed URL with the parsed method (it is upper case already) and the
    timeout of the tool. *)
Theorem curl_request_follows_parser :
  forall (json : Type) (json_truthy : json -> bool)
         (json_string : json -> option string) (JSON_stringify : json -> string)
         (signal_accepts : Z -> bool) (JSON_parse : string -> option json)
         (also_lower : bool) (cmd : string) (timeout : Z),
    ascii_only cmd = true ->
    match curl_request json_truthy json_string JSON_stringify signal_accepts
            JSON_parse also_lower cmd timeout with
    | inl msg => parseCurlCommand JSON_parse cmd = inl msg
    | inr None =>
        signal_accepts timeout = false
        /\ exists d, parseCurlCommand JSON_parse cmd = inr d
    | inr (Some (u, init)) =>
        exists d, parseCurlCommand JSON_parse cmd = inr d
                  /\ u = url d /\ ri_method init = method d /\ ri_timeout init = timeout
    end.
Proof.
  intros json json_truthy json_string JSON_stringify signal_accepts JSON_parse
         also_lower cmd timeout _.
  unfold curl_request.
  destruct (parseCurlCommand JSON_parse cmd) as [msg | d] eqn:Hd; [reflexivity |].
  destruct (make_requestInit _ _ _ _ _ _) as [init |] eqn:Hinit.
  - exists d. split; [reflexivity |]. split; [reflexivity |].
    destruct (make_requestInit_basics _ _ _ _ _ _ _ Hinit) as (Hm & Ht & _).
    simpl in Hm, Ht. split; [| exact Ht].
    rewrite Hm. apply parse_inr in Hd. subst d.
    apply ParserExtras.toUpperCase_fixed.
    apply (ParserExtras.walk_method_upper JSON_parse (split_ws cmd) Curl.init).
    split; [reflexivity | discriminate].
  - split; [| exists d; reflexivity].
    revert Hinit. unfold make_requestInit. simpl.
    destruct (signal_accepts timeout); [| reflexivity].
    destruct (_ && _); [destruct (body_string _ _) |]; discriminate.
Qed.

Lemma curl_request_follows_parser_witness :
  let cmd := "curl -X put http://h/x" in
  let JSON_parse := fun _ : string => @None unit in
  ascii_only cmd = true
  /\ exists d, parseCurlCommand JSON_parse cmd = inr d /\ method d = "PUT".
Proof.
  intros cmd JSON_parse. split; [reflexivity |].
  pose proof (curl_request_follows_parser unit (fun _ => true) (fun _ => None)
                (fun _ => "null") (fun _ => true) JSON_parse true cmd 30000 eq_refl) as H.
  simpl in H. destruct H as (d & Hd & _ & Hm & _).
  exists d. split; [exact Hd | symmetry; exact Hm].
Defined.

(** X11. A command within ASCII with a data flag but no method flag is
    sent as GET and without its data: the tool never turns the presence
    of data into a POST. *)
Theorem data_without_method_flag_is_not_sent :
  forall (json : Type) (json_truthy : json -> bool)
         (json_string : json -> option string) (JSON_stringify : json -> string)
         (signal_accepts : Z -> bool) (JSON_parse : string -> option json)
         (also_lower : bool) (cmd : string) (timeout : Z)
         (u : string) (init : requestInit),
    ascii_only cmd = true ->
    Forall (fun p => is_method_flag p = false) (split_ws cmd) ->
    curl_request json_truthy json_string JSON_stringify signal_accepts
      JSON_parse also_lower cmd timeout = inr (Some (u, init)) ->
    ri_method init = "GET" /\ ri_body init = None.
Proof.
  intros json json_truthy json_string JSON_stringify signal_accepts JSON_parse
         also_lower cmd timeout u init _ Hnone.
  unfold curl_request.
  destruct (parseCurlCommand JSON_parse cmd) as [msg | d] eqn:Hd; [discriminate |].
  apply parse_inr in Hd.
  assert (Hm : method d = "GET").
  { subst d. rewrite walk_method_unchanged by exact Hnone. reflexivity. }
  unfold make_requestInit. simpl. rewrite Hm.
  destruct (signal_accepts timeout); [| discriminate].
  change (sends_body "GET") with false. rewrite andb_false_r.
  intros [= <- <-]. split; reflexivity.
Qed.

Lemma data_without_method_flag_is_not_sent_witness :
  let cmd := "curl http://h/x -d 'a=1'" in
  let init := {| ri_method := "GET"; ri_headers := {["User-Agent" := userAgent]};
                 ri_body := None; ri_timeout := 30000 |} in
  ascii_only cmd = true
  /\ curl_request (json := unit) (fun _ => true) (fun _ => None) (fun _ => "null")
    (fun _ => true) (fun _ => None) true cmd 30000 = inr (Some ("http://h/x", init))
  /\ ri_body init = None.
Proof.
  intros cmd init. split; [reflexivity |].
  assert (H : curl_request (json := unit) (fun _ => true) (fun _ => None) (fun _ => "null")
                (fun _ => true) (fun _ => None) true cmd 30000
              = inr (Some ("http://h/x", init))) by (vm_compute; reflexivity).
  split; [exact H |].
  assert (Hnone : Forall (fun p => is_method_flag p = false) (split_ws cmd)).
  { vm_compute. repeat constructor. }
  exact (proj2 (data_without_method_flag_is_not_sent unit _ _ _ _ _ _ cmd _ _ _
                  eq_refl Hnone H)).
Defined.

End ExecutorExtras.

(** ** Further properties of the handlers *)

Module HttpExtras.
Import JS Http Stated Events HttpFacts.

(** *** The registry under the callbacks *)

(** X12. A session that is started leaves its transport in the registry
    under the identifier the transport reports, in all four variants,
    unless the transport reports its closure afterwards. *)
Theorem new_session_is_registered :
  forall (transport json : Type) (JSON_parse : string -> option json)
         (response_accepts : Z -> gmap string string -> bool) (reg : gmap string transport)
         (w : world transport) (id : string) (pre post : list event),
    connect_error w = None ->
    events (conduct w) = pre ++ Do (Initialized id) :: post ->
    forallb (fun e => negb (is_closed e)) post = true ->
    let rq := {| sessionId := None; is_initialize := true |} in
    registry (IndexTs.post (json := json) response_accepts reg rq w) !! id = Some (fresh w)
    /\ registry (Part001.post (json := json) response_accepts reg rq w) !! id = Some (fresh w)
    /\ registry (Part000.post JSON_parse reg rq w) !! id = Some (fresh w)
    /\ registry (Part002.post JSON_parse reg rq w) !! id = Some (fresh w).
Proof.
  intros transport json JSON_parse response_accepts reg w id pre post Hc Hev Hpost rq.
  destruct (post_registry JSON_parse response_accepts reg rq w) as (H1 & H2 & H3 & H4).
  cbn zeta in H1, H2, H3, H4. rewrite H1, H2, H3, H4.
  assert (H : (fold_left (registry_step (fresh w)) (events (conduct w)) (reg, None)).1 !! id
              = Some (fresh w)).
  { rewrite Hev, fold_left_app. cbn [fold_left].
    apply registry_initialized; [exact Hpost |].
    simpl. unfold on_initialized. apply lookup_insert_eq. }
  change (classify reg rq) with (@Create transport). rewrite Hc.
  repeat split; exact H.
Qed.

Lemma new_session_is_registered_witness :
  let w := {| fresh := 7%nat; connect_error := None;
              conduct := {| sync := [];
                            later := [Do (Initialized "u-1"); Do (WriteHead 200 None);
                                      Do (End (Some "{}")); Fulfil] |} |} in
  events (conduct w) = [] ++ Do (Initialized "u-1")
                          :: [Do (WriteHead 200 None); Do (End (Some "{}")); Fulfil]
  /\ registry (IndexTs.post (json := unit) (fun _ _ => true) ∅
                 {| sessionId := None; is_initialize := true |} w) !! "u-1" = Some 7%nat.
Proof.
  intros w. split; [reflexivity |].
  exact (proj1 (new_session_is_registered nat unit (fun _ => None) (fun _ _ => true) ∅ w
                  "u-1" [] _ eq_refl eq_refl eq_refl)).
Defined.

(** X13. When the transport of a new session reports its closure, the
    [onclose] callback takes the session out of the registry again, in
    all four variants. The identifier is neither empty, which the guard
    of the callback would pass over, nor [__proto__], for which the
    registration is no ordinary assignment. *)
Theorem closed_session_is_unregistered :
  forall (transport json : Type) (JSON_parse : string -> option json)
         (response_accepts : Z -> gmap string string -> bool) (reg : gmap string transport)
         (w : world transport) (id : string) (pre mid post : list event),
    connect_error w = None ->
    id <> EmptyString ->
    id <> "__proto__" ->
    events (conduct w) = pre ++ Do (Initialized id) :: mid ++ Do Closed :: post ->
    forallb (fun e => negb (initializes e)) mid = true ->
    forallb (fun e => negb (is_initialized id e)) post = true ->
    let rq := {| sessionId := None; is_initialize := true |} in
    registry (IndexTs.post (json := json) response_accepts reg rq w) !! id = None
    /\ registry (Part001.post (json := json) response_accepts reg rq w) !! id = None
    /\ registry (Part000.post JSON_parse reg rq w) !! id = None
    /\ registry (Part002.post JSON_parse reg rq w) !! id = None.
Proof.
  intros transport json JSON_parse response_accepts reg w id pre mid post
         Hc Hid _ Hev Hmid Hpost rq.
  destruct (post_registry JSON_parse response_accepts reg rq w) as (H1 & H2 & H3 & H4).
  cbn zeta in H1, H2, H3, H4. rewrite H1, H2, H3, H4.
  assert (H : (fold_left (registry_step (fresh w)) (events (conduct w)) (reg, None)).1 !! id
              = None).
  { rewrite Hev, fold_left_app. cbn [fold_left].
    rewrite fold_left_app. cbn [fold_left].
    apply registry_closed; [exact Hpost |].
    cbn [registry_step fst snd]. rewrite registry_sid_kept by exact Hmid.
    cbn [registry_step fst snd]. unfold on_close.
    apply CurlFacts.truthy_true in Hid. rewrite Hid. apply lookup_delete_eq. }
  change (classify reg rq) with (@Create transport). rewrite Hc.
  repeat split; exact H.
Qed.

Lemma closed_session_is_unregistered_witness :
  let w := {| fresh := 7%nat; connect_error := None;
              conduct := {| sync := [];
                            later := [Do (Initialized "u-1"); Do (End None);
                                      Do Closed; Fulfil] |} |} in
  events (conduct w) = [] ++ Do (Initialized "u-1") :: [Do (End None)] ++ Do Closed :: [Fulfil]
  /\ registry (Part000.post (fun _ : string => @None unit) ∅
                 {| sessionId := None; is_initialize := true |} w) !! "u-1" = None.
Proof.
  intros w. split; [reflexivity |].
  destruct (closed_session_is_unregistered nat unit (fun _ => None) (fun _ _ => true) ∅ w
              "u-1" [] [Do (End None)] [Fulfil]) as (_ & _ & H & _);
    [reflexivity | discriminate | discriminate | reflexivity | reflexivity | reflexivity |].
  exact H.
Defined.

(** X14. A POST leaves every other session alone: an entry of the
    registry changes only under the identifier of the session header or
    under an identifier the transport initializes, in all four
    variants. *)
Theorem post_touches_no_other_session :
  forall (transport json : Type) (JSON_parse : string -> option json)
         (response_accepts : Z -> gmap string string -> bool) (reg : gmap string transport)
         (rq : request) (w : world transport) (k : string),
    sessionId rq <> Some k ->
    forallb (fun e => negb (is_initialized k e)) (events (conduct w)) = true ->
    registry (IndexTs.post (json := json) response_accepts reg rq w) !! k = reg !! k
    /\ registry (Part001.post (json := json) response_accepts reg rq w) !! k = reg !! k
    /\ registry (Part000.post JSON_parse reg rq w) !! k = reg !! k
    /\ registry (Part002.post JSON_parse reg rq w) !! k = reg !! k.
Proof.
  intros transport json JSON_parse response_accepts reg rq w k Hsid Hev.
  destruct (post_registry JSON_parse response_accepts reg rq w) as (H1 & H2 & H3 & H4).
  cbn zeta in H1, H2, H3, H4. rewrite H1, H2, H3, H4.
  assert (H : forall t sid, sid <> Some k ->
            (fold_left (registry_step t) (events (conduct w)) (reg, sid)).1 !! k = reg !! k).
  { intros t sid Hne. apply (registry_frame t k _ Hev (reg, sid) Hne). }
  destruct (classify reg rq) as [[t |] | |]; try (repeat split; reflexivity).
  - repeat split; apply H, Hsid.
  - destruct (connect_error w); [repeat split; reflexivity |].
    repeat split; apply H; discriminate.
Qed.

Lemma post_touches_no_other_session_witness :
  let reg : gmap string nat := {["s1" := 1%nat; "s2" := 2%nat]} in
  let rq := {| sessionId := Some "s1"; is_initialize := false |} in
  let w := {| fresh := 7%nat; connect_error := None;
              conduct := {| sync := []; later := [Do Closed; Do (End None); Fulfil] |} |} in
  sessionId rq <> Some "s2"
  /\ registry (IndexTs.post (json := unit) (fun _ _ => true) reg rq w) !! "s2" = Some 2%nat.
Proof.
  intros reg rq w. split; [discriminate |].
  destruct (post_touches_no_other_session nat unit (fun _ => None) (fun _ _ => true)
              reg rq w "s2") as (H & _); [discriminate | reflexivity |].
  rewrite H. reflexivity.
Defined.

(** *** Classification *)

Lemma classify_unknown {transport : Type} (reg : gmap string transport) (rq : request) :
  (absent (sessionId rq) = true /\ is_initialize rq = false)
  \/ (exists k, sessionId rq = Some k /\ k <> EmptyString /\ reg !! k = None
                /\ k ∉ object_prototype_keys) ->
  classify reg rq = BadRequest.
Proof.
  unfold classify, known, absent, get.
  intros [[Habs Hinit] | (k & -> & Hk & Hreg & Hproto)].
  - destruct (sessionId rq) as [k |]; simpl.
    + apply negb_true_iff in Habs. rewrite Habs, Hinit. reflexivity.
    + rewrite Hinit. reflexivity.
  - rewrite Hreg, bool_decide_eq_false_2 by exact Hproto.
    apply CurlFacts.truthy_true in Hk. rewrite Hk. reflexivity.
Qed.

Lemma get_unknown {transport : Type} (reg : gmap string transport) (k : string) :
  reg !! k = None -> k ∉ object_prototype_keys ->
  property_truthy (get reg k) = false.
Proof.
  intros Hreg Hproto. unfold get.
  rewrite Hreg, bool_decide_eq_false_2 by exact Hproto. reflexivity.
Qed.

(** X15. The life of a session in index.ts: once started it is reached
    by GET and POST calls carrying its identifier, which go to its
    transport; a DELETE with the identifier removes it; after that a GET
    with the identifier is answered 400 with a plain text and a POST with
    the JSON-RPC error, none of them reaching a transport. *)
Theorem session_lifecycle :
  forall (transport json : Type) (response_accepts : Z -> gmap string string -> bool)
         (reg : gmap string transport) (w : world transport) (id : string)
         (pre post : list event),
    connect_error w = None ->
    id <> EmptyString ->
    id ∉ object_prototype_keys ->
    events (conduct w) = pre ++ Do (Initialized id) :: post ->
    forallb (fun e => negb (is_closed e)) post = true ->
    let reg1 := registry (IndexTs.post (json := json) response_accepts reg
                            {| sessionId := None; is_initialize := true |} w) in
    let reg2 := registry (IndexTs.delete_ (json := json) reg1 (Some id)) in
    let again := {| sessionId := Some id; is_initialize := false |} in
    (forall b, invoked (IndexTs.get_mcp (json := json) response_accepts reg1 (Some id) b)
               = [(fresh w, "GET")])
    /\ (forall w', invoked (IndexTs.post (json := json) response_accepts reg1 again w')
                   = [(fresh w, "POST")])
    /\ reg2 !! id = None
    /\ (forall b, IndexTs.get_mcp (json := json) response_accepts reg2 (Some id) b
                  = {| registry := reg2; invoked := [];
                       result := Fulfilled {| status := 400; headers := IndexTs.corsHeaders;
                                              body := Str "Invalid session" |} |})
    /\ (forall w', IndexTs.post (json := json) response_accepts reg2 again w'
                   = {| registry := reg2; invoked := [];
                        result := Fulfilled IndexTs.bad_request |}).
Proof.
  intros transport json response_accepts reg w id pre post Hc Hid Hproto Hev Hpost
         reg1 reg2 again.
  assert (Hreg1 : reg1 !! id = Some (fresh w)).
  { subst reg1.
    destruct (post_registry (fun _ : string => @None json) response_accepts reg
                {| sessionId := None; is_initialize := true |} w) as (H1 & _).
    cbn zeta in H1. rewrite H1.
    change (classify reg {| sessionId := None; is_initialize := true |})
      with (@Create transport). rewrite Hc.
    rewrite Hev, fold_left_app. cbn [fold_left].
    apply registry_initialized; [exact Hpost |].
    simpl. unfold on_initialized. apply lookup_insert_eq. }
  pose proof (proj2 (CurlFacts.truthy_true id) Hid) as Ht.
  assert (Hreg2 : reg2 = delete id reg1).
  { subst reg2. unfold IndexTs.delete_. simpl. unfold get. rewrite Hreg1, Ht. reflexivity. }
  assert (Hgone : reg2 !! id = None) by (rewrite Hreg2; apply lookup_delete_eq).
  split; [| split; [| split; [| split]]].
  - intros b. unfold IndexTs.get_mcp, get. rewrite Hreg1, Ht. reflexivity.
  - intros w'. unfold IndexTs.post.
    rewrite (classify_registered reg1 again id (fresh w) eq_refl Hreg1 Hid). reflexivity.
  - exact Hgone.
  - intros b. unfold IndexTs.get_mcp. rewrite (get_unknown reg2 id Hgone Hproto).
    rewrite andb_false_r. reflexivity.
  - intros w'. unfold IndexTs.post.
    rewrite (classify_unknown reg2 again); [reflexivity |].
    right. exists id. repeat split; assumption.
Qed.

Lemma session_lifecycle_witness :
  let w := {| fresh := 7%nat; connect_error := None;
              conduct := {| sync := [];
                            later := [Do (Initialized "u-1"); Do (End (Some "{}")); Fulfil] |} |} in
  let reg1 := registry (IndexTs.post (json := unit) (fun _ _ => true) ∅
                          {| sessionId := None; is_initialize := true |} w) in
  ("u-1" ∉ object_prototype_keys)
  /\ registry (IndexTs.delete_ (json := unit) reg1 (Some "u-1")) !! "u-1" = None.
Proof.
  intros w reg1.
  assert (Hproto : "u-1" ∉ object_prototype_keys).
  { intros H. apply list_elem_of_In in H. simpl in H. intuition discriminate. }
  split; [exact Hproto |].
  destruct (session_lifecycle nat unit (fun _ _ => true) ∅ w "u-1" []
              [Do (End (Some "{}")); Fulfil]) as (_ & _ & H & _);
    [reflexivity | discriminate | exact Hproto | reflexivity | reflexivity |].
  exact H.
Defined.

(** X16. A POST whose session header is absent or empty on a body that is
    not an initialization request, or names neither a registered session
    nor a property inherited from [Object.prototype] (also when the body
    is an initialization request), is answered 400 with the JSON-RPC
    error of code -32000 in all four variants; no session is started, no
    transport is called and the registry stays as it is. index.ts and
    part_001 send the CORS headers and a JSON content type, part_000 the
    content type alone, part_002 no header of its own. *)
Theorem post_refuses_unknown_session :
  forall (transport json : Type) (JSON_parse : string -> option json)
         (response_accepts : Z -> gmap string string -> bool) (reg : gmap string transport)
         (rq : request) (w : world transport),
    (absent (sessionId rq) = true /\ is_initialize rq = false)
    \/ (exists k, sessionId rq = Some k /\ k <> EmptyString /\ reg !! k = None
                  /\ k ∉ object_prototype_keys) ->
    IndexTs.post (json := json) response_accepts reg rq w
      = {| registry := reg; invoked := [];
           result := Fulfilled
             {| status := 400;
                headers := IndexTs.corsHeaders ∪ {["Content-Type" := "application/json"]};
                body := ErrorText (-32000) "Bad Request" |} |}
    /\ Part001.post (json := json) response_accepts reg rq w
      = {| registry := reg; invoked := [];
           result := Fulfilled
             {| status := 400;
                headers := IndexTs.corsHeaders ∪ {["Content-Type" := "application/json"]};
                body := ErrorText (-32000) "Bad Request" |} |}
    /\ Part000.post JSON_parse reg rq w
      = {| registry := reg; invoked := [];
           result := Fulfilled
             {| status := 400;
                headers := {["Content-Type" := "application/json"]};
                body := ErrorText (-32000) "Bad Request: No valid session ID provided" |} |}
    /\ Part002.post JSON_parse reg rq w
      = {| registry := reg; invoked := [];
           result := Fulfilled
             {| status := 400; headers := ∅;
                body := ErrorObject (-32000) "Bad Request: No valid session ID provided" |} |}.
Proof.
  intros transport json JSON_parse response_accepts reg rq w H.
  unfold IndexTs.post, Part001.post, Part000.post, Part002.post.
  rewrite (classify_unknown reg rq H). repeat split.
Qed.

Lemma post_refuses_unknown_session_witness :
  let reg : gmap string nat := {["s1" := 1%nat]} in
  let rq := {| sessionId := Some "stale"; is_initialize := true |} in
  let w := {| fresh := 7%nat; connect_error := None;
              conduct := {| sync := []; later := [] |} |} in
  reg !! "stale" = None
  /\ registry (Part002.post (fun _ : string => @None unit) reg rq w) = reg.
Proof.
  intros reg rq w. split; [reflexivity |].
  destruct (post_refuses_unknown_session nat unit (fun _ => None) (fun _ _ => true) reg rq w)
    as (_ & _ & _ & H).
  - right. exists "stale". repeat split; [discriminate |].
    intros Hin. apply list_elem_of_In in Hin. simpl in Hin. intuition discriminate.
  - rewrite H. reflexivity.
Defined.

(** X17. When [server.connect] fails for a new session, all four variants
    answer 500 with the JSON-RPC error of code -32603; the transport just
    made is never called and the registry stays as it is. The headers are
    those of the bad-request reply of each variant. *)
Theorem failed_connect_is_a_500 :
  forall (transport json : Type) (JSON_parse : string -> option json)
         (response_accepts : Z -> gmap string string -> bool) (reg : gmap string transport)
         (rq : request) (w : world transport) (e : string),
    absent (sessionId rq) = true ->
    is_initialize rq = true ->
    connect_error w = Some e ->
    IndexTs.post (json := json) response_accepts reg rq w
      = {| registry := reg; invoked := [];
           result := Fulfilled
             {| status := 500;
                headers := IndexTs.corsHeaders ∪ {["Content-Type" := "application/json"]};
                body := ErrorText (-32603) "Internal Error" |} |}
    /\ Part001.post (json := json) response_accepts reg rq w
      = {| registry := reg; invoked := [];
           result := Fulfilled
             {| status := 500;
                headers := IndexTs.corsHeaders ∪ {["Content-Type" := "application/json"]};
                body := ErrorText (-32603) "Internal Error" |} |}
    /\ Part000.post JSON_parse reg rq w
      = {| registry := reg; invoked := [];
           result := Fulfilled
             {| status := 500;
                headers := {["Content-Type" := "application/json"]};
                body := ErrorText (-32603) "Internal server error" |} |}
    /\ Part002.post JSON_parse reg rq w
      = {| registry := reg; invoked := [];
           result := Fulfilled
             {| status := 500; headers := ∅;
                body := ErrorObject (-32603) "Internal server error" |} |}.
Proof.
  intros transport json JSON_parse response_accepts reg rq w e Habs Hinit Hc.
  assert (Hcl : classify reg rq = Create).
  { unfold classify, known. destruct (sessionId rq) as [k |]; simpl in *.
    - apply negb_true_iff in Habs. rewrite Habs, Hinit. reflexivity.
    - rewrite Hinit. reflexivity. }
  unfold IndexTs.post, Part001.post, Part000.post, Part002.post.
  rewrite Hcl, Hc. repeat split.
Qed.

Lemma failed_connect_is_a_500_witness :
  let rq := {| sessionId := None; is_initialize := true |} in
  let w := {| fresh := 7%nat; connect_error := Some "refused";
              conduct := {| sync := []; later := [Do (Initialized "u-1"); Fulfil] |} |} in
  connect_error w = Some "refused"
  /\ registry (IndexTs.post (json := unit) (fun _ _ => true) ∅ rq w) = ∅.
Proof.
  intros rq w. split; [reflexivity |].
  destruct (failed_connect_is_a_500 nat unit (fun _ => None) (fun _ _ => true) ∅ rq w
              "refused" eq_refl eq_refl eq_refl) as (H & _).
  rewrite H. reflexivity.
Defined.

(** X18. A GET whose session header is absent or empty or names neither
    a registered session nor a property inherited from
    [Object.prototype] is answered 400 with a plain text in all four
    variants, with the CORS headers in index.ts and part_001 and without
    a header in part_000 and part_002; no transport is called and the
    registry stays as it is. *)
Theorem get_refuses_unknown_session :
  forall (transport json : Type) (JSON_parse : string -> option json)
         (response_accepts : Z -> gmap string string -> bool) (reg : gmap string transport)
         (sessionId : option string) (b : behaviour),
    absent sessionId = true
    \/ (exists k, sessionId = Some k /\ reg !! k = None /\ k ∉ object_prototype_keys) ->
    IndexTs.get_mcp (json := json) response_accepts reg sessionId b
      = {| registry := reg; invoked := [];
           result := Fulfilled {| status := 400; headers := IndexTs.corsHeaders;
                                  body := Str "Invalid session" |} |}
    /\ Part001.get_mcp (json := json) response_accepts reg sessionId b
      = {| registry := reg; invoked := [];
           result := Fulfilled {| status := 400; headers := IndexTs.corsHeaders;
                                  body := Str "Invalid session" |} |}
    /\ Part000.get_mcp JSON_parse reg sessionId b
      = {| registry := reg; invoked := [];
           result := Fulfilled {| status := 400; headers := ∅;
                                  body := Str "Invalid or missing session ID" |} |}
    /\ Part002.get_mcp (json := json) reg sessionId b
      = {| registry := reg; invoked := [];
           result := Fulfilled {| status := 400; headers := ∅;
                                  body := Str "Invalid or missing session ID" |} |}.
Proof.
  intros transport json JSON_parse response_accepts reg sessionId b H.
  unfold IndexTs.get_mcp, Part001.get_mcp, Part000.get_mcp, Part002.get_mcp.
  destruct H as [Habs | (k & -> & Hreg & Hproto)].
  - destruct sessionId as [k |]; [| repeat split].
    simpl in Habs. apply negb_true_iff in Habs. rewrite Habs. repeat split.
  - rewrite (get_unknown reg k Hreg Hproto), andb_false_r. repeat split.
Qed.

Lemma get_refuses_unknown_session_witness :
  absent (Some EmptyString) = true
  /\ result (Part000.get_mcp (transport := nat) (fun _ : string => @None unit) ∅
               (Some EmptyString) {| sync := []; later := [Fulfil] |})
     = Fulfilled {| status := 400; headers := ∅;
                    body := Str "Invalid or missing session ID" |}.
Proof.
  split; [reflexivity |].
  destruct (get_refuses_unknown_session nat unit (fun _ => None) (fun _ _ => true) ∅
              (Some EmptyString) {| sync := []; later := [Fulfil] |}) as (_ & _ & H & _);
    [left; reflexivity |].
  rewrite H. reflexivity.
Defined.

(** *** What the handlers make of the behaviour of the transport *)

Section P000.
Context {transport json : Type} (JSON_parse : string -> option json).

Local Abbreviation step := (Part000.step (transport := transport) JSON_parse).

Lemma part000_caught_never_rejected (t : transport) (es : list event) :
  forall st : Part000.driving,
    (forall e, Part000.handler st <> Rejected e) ->
    forall e, Part000.handler (fold_left (step true t) es st) <> Rejected e.
Proof.
  induction es as [| ev es IH]; intros st Hst; [exact Hst |].
  simpl. apply IH.
  destruct ev as [[] | | err | |]; simpl; try exact Hst.
  destruct (Part000.call st) as [| [] | e0]; simpl; try exact Hst;
    (intros e'; destruct (Part000.handler st) as [| r | e1] eqn:Hh; simpl;
     [discriminate | discriminate | exfalso; exact (Hst e1 eq_refl)]).
Qed.

End P000.

Lemma ended_data_last (a b : list event) (d : option string) :
  forallb (fun e => negb (is_end e)) b = true ->
  ended_data (a ++ Do (End d) :: b) = d.
Proof.
  intros Hb. unfold ended_data. rewrite fold_left_app. simpl.
  generalize d. induction b as [| e b IH]; intros d0; [reflexivity |].
  simpl in Hb. apply andb_prop in Hb as [He Hb]. simpl.
  destruct e as [[] | | | |]; try (apply (IH Hb)). discriminate He.
Qed.

(** X19. The POST handler of part_000 never hands a rejected promise to
    the framework: whatever the registry, the call and the transport,
    its promise is pending or fulfilled with a reply. *)
Theorem part000_post_never_rejects :
  forall (transport json : Type) (JSON_parse : string -> option json)
         (reg : gmap string transport) (rq : request) (w : world transport)
         (e : string),
    result (Part000.post JSON_parse reg rq w) <> Rejected e.
Proof.
  intros transport json JSON_parse reg rq w e.
  assert (Hdrive : forall t sid,
            result (Part000.drive JSON_parse true "POST" t reg sid (conduct w)) <> Rejected e).
  { intros t sid. unfold Part000.drive. cbn [result].
    apply part000_caught_never_rejected. intros e'. discriminate. }
  unfold Part000.post.
  destruct (classify reg rq) as [[t |] | |]; try discriminate; [apply Hdrive |].
  destruct (connect_error w); [discriminate | apply Hdrive].
Qed.

Lemma part000_post_never_rejects_witness :
  result (Part000.post (fun _ : string => @None unit) (∅ : gmap string nat)
            {| sessionId := Some "constructor"; is_initialize := false |}
            {| fresh := 7%nat; connect_error := None;
               conduct := {| sync := []; later := [Reject "boom"] |} |})
  <> Rejected "TypeError".
Proof. apply part000_post_never_rejects. Defined.

(** X20. In part_000, when the call of [handleRequest] is fulfilled, the
    body of the POST reply is the data of the last [end] that the
    transport made before the handler resumed behind its [await] (parsed
    as JSON when that works): an earlier [end] is overwritten, an [end]
    made between the fulfilment and the resumption still counts, and one
    made after the resumption comes too late. *)
Theorem part000_last_end_decides :
  forall (transport json : Type) (JSON_parse : string -> option json)
         (reg : gmap string transport) (rq : request) (w : world transport)
         (pre mid post a b : list event) (d : option string),
    (exists t, classify reg rq = Reuse (Some t))
    \/ (classify reg rq = Create /\ connect_error w = None) ->
    trace (conduct w) = pre ++ Fulfil :: mid ++ Resume :: post ->
    forallb (fun e => negb (settles_call e)) pre = true ->
    forallb (fun e => negb (is_resume e)) mid = true ->
    pre ++ Fulfil :: mid = a ++ Do (End d) :: b ->
    forallb (fun e => negb (is_end e)) b = true ->
    exists r, result (Part000.post JSON_parse reg rq w) = Fulfilled r
              /\ body r = parse_or_raw JSON_parse d.
Proof.
  intros transport json JSON_parse reg rq w pre mid post a b d Hroute Hev Hpre Hmid
         Hsplit Hb.
  assert (Hdrive : forall t sid,
    exists r, result (Part000.drive JSON_parse true "POST" t reg sid (conduct w)) = Fulfilled r
              /\ body r = parse_or_raw JSON_parse d).
  { intros t sid. unfold Part000.drive. cbn [result]. rewrite Hev.
    change (pre ++ Fulfil :: mid ++ Resume :: post)
      with (pre ++ (Fulfil :: mid) ++ Resume :: post).
    rewrite app_assoc.
    rewrite (part000_resumes JSON_parse true t reg sid pre mid post Fulfil
               Hpre eq_refl Hmid).
    eexists. split; [reflexivity |]. cbn [body].
    rewrite Hsplit, (ended_data_last a b d Hb). reflexivity. }
  unfold Part000.post.
  destruct Hroute as [[t ->] | [-> ->]]; apply Hdrive.
Qed.

Lemma part000_last_end_decides_witness :
  let reg : gmap string nat := {["s1" := 1%nat]} in
  let rq := {| sessionId := Some "s1"; is_initialize := false |} in
  let w := {| fresh := 7%nat; connect_error := None;
              conduct := {| sync := [];
                            later := [Do (End (Some "first")); Fulfil;
                                      Do (End (Some "second")); Resume;
                                      Do (End (Some "third"))] |} |} in
  classify reg rq = Reuse (Some 1%nat)
  /\ exists r, result (Part000.post (fun _ : string => @None unit) reg rq w) = Fulfilled r
               /\ body r = Str "second".
Proof.
  intros reg rq w. split; [reflexivity |].
  apply (part000_last_end_decides nat unit (fun _ => None) reg rq w
           [Do (End (Some "first"))] [Do (End (Some "second"))]
           [Do (End (Some "third")); Resume; Respond]
           [Do (End (Some "first")); Fulfil] [] (Some "second"));
    [left; exists 1%nat; reflexivity | reflexivity | reflexivity | reflexivity
    | reflexivity | reflexivity].
Defined.

(** *** index.ts: the second argument of writeHead *)

Lemma fold_left_map_event {S : Type} (f : S -> event -> S) (g : event -> event)
    (es : list event) :
  (forall s e, f s (g e) = f s e) ->
  forall s, fold_left f (List.map g es) s = fold_left f es s.
Proof.
  intros Hfg. induction es as [| e es IH]; intros s; [reflexivity |].
  simpl. rewrite Hfg. apply IH.
Qed.

Lemma events_forget_heads (b : behaviour) :
  events (forget_heads b) = List.map forget_head (events b).
Proof.
  unfold events, forget_heads. cbn [sync later].
  rewrite List.map_app, !List.map_map. f_equal.
  apply List.map_ext. intros a. destruct a; reflexivity.
Qed.

(** X21. In index.ts the headers a transport passes to [writeHead] never
    reach the reply: the POST and the GET handler do the same with and
    without them (only [setHeader] sets a header), while part_001 merges
    them. *)
Theorem index_drops_writeHead_headers :
  forall (transport json : Type) (response_accepts : Z -> gmap string string -> bool)
         (reg : gmap string transport) (rq : request) (w : world transport)
         (sessionId : option string),
    let w' := {| fresh := fresh w; connect_error := connect_error w;
                 conduct := forget_heads (conduct w) |} in
    IndexTs.post (json := json) response_accepts reg rq w'
      = IndexTs.post (json := json) response_accepts reg rq w
    /\ IndexTs.get_mcp (json := json) response_accepts reg sessionId (forget_heads (conduct w))
       = IndexTs.get_mcp (json := json) response_accepts reg sessionId (conduct w).
Proof.
  intros transport json response_accepts reg rq w sessionId w'. subst w'.
  split.
  - unfold IndexTs.post, IndexTs.drive, IndexTs.run. cbn [fresh connect_error conduct].
    assert (H : forall t sid,
      fold_left (IndexTs.step (json := json) response_accepts t)
        (events (forget_heads (conduct w))) (IndexTs.start reg sid)
      = fold_left (IndexTs.step response_accepts t) (events (conduct w))
          (IndexTs.start reg sid)).
    { intros t sid. rewrite events_forget_heads. apply fold_left_map_event.
      intros s e. destruct e as [[] | | | |]; reflexivity. }
    destruct (classify reg rq) as [[t |] | |]; try reflexivity.
    + rewrite H. reflexivity.
    + destruct (connect_error w); [reflexivity | rewrite H; reflexivity].
  - unfold IndexTs.get_mcp.
    destruct sessionId as [k |]; [| reflexivity].
    destruct (truthy k && _); [| reflexivity].
    destruct (transport_of _) as [t |]; [| reflexivity].
    rewrite events_forget_heads.
    rewrite (fold_left_map_event (IndexTs.step_get response_accepts t) forget_head);
      [reflexivity |].
    intros s e. destruct e as [[] | | | |]; reflexivity.
Qed.

(** The content type a transport announces through [writeHead], in
    index.ts and in part_001. *)
Example writeHead_content_type :
  let reg : gmap string nat := {["s1" := 1%nat]} in
  let rq := {| sessionId := Some "s1"; is_initialize := false |} in
  let w := {| fresh := 7%nat; connect_error := None;
              conduct := {| sync := [];
                            later := [Do (WriteHead 200
                                            (Some {["Content-Type" := "text/event-stream"]}));
                                      Do (End None)] |} |} in
  let content_type := fun o : outcome nat unit =>
    match result o with
    | Fulfilled r => headers r !! "Content-Type"
    | _ => None
    end in
  content_type (IndexTs.post (fun _ _ => true) reg rq w) = Some "application/json"
  /\ content_type (Part001.post (fun _ _ => true) reg rq w) = Some "text/event-stream".
Proof. split; reflexivity. Qed.

(** *** DELETE and the health count in index.ts *)

(** X22. The DELETE handler of index.ts is idempotent, leaves every
    other session alone, and lowers the session count of the health check
    by one exactly when it names a registered session. *)
Theorem delete_is_idempotent :
  forall (transport json : Type) (reg : gmap string transport)
         (sessionId : option string),
    let reg' := registry (IndexTs.delete_ (json := json) reg sessionId) in
    registry (IndexTs.delete_ (json := json) reg' sessionId) = reg'
    /\ (forall k, sessionId <> Some k -> reg' !! k = reg !! k)
    /\ IndexTs.health_sessions reg' =
         match sessionId with
         | Some k =>
             if truthy k then
               match reg !! k with
               | Some _ => Nat.pred (IndexTs.health_sessions reg)
               | None => IndexTs.health_sessions reg
               end
             else IndexTs.health_sessions reg
         | None => IndexTs.health_sessions reg
         end.
Proof.
  intros transport json reg sessionId reg'. subst reg'.
  unfold IndexTs.delete_, IndexTs.health_sessions. cbn [registry].
  destruct sessionId as [k |]; [| repeat split; reflexivity].
  assert (Hdel : (if known reg (Some k) then delete k reg else reg) =
                 if truthy k then delete k reg else reg).
  { simpl. destruct (truthy k); [| reflexivity]. simpl.
    unfold get. destruct (reg !! k) eqn:Hk; simpl; [reflexivity |].
    destruct (bool_decide _); simpl; [reflexivity |].
    symmetry. apply delete_id. exact Hk. }
  rewrite Hdel. destruct (truthy k) eqn:Ht.
  - split; [| split].
    + assert (Hk : known (delete k reg) (Some k) = bool_decide (k ∈ object_prototype_keys)).
      { simpl. rewrite Ht. unfold get. rewrite lookup_delete_eq.
        destruct (bool_decide _); reflexivity. }
      rewrite Hk. destruct (bool_decide _); [| reflexivity].
      apply delete_id, lookup_delete_eq.
    + intros k' Hne. apply lookup_delete_ne. congruence.
    + rewrite map_size_delete. destruct (reg !! k); reflexivity.
  - split; [| split].
    + simpl. rewrite Ht. reflexivity.
    + reflexivity.
    + reflexivity.
Qed.

Lemma delete_is_idempotent_witness :
  let reg : gmap string nat := {["s1" := 1%nat; "s2" := 2%nat]} in
  let reg' := registry (IndexTs.delete_ (json := unit) reg (Some "s1")) in
  registry (IndexTs.delete_ (json := unit) reg' (Some "s1")) = reg'
  /\ IndexTs.health_sessions reg' = 1%nat.
Proof.
  intros reg reg'.
  destruct (delete_is_idempotent nat unit reg (Some "s1")) as (Hidem & _ & Hcount).
  split; [exact Hidem |]. subst reg'. rewrite Hcount. reflexivity.
Defined.

(** *** part_001: a rejected call *)

(** X23. In part_001 a call of [handleRequest] that is rejected always
    settles the promise of the handler, for a POST on a valid session and
    for a GET on a registered one, whatever the transport did before and
    does afterwards: the [catch] callbacks of lines 259-269 and 307-313
    resolve it with a 500 reply unless an [end] had resolved it
    already. *)
Theorem part001_settles_on_rejection :
  forall (transport json : Type) (response_accepts : Z -> gmap string string -> bool)
         (reg : gmap string transport) (k : string) (t : transport)
         (w : world transport) (pre post : list event) (e : string),
    reg !! k = Some t ->
    k <> EmptyString ->
    events (conduct w) = pre ++ Reject e :: post ->
    forallb (fun e => negb (settles_call e)) pre = true ->
    settled (result (Part001.post (json := json) response_accepts reg
                       {| sessionId := Some k; is_initialize := false |} w)) = true
    /\ settled (result (Part001.post (json := json) response_accepts reg
                          {| sessionId := None; is_initialize := true |}
                          {| fresh := fresh w; connect_error := None;
                             conduct := conduct w |})) = true
    /\ settled (result (Part001.get_mcp (json := json) response_accepts reg (Some k)
                          (conduct w))) = true.
Proof.
  intros transport json response_accepts reg k t w pre post e Hk Hne Hev Hpre.
  split; [| split].
  - unfold Part001.post.
    rewrite (classify_registered reg {| sessionId := Some k; is_initialize := false |}
               k t eq_refl Hk Hne).
    unfold Part001.drive, Part001.run, Part001.step, trace.
    cbn [result conduct]. rewrite Hev.
    apply part001_rejection_settles, Hpre.
  - unfold Part001.post.
    change (classify reg {| sessionId := None; is_initialize := true |})
      with (@Create transport).
    unfold Part001.drive, Part001.run, Part001.step, trace.
    cbn [result conduct connect_error fresh]. rewrite Hev.
    apply part001_rejection_settles, Hpre.
  - unfold Part001.get_mcp, get. rewrite Hk.
    apply CurlFacts.truthy_true in Hne. rewrite Hne. cbn [result andb
      property_truthy transport_of]. unfold Part001.step_get, trace. rewrite Hev.
    apply part001_rejection_settles, Hpre.
Qed.

Lemma part001_settles_on_rejection_witness :
  let reg : gmap string nat := {["s1" := 1%nat]} in
  let w := {| fresh := 7%nat; connect_error := None;
              conduct := {| sync := [WriteHead 200 None];
                            later := [Reject "boom"; Do (End None)] |} |} in
  reg !! "s1" = Some 1%nat
  /\ settled (result (Part001.get_mcp (json := unit) (fun _ _ => true) reg (Some "s1")
                        (conduct w))) = true.
Proof.
  intros reg w. split; [reflexivity |].
  destruct (part001_settles_on_rejection nat unit (fun _ _ => true) reg "s1" 1%nat w
              [Do (WriteHead 200 None)] [Do (End None)] "boom") as (_ & _ & H);
    [reflexivity | discriminate | reflexivity | reflexivity |].
  exact H.
Defined.

End HttpExtras.
